(** * marshmallow_dataclass2: the type-graph-to-schema compiler

    A shallow embedding of [src/marshmallow_dataclass2/__init__.py]:
    the schema compiler ([class_schema], [_internal_class_schema] under
    its [lru_cache]), the field synthesizer ([_field_for_schema] and its
    helpers), the context stack ([_SchemaContext], [_LocalStack]) and the
    decorator-side accessors ([LazyGenericSchema], [_check_decorated_type]).

    Python objects are modelled by what the code observes of them: a type
    hint is a term of [typ], a class is named by its identifier, a schema
    class created by [type(...)] is an address in a heap, the keyword
    dictionary [metadata] is a record of optional entries. *)

From Stdlib Require Import Ascii String List Bool Arith Lia ZArith.
Import ListNotations.
Open Scope string_scope.

Set Warnings "-register-all".

(** ** Type hints *)

(** The fourteen members of [CONTAINER_TYPES], as written without
    arguments. *)
Inductive bare : Type :=
| b_list | b_List | b_tuple | b_Tuple | b_frozenset | b_FrozenSet
| b_set | b_Set | b_abc_Sequence | b_Sequence | b_dict | b_Dict
| b_abc_Mapping | b_Mapping.

(** What [get_origin] returns on a subscripted container. *)
Inductive origin : Type :=
| o_list | o_tuple | o_frozenset | o_set | o_Sequence | o_dict | o_Mapping.

(** Values that occur in [Literal[...]], as defaults and in loaded data. *)
Inductive pyval : Type :=
| VNone
| VBool (b : bool)
| VInt (z : Z)
| VStr (s : string)
| VCallable (id : nat).

Inductive typ : Type :=
| TVar (name : string)                        (* a [TypeVar] *)
| TAny
| TNoneType
| TEllipsis                                   (* the [...] of [Tuple[T, ...]] *)
| TClass (name : string)                      (* a class object *)
| TBare (b : bare)                            (* a member of CONTAINER_TYPES *)
| TContainer (o : origin) (args : list typ)   (* [List[T]], [Dict[K, V]], ... *)
| TUnion (args : list typ)                    (* [Union[...]], [Optional[T]] *)
| TLiteral (vals : list pyval)
| TFinal (args : list typ)                    (* [Final] or [Final[T]] *)
| TAnnotated (t : typ) (anns : list nat)      (* [Annotated[T, a1, ...]] *)
| TNewType (name : string)
| TAlias (cls : string) (args : list typ)     (* [G[A1, ...]] of a user class *)
| TForwardRef (arg : string).                 (* carries [__forward_arg__] *)

Definition bare_eqb (a b : bare) : bool :=
  match a, b with
  | b_list, b_list | b_List, b_List | b_tuple, b_tuple | b_Tuple, b_Tuple
  | b_frozenset, b_frozenset | b_FrozenSet, b_FrozenSet | b_set, b_set
  | b_Set, b_Set | b_abc_Sequence, b_abc_Sequence | b_Sequence, b_Sequence
  | b_dict, b_dict | b_Dict, b_Dict | b_abc_Mapping, b_abc_Mapping
  | b_Mapping, b_Mapping => true
  | _, _ => false
  end.

Definition origin_eqb (a b : origin) : bool :=
  match a, b with
  | o_list, o_list | o_tuple, o_tuple | o_frozenset, o_frozenset
  | o_set, o_set | o_Sequence, o_Sequence | o_dict, o_dict
  | o_Mapping, o_Mapping => true
  | _, _ => false
  end.

Definition pyval_eqb (a b : pyval) : bool :=
  match a, b with
  | VNone, VNone => true
  | VBool x, VBool y => Bool.eqb x y
  | VInt x, VInt y => Z.eqb x y
  | VStr x, VStr y => String.eqb x y
  | VCallable x, VCallable y => Nat.eqb x y
  | _, _ => false
  end.

Fixpoint list_eqb {A : Type} (eqb : A -> A -> bool) (l1 l2 : list A) : bool :=
  match l1, l2 with
  | [], [] => true
  | x :: l1', y :: l2' => eqb x y && list_eqb eqb l1' l2'
  | _, _ => false
  end.

(** Equality of type hints when a hint is a dictionary key: classes by
    identity (their name here), subscripted hints by origin and arguments.
    The members of a union and the values of a [Literal] are compared in
    the order in which they are written; Python's [==] and [hash] do not
    look at that order, so two hints that differ in it only are one key
    for Python and two keys here. *)
Fixpoint typ_eqb (a b : typ) {struct a} : bool :=
  let fix args_eqb (l1 l2 : list typ) {struct l1} : bool :=
    match l1, l2 with
    | [], [] => true
    | x :: l1', y :: l2' => typ_eqb x y && args_eqb l1' l2'
    | _, _ => false
    end in
  match a, b with
  | TVar n, TVar m => String.eqb n m
  | TAny, TAny => true
  | TNoneType, TNoneType => true
  | TEllipsis, TEllipsis => true
  | TClass n, TClass m => String.eqb n m
  | TBare x, TBare y => bare_eqb x y
  | TContainer o1 l1, TContainer o2 l2 => origin_eqb o1 o2 && args_eqb l1 l2
  | TUnion l1, TUnion l2 => args_eqb l1 l2
  | TLiteral v1, TLiteral v2 => list_eqb pyval_eqb v1 v2
  | TFinal l1, TFinal l2 => args_eqb l1 l2
  | TAnnotated t1 a1, TAnnotated t2 a2 => typ_eqb t1 t2 && list_eqb Nat.eqb a1 a2
  | TNewType n, TNewType m => String.eqb n m
  | TAlias c1 l1, TAlias c2 l2 => String.eqb c1 c2 && args_eqb l1 l2
  | TForwardRef n, TForwardRef m => String.eqb n m
  | _, _ => false
  end.

(** ** Field options, fields and schemas *)

(** The value stored under ["validate"]: one callable, an iterable of
    callables, or an explicit [None]. Validators are named by a number. *)
Inductive validate_entry : Type :=
| V_one (v : nat)
| V_many (vs : list nat)
| V_null.

(** The keyword dictionary [metadata]. An entry is [None] when the key is
    absent. ["marshmallow_field"] holds a field object built by the user,
    named by a number. [md_description] is the dictionary kept under
    ["metadata"]: absent, or a dictionary that holds a ["description"]. *)
Record metadata : Type := mkMeta {
  md_required : option bool;
  md_allow_none : option bool;
  md_dump_default : option pyval;
  md_load_default : option pyval;
  md_marshmallow_field : option nat;
  md_validate : option validate_entry;
  md_description : option string
}.

Definition empty_md : metadata := mkMeta None None None None None None None.

(** [{"required": True}] *)
Definition required_md : metadata :=
  mkMeta (Some true) None None None None None None.

Definition set_required (v : option bool) (m : metadata) : metadata :=
  mkMeta v (md_allow_none m) (md_dump_default m) (md_load_default m)
         (md_marshmallow_field m) (md_validate m) (md_description m).
Definition set_allow_none (v : option bool) (m : metadata) : metadata :=
  mkMeta (md_required m) v (md_dump_default m) (md_load_default m)
         (md_marshmallow_field m) (md_validate m) (md_description m).
Definition set_dump_default (v : option pyval) (m : metadata) : metadata :=
  mkMeta (md_required m) (md_allow_none m) v (md_load_default m)
         (md_marshmallow_field m) (md_validate m) (md_description m).
Definition set_load_default (v : option pyval) (m : metadata) : metadata :=
  mkMeta (md_required m) (md_allow_none m) (md_dump_default m) v
         (md_marshmallow_field m) (md_validate m) (md_description m).
Definition set_validate (v : option validate_entry) (m : metadata) : metadata :=
  mkMeta (md_required m) (md_allow_none m) (md_dump_default m)
         (md_load_default m) (md_marshmallow_field m) v (md_description m).
Definition set_description (v : option string) (m : metadata) : metadata :=
  mkMeta (md_required m) (md_allow_none m) (md_dump_default m)
         (md_load_default m) (md_marshmallow_field m) (md_validate m) v.

(** [d.get(k, dflt)] and [d.setdefault(k, dflt)] on one entry. *)
Definition get_or {A : Type} (entry : option A) (dflt : A) : A :=
  match entry with Some v => v | None => dflt end.
Definition setdefault {A : Type} (entry : option A) (dflt : A) : option A :=
  match entry with Some v => Some v | None => Some dflt end.

(** Truth value of [metadata.get("required")]. *)
Definition truthy_required (m : metadata) : bool := get_or (md_required m) false.

(** The validator given to the [Raw] field of a [Literal]. *)
Inductive literal_validator : Type :=
| Equal (v : pyval)
| OneOf (vs : list pyval).

(** What a [Nested] field points to: a schema class, a class name to be
    resolved later (a forward reference), or the value found under the
    attribute [Schema] of the nested type. *)
Inductive nested_ref : Type :=
| N_schema (addr : nat)
| N_name (name : string)
| N_attr (v : nat).

(** A base schema class is named by a number; [None] is no base schema. *)
Definition base := option nat.

Definition base_eqb (a b : base) : bool :=
  match a, b with
  | None, None => true
  | Some x, Some y => Nat.eqb x y
  | _, _ => false
  end.

Inductive field : Type :=
| F_mapped (cls : string) (md : metadata)      (* a TYPE_MAPPING field class, called on the options *)
| F_user (id : nat)                            (* a field object of the user *)
| F_Raw (validate : option literal_validator) (md : metadata)
| F_ann_instance (ann : nat)                   (* a field object given in Annotated *)
| F_ann_call (ann : nat) (md : metadata)       (* a field class given in Annotated, called *)
| F_List (cls : string) (inner : field) (md : metadata)
| F_Sequence (inner : field) (md : metadata)
| F_Set (inner : field) (frozen : bool) (md : metadata)
| F_Tuple (cls : string) (inners : list field) (md : metadata)
| F_Dict (cls : string) (keys values : field) (md : metadata)
| F_Union (alts : list (typ * field)) (md : metadata)
| F_Enum (t : typ) (md : metadata)
| F_Nested (nested : nested_ref) (md : metadata)
| F_newtype (name : string) (md : metadata).   (* the field class attached to a NewType, called *)

(** A schema class made by [type(class_name, (base,), attributes)]. *)
Record schema_class : Type := mkSchema {
  sc_name : string;
  sc_clazz : typ;                     (* the class [BaseSchema.load] constructs *)
  sc_base : base;
  sc_members : list string;           (* hooks and whitelisted members copied *)
  sc_fields : list (string * field)
}.

(** ** Exceptions and the state of the interpreter *)

Inductive exn : Type :=
| UnboundTypeVarError (msg : string)
| TypeError (msg : string)
| IndexError
| KeyError (k : string)
| OtherError (msg : string).

(** [UnboundTypeVarError] derives from [TypeError]: the handler
    [except TypeError] matches both. *)
Definition isinstance_TypeError (e : exn) : bool :=
  match e with
  | UnboundTypeVarError _ | TypeError _ => true
  | _ => false
  end.

Definition isinstance_UnboundTypeVarError (e : exn) : bool :=
  match e with
  | UnboundTypeVarError _ => true
  | _ => false
  end.

(** [_SchemaContext]: [seen_classes] is a dictionary, kept in insertion
    order; the two namespaces are named by numbers. *)
Record SchemaContext : Type := mkCtx {
  seen_classes : list (typ * string);
  globalns : option nat;
  localns : option nat
}.

Definition cache_key : Type := (typ * base)%type.

Definition key_eqb (k1 k2 : cache_key) : bool :=
  typ_eqb (fst k1) (fst k2) && base_eqb (snd k1) (snd k2).

Record state : Type := mkState {
  stack : list SchemaContext;              (* [_schema_ctx_stack.stack], top first *)
  cache : list (cache_key * nat);          (* the [lru_cache], most recent first *)
  heap : list schema_class;                (* schema classes, by address *)
  memos : list (nat * list (list typ * nat)); (* per [LazyGenericSchema]: its private dict *)
  converted : list typ;                    (* classes turned into dataclasses *)
  warnings : list string                   (* messages passed to [warnings.warn] *)
}.

Inductive outcome (A : Type) : Type :=
| Ok (a : A) (s : state)
| Raise (e : exn) (s : state)
| Diverge.                                 (* the recursion budget ran out *)
Arguments Ok {A} a s.
Arguments Raise {A} e s.
Arguments Diverge {A}.

Definition M (A : Type) : Type := state -> outcome A.

Definition ret {A : Type} (a : A) : M A := fun s => Ok a s.
Definition raise {A : Type} (e : exn) : M A := fun s => Raise e s.
Definition bind {A B : Type} (c : M A) (k : A -> M B) : M B :=
  fun s => match c s with
           | Ok a s' => k a s'
           | Raise e s' => Raise e s'
           | Diverge => Diverge
           end.

Notation "x <- c ;; k" := (bind c (fun x => k))
  (at level 61, c at next level, right associativity).
Notation "c ;;; k" := (bind c (fun _ => k))
  (at level 61, right associativity).

(** [try: c except Exception as e: h e] *)
Definition try_except {A : Type} (c : M A) (h : exn -> M A) : M A :=
  fun s => match c s with
           | Ok a s' => Ok a s'
           | Raise e s' => h e s'
           | Diverge => Diverge
           end.

(** [with ctx: c], for a context manager whose [__exit__] returns [None]:
    the exit runs on both ways out and an exception goes on. *)
Definition with_ {A : Type} (enter : M unit) (exit_ : M unit) (c : M A) : M A :=
  fun s => match enter s with
           | Ok _ s1 =>
               match c s1 with
               | Ok a s2 =>
                   match exit_ s2 with
                   | Ok _ s3 => Ok a s3
                   | Raise e s3 => Raise e s3
                   | Diverge => Diverge
                   end
               | Raise e s2 =>
                   match exit_ s2 with
                   | Ok _ s3 => Raise e s3
                   | Raise e' s3 => Raise e' s3
                   | Diverge => Diverge
                   end
               | Diverge => Diverge
               end
           | Raise e s1 => Raise e s1
           | Diverge => Diverge
           end.

Fixpoint mapM {A B : Type} (f : A -> M B) (l : list A) : M (list B) :=
  match l with
  | [] => ret []
  | x :: l' => y <- f x ;; ys <- mapM f l' ;; ret (y :: ys)
  end.

(** ** What the compiler reads of its surroundings *)

(** A field of a dataclass, as [dataclasses.fields] reports it. *)
Record dc_field : Type := mkField {
  f_name : string;
  f_type : typ;
  f_init : bool;
  f_default : option pyval;            (* [None] is [dataclasses.MISSING] *)
  f_default_factory : option nat;      (* [None] is [dataclasses.MISSING] *)
  f_metadata : metadata
}.

(** What [getattr(typ, "Schema", None)] finds: nothing, the accessor that
    the decorators store on a generic class, or a value that the class
    holds under that name (as in [Schema: ClassVar[Type[Schema]] = Schema]
    in the body of a class). On a class that is not generic the decorators
    store a [lazy_class_attribute], which runs [class_schema] when it is
    first read; its module is not part of this file and classes that carry
    it are not described: what is proved of classes with no [Schema]
    attribute does not speak of them. *)
Inductive schema_attr : Type :=
| A_none
| A_lazy_generic (l : nat)             (* an instance of [LazyGenericSchema] *)
| A_value (v : nat).                   (* any other (true) value *)

(** An argument of [Annotated]: not a marshmallow field, a field instance,
    or a field class (also a subscripted generic field class). *)
Inductive annotation_kind : Type :=
| Ann_other
| Ann_field_instance
| Ann_field_class.

(** The declarations the compiler inspects and the helper modules that are
    not part of this file: [dataclasses], [typing], [typing_inspect],
    marshmallow's [TYPE_MAPPING], and [generic_resolver] (its
    [is_generic_alias] and [get_generic_dataclass_fields] are taken as
    given; the first argument of the latter tells whether the class is a
    dataclass at the time of the call). *)
Record env : Type := mkEnv {
  e_isinstance_type : typ -> bool;
  e_is_dataclass : typ -> bool;
  e_fields : typ -> list dc_field;
  e_dataclass : typ -> option exn;
  e_is_generic_type : typ -> bool;
  e_is_generic_alias : typ -> bool;
  e_generic_fields : bool -> typ -> exn + list dc_field;
  e_type_hints : typ -> option nat -> option nat -> exn + list (string * typ);
  e_resolve_forward : typ -> option nat -> option nat -> exn + typ;
  e_name : typ -> string;
  e_Schema : typ -> schema_attr;
  e_members : typ -> list string;
  e_include_non_init : typ -> bool;
  e_is_enum : typ -> bool;
  e_TYPE_MAPPING : typ -> option string;
  e_base_TYPE_MAPPING : nat -> typ -> option string;
  e_lazy_base : nat -> base;
  e_lazy_frame : nat -> option nat;
  e_callers_frame : typ -> option nat;
  e_supertype : string -> option typ;
  e_marshmallow_field : string -> bool;
  e_marshmallow_args : string -> metadata;
  e_annotation : nat -> annotation_kind
}.

(** ** State primitives *)

Definition set_stack (st : list SchemaContext) (s : state) : state :=
  mkState st (cache s) (heap s) (memos s) (converted s) (warnings s).
Definition set_cache (c : list (cache_key * nat)) (s : state) : state :=
  mkState (stack s) c (heap s) (memos s) (converted s) (warnings s).
Definition set_heap (h : list schema_class) (s : state) : state :=
  mkState (stack s) (cache s) h (memos s) (converted s) (warnings s).
Definition set_memos (m : list (nat * list (list typ * nat))) (s : state) : state :=
  mkState (stack s) (cache s) (heap s) m (converted s) (warnings s).
Definition set_converted (c : list typ) (s : state) : state :=
  mkState (stack s) (cache s) (heap s) (memos s) c (warnings s).
Definition set_warnings (w : list string) (s : state) : state :=
  mkState (stack s) (cache s) (heap s) (memos s) (converted s) w.

Definition initial_state : state := mkState [] [] [] [] [] [].

(** A dictionary keyed by type hints, in insertion order. *)
Fixpoint dict_get {V : Type} (k : typ) (d : list (typ * V)) : option V :=
  match d with
  | [] => None
  | (k', v) :: d' => if typ_eqb k k' then Some v else dict_get k d'
  end.

Fixpoint dict_set {V : Type} (k : typ) (v : V) (d : list (typ * V)) : list (typ * V) :=
  match d with
  | [] => [(k, v)]
  | (k', v') :: d' => if typ_eqb k k' then (k', v) :: d' else (k', v') :: dict_set k v d'
  end.

(** *** [_LocalStack] (one thread: [threading.local] gives each thread its
    own [stack]) *)

Definition push (value : SchemaContext) : M unit :=
  fun s => Ok tt (set_stack (value :: stack s) s).

(** [self.stack.pop()]: [IndexError] on an empty list. *)
Definition pop : M unit :=
  fun s => match stack s with
           | [] => Raise IndexError s
           | _ :: st => Ok tt (set_stack st s)
           end.

(** [self.stack[-1]] *)
Definition top : M SchemaContext :=
  fun s => match stack s with
           | [] => Raise IndexError s
           | c :: _ => Ok c s
           end.

(** [schema_ctx.seen_classes[clazz] = class_name] on the context object at
    the top of the stack: contexts are shared objects, the write is seen by
    whoever reads the top of the stack afterwards. *)
Definition register_seen (clazz : typ) (class_name : string) : M unit :=
  fun s => match stack s with
           | [] => Raise IndexError s
           | c :: st =>
               let c' := mkCtx (dict_set clazz class_name (seen_classes c))
                               (globalns c) (localns c) in
               Ok tt (set_stack (c' :: st) s)
           end.

(** [_SchemaContext(globalns, localns)] with [__enter__] and [__exit__]. *)
Definition new_SchemaContext (g l : option nat) : SchemaContext := mkCtx [] g l.
Definition SchemaContext_enter (g l : option nat) : M unit :=
  push (new_SchemaContext g l).
Definition SchemaContext_exit : M unit := pop.

(** *** [functools.lru_cache] *)

Definition MAX_CLASS_SCHEMA_CACHE_SIZE : nat := 1024.

Fixpoint cache_get (k : cache_key) (c : list (cache_key * nat)) : option nat :=
  match c with
  | [] => None
  | (k', v) :: c' => if key_eqb k k' then Some v else cache_get k c'
  end.

Definition cache_remove (k : cache_key) (c : list (cache_key * nat))
  : list (cache_key * nat) :=
  filter (fun e => negb (key_eqb k (fst e))) c.

(** The wrapper that [lru_cache(maxsize)] puts around a function of two
    positional arguments. A hit returns the stored result and makes the
    entry the most recent one. A miss calls the function; afterwards, if
    the key was stored meanwhile (by a nested call) nothing is stored,
    otherwise the result is stored as most recent and, when the cache was
    full, the least recently used entry is dropped. A call that raises
    stores nothing. *)
Definition lru_cache (maxsize : nat) (f : typ -> base -> M nat)
  : typ -> base -> M nat :=
  fun clazz base_schema s =>
    let key := (clazz, base_schema) in
    match cache_get key (cache s) with
    | Some result =>
        Ok result (set_cache ((key, result) :: cache_remove key (cache s)) s)
    | None =>
        match f clazz base_schema s with
        | Ok result s' =>
            match cache_get key (cache s') with
            | Some _ => Ok result s'
            | None =>
                Ok result (set_cache (firstn maxsize ((key, result) :: cache s')) s')
            end
        | Raise e s' => Raise e s'
        | Diverge => Diverge
        end
    end.

(** ** Helpers of [typing] and [typing_inspect] *)

(** [get_args]; of an [Annotated] hint only the type is kept, the
    annotations are no types. *)
Definition get_args (t : typ) : list typ :=
  match t with
  | TContainer _ args | TUnion args | TFinal args | TAlias _ args => args
  | TAnnotated t' _ => [t']
  | _ => []
  end.

Definition is_union_type (t : typ) : bool :=
  match t with TUnion _ => true | _ => false end.

Definition is_NoneType (t : typ) : bool :=
  match t with TNoneType => true | _ => false end.

(** [typing_inspect.is_optional_type]: [NoneType] itself, or a union one
    of whose members is optional. *)
Fixpoint is_optional_type (t : typ) : bool :=
  match t with
  | TNoneType => true
  | TUnion args => existsb is_optional_type args
  | _ => false
  end.

(** [get_origin] on the hints the container dispatch looks at: a
    subscripted container, or one of [typing]'s container aliases written
    without arguments (they carry their origin; the builtin classes and
    the [collections.abc] classes have none). *)
Definition get_origin (t : typ) : option origin :=
  match t with
  | TContainer o _ => Some o
  | TBare b_List => Some o_list
  | TBare b_Tuple => Some o_tuple
  | TBare b_FrozenSet => Some o_frozenset
  | TBare b_Set => Some o_set
  | TBare b_Sequence => Some o_Sequence
  | TBare b_Dict => Some o_dict
  | TBare b_Mapping => Some o_Mapping
  | _ => None
  end.

(** [type(default)] for a default that is not callable. *)
Definition type_of (v : pyval) : typ :=
  match v with
  | VNone => TNoneType
  | VBool _ => TClass "bool"
  | VInt _ => TClass "int"
  | VStr _ => TClass "str"
  | VCallable _ => TClass "function"
  end.

Definition callable (v : pyval) : bool :=
  match v with VCallable _ => true | _ => false end.

(** Truth value of a string. *)
Definition nonempty (s : string) : bool :=
  match s with EmptyString => false | _ => true end.

(** ** The decorator side *)

Definition generic_alias_message : string :=
  "decorator does not support generic aliases (hint: use class_schema directly instead)".

(** [_check_decorated_type]; [is_generic_alias] belongs to
    [generic_resolver] and is taken as given. *)
Definition _check_decorated_type (isinstance_type is_generic_alias : typ -> bool)
    (repr : typ -> string) (cls : typ) : M unit :=
  if negb (isinstance_type cls) then raise (TypeError ("expected a class not " ++ repr cls))
  else if is_generic_alias cls then raise (TypeError generic_alias_message)
  else ret tt.

(** What the decorator stores under the attribute [Schema]. *)
Inductive installed : Type :=
| Lazy_class_attribute (base_schema : base) (frame : option nat)
| Lazy_generic_schema (base_schema : base) (frame : option nat).

(** The inner [decorator] of [add_schema]; [callers_frame] is
    [_maybe_get_callers_frame]. *)
Definition add_schema (isinstance_type is_generic_alias is_generic_type : typ -> bool)
    (repr : typ -> string) (callers_frame : typ -> option nat)
    (clazz : typ) (base_schema : base) (cls_frame : option nat) : M installed :=
  _check_decorated_type isinstance_type is_generic_alias repr clazz ;;;
  let frame := match cls_frame with
               | Some f => Some f
               | None => callers_frame clazz
               end in
  if negb (is_generic_type clazz) then ret (Lazy_class_attribute base_schema frame)
  else ret (Lazy_generic_schema base_schema frame).

(** The inner [decorator] of [dataclass]: [dc] is [dataclasses.dataclass]
    with the chosen flags. *)
Definition dataclass (isinstance_type is_generic_alias is_generic_type : typ -> bool)
    (repr : typ -> string) (callers_frame : typ -> option nat) (dc : typ -> M typ)
    (cls : typ) (base_schema : base) (cls_frame : option nat) : M installed :=
  _check_decorated_type isinstance_type is_generic_alias repr cls ;;;
  cls' <- dc cls ;;
  add_schema isinstance_type is_generic_alias is_generic_type repr callers_frame
             cls' base_schema cls_frame.

(** [LazyGenericSchema.__call__]: what [.Schema()] runs. *)
Definition LazyGenericSchema_call (self : nat) : M nat :=
  raise (TypeError generic_alias_message).

(** [LazyGenericSchema.__get__(instance, cls)]: the accessor itself when
    read on the class, an error when read on an instance. *)
Definition LazyGenericSchema_get (self : nat) (instance cls : option typ) : M nat :=
  match instance, cls with
  | None, Some _ => ret self
  | _, _ => raise (TypeError generic_alias_message)
  end.

(** ** The field synthesizer *)

(** [_container_type_add_any] *)
Definition _container_type_add_any (t : typ) : typ :=
  match t with
  | TBare b_list | TBare b_List => TContainer o_list [TAny]
  | TBare b_dict | TBare b_Dict => TContainer o_dict [TAny; TAny]
  | TBare b_Mapping => TContainer o_Mapping [TAny; TAny]
  | TBare b_Sequence => TContainer o_Sequence [TAny]
  | TBare b_set | TBare b_Set => TContainer o_set [TAny]
  | TBare b_frozenset | TBare b_FrozenSet => TContainer o_frozenset [TAny]
  | _ => t
  end.

(** [typ in CONTAINER_TYPES] *)
Definition in_CONTAINER_TYPES (t : typ) : bool :=
  match t with TBare _ => true | _ => false end.

(** [_get_field_default] *)
Definition _get_field_default (f : dc_field) : option pyval :=
  match f_default_factory f with
  | Some factory => Some (VCallable factory)
  | None => f_default f
  end.

(** [arguments[i]] *)
Definition arg_at (arguments : list typ) (i : nat) : M typ :=
  match nth_error arguments i with
  | Some t => ret t
  | None => raise IndexError
  end.

Definition warn (msg : string) : M unit :=
  fun s => Ok tt (set_warnings (warnings s ++ [msg]) s).

(** [{**a, **b}]: the entries of [b] win. *)
Definition or_else {A : Type} (x y : option A) : option A :=
  match x with Some _ => x | None => y end.
Definition md_merge (a b : metadata) : metadata :=
  mkMeta (or_else (md_required b) (md_required a))
         (or_else (md_allow_none b) (md_allow_none a))
         (or_else (md_dump_default b) (md_dump_default a))
         (or_else (md_load_default b) (md_load_default a))
         (or_else (md_marshmallow_field b) (md_marshmallow_field a))
         (or_else (md_validate b) (md_validate a))
         (or_else (md_description b) (md_description a)).

(** The validators one dictionary contributes in [_field_by_supertype]. *)
Definition validators_of (m : metadata) : list nat :=
  match md_validate m with
  | Some (V_many vs) => vs
  | Some (V_one v) => [v]
  | _ => []
  end.

(** ** Calling a field class

    The field classes that the synthesizer calls derive from marshmallow's
    [Field], whose [__init__] refuses the options of a required field that
    come with a [load_default]. *)
Definition required_with_load_default : exn :=
  OtherError "ValueError: 'load_default' must not be set for required fields.".

(** [required is True and load_default is not missing_] *)
Definition refuses (md : metadata) : bool :=
  match md_required md, md_load_default md with
  | Some true, Some _ => true
  | _, _ => false
  end.

Definition Field_init (md : metadata) : M unit :=
  if refuses md then raise required_with_load_default else ret tt.

(** [cls(..., **metadata)]: the field [f] once [Field.__init__] has taken
    the options. *)
Definition construct (f : field) (md : metadata) : M field :=
  Field_init md ;;; ret f.

(** [List.__init__] of marshmallow on something that is no field: this is
    what a list field class does with a tuple of fields. *)
Definition list_elements_error : exn :=
  OtherError "ValueError: The list elements must be a subclass or instance of marshmallow.base.FieldABC.".

(** The three functions that call each other, as seen from a body: each
    call made by a body goes through this record. *)
Record recs : Type := mkRecs {
  r_field_for_schema : typ -> option pyval -> metadata -> base -> M field;
  r_internal_class_schema : typ -> base -> M nat;
  r_class_schema : typ -> base -> option nat -> M nat
}.

Section Compiler.

Variable E : env.

Definition is_dataclass (s : state) (t : typ) : bool :=
  e_is_dataclass E t || existsb (typ_eqb t) (converted s).

(** [dataclasses.dataclass(clazz)]: the class is changed in place and
    returned, or the call raises. *)
Definition dataclasses_dataclass (clazz : typ) : M typ :=
  fun s => match e_dataclass E clazz with
           | Some e => Raise e s
           | None => Ok clazz (set_converted (clazz :: converted s) s)
           end.

(** [dataclasses.fields(clazz)] *)
Definition dataclasses_fields (clazz : typ) : M (list dc_field) :=
  fun s => if is_dataclass s clazz then Ok (e_fields E clazz) s
           else Raise (TypeError "must be called with a dataclass type or instance") s.

Definition lift {A : Type} (r : exn + A) : M A :=
  match r with inl e => raise e | inr a => ret a end.

(** [_dataclass_fields] *)
Definition _dataclass_fields (clazz : typ) : M (list dc_field) :=
  if negb (e_is_generic_type E clazz) then dataclasses_fields clazz
  else fun s => lift (e_generic_fields E (is_dataclass s clazz) clazz) s.

(** [is_generic_alias_of_dataclass]; the origin of an alias [G[...]] is
    the class [G]. *)
Definition is_generic_alias_of_dataclass (s : state) (clazz : typ) : bool :=
  e_is_generic_alias E clazz &&
  match clazz with
  | TAlias c _ => is_dataclass s (TClass c)
  | _ => false
  end.

(** [_field_by_type] *)
Definition _field_by_type (t : typ) (base_schema : base) : option string :=
  or_else (match base_schema with
           | Some b => e_base_TYPE_MAPPING E b t
           | None => None
           end)
          (e_TYPE_MAPPING E t).

(** [type_mapping.get(k, dflt)] where
    [type_mapping = base_schema.TYPE_MAPPING if base_schema else {}]. *)
Definition type_mapping_get (base_schema : base) (k : bare) (dflt : string) : string :=
  match base_schema with
  | Some b => get_or (e_base_TYPE_MAPPING E b (TBare k)) dflt
  | None => dflt
  end.

(** [type_mapping.get(k)] *)
Definition type_mapping_find (base_schema : base) (k : bare) : option string :=
  match base_schema with
  | Some b => e_base_TYPE_MAPPING E b (TBare k)
  | None => None
  end.

Variable r : recs.

(** [_field_for_schema(t, base_schema=base_schema)] *)
Definition child_field (base_schema : base) (t : typ) : M field :=
  r_field_for_schema r t None empty_md base_schema.

(** [return cls(..., **metadata)] in a helper whose result is optional. *)
Definition found (f : field) (md : metadata) : M (option field) :=
  f' <- construct f md ;; ret (Some f').

(** [tuple_type(children, **metadata)]. The class is looked up under
    [tuple] and, when that gives [Raw], under [typing.List]; a class kept
    under [typing.List] is a list field class (the list branch calls it on
    one field and casts it to [marshmallow.fields.List]), and such a class
    refuses a tuple of fields. *)
Definition tuple_field (base_schema : base) (children : list field) (md : metadata)
  : M (option field) :=
  let tuple_type := type_mapping_get base_schema b_tuple "Raw" in
  if String.eqb tuple_type "Raw" then
    match type_mapping_find base_schema b_List with
    | Some _ => Field_init md ;;; raise list_elements_error
    | None => found (F_Tuple "Tuple" children md) md
    end
  else found (F_Tuple tuple_type children md) md.

(** [_field_for_container_type]; [None] when the hint is not a container. *)
Definition _field_for_container_type (t : typ) (base_schema : base)
    (md : metadata) : M (option field) :=
  let arguments := get_args t in
  match get_origin t with
  | None => ret None
  | Some o =>
      match o with
      | o_list =>
          a0 <- arg_at arguments 0 ;;
          child_type <- child_field base_schema a0 ;;
          let list_type := type_mapping_get base_schema b_list "Raw" in
          let list_type :=
            if String.eqb list_type "Raw"
            then type_mapping_get base_schema b_List "List" else list_type in
          found (F_List list_type child_type md) md
      | o_Sequence =>
          a0 <- arg_at arguments 0 ;;
          child_type <- child_field base_schema a0 ;;
          found (F_Sequence child_type md) md
      | o_tuple =>
          match arguments with
          | [a0; TEllipsis] =>
              child_type <- child_field base_schema a0 ;;
              found (F_Sequence child_type md) md
          | _ =>
              children <- mapM (child_field base_schema) arguments ;;
              tuple_field base_schema children md
          end
      | o_set =>
          a0 <- arg_at arguments 0 ;;
          child_type <- child_field base_schema a0 ;;
          found (F_Set child_type false md) md
      | o_frozenset =>
          a0 <- arg_at arguments 0 ;;
          child_type <- child_field base_schema a0 ;;
          found (F_Set child_type true md) md
      | o_dict | o_Mapping =>
          let dict_type :=
            type_mapping_get base_schema b_Dict
              (type_mapping_get base_schema b_dict
                 (type_mapping_get base_schema b_abc_Mapping
                    (type_mapping_get base_schema b_Mapping "Dict"))) in
          a0 <- arg_at arguments 0 ;;
          keys <- child_field base_schema a0 ;;
          a1 <- arg_at arguments 1 ;;
          values <- child_field base_schema a1 ;;
          found (F_Dict dict_type keys values md) md
      end
  end.

(** [_field_for_annotated_type] *)
Definition is_marshmallow_annotation (a : nat) : bool :=
  match e_annotation E a with
  | Ann_other => false
  | _ => true
  end.

Definition _field_for_annotated_type (t : typ) (md : metadata) : M (option field) :=
  match t with
  | TAnnotated _ anns =>
      let marshmallow_annotations := filter is_marshmallow_annotation anns in
      match rev marshmallow_annotations with
      | [] => ret None
      | fld :: others =>
          (match others with
           | [] => ret tt
           | _ => warn "Multiple marshmallow Field annotations found. Using the last one."
           end) ;;;
          match e_annotation E fld with
          | Ann_field_instance => ret (Some (F_ann_instance fld))
          | _ => found (F_ann_call fld md) md
          end
      end
  | _ => ret None
  end.

(** [_field_for_union_type] *)
Definition optional_metadata (md : metadata) : metadata :=
  let md := set_allow_none (Some (get_or (md_allow_none md) true)) md in
  let md := set_dump_default (Some (get_or (md_dump_default md) VNone)) md in
  let md := if negb (truthy_required md)
            then set_load_default (Some (get_or (md_load_default md) VNone)) md
            else md in
  set_required (setdefault (md_required md) false) md.

Definition _field_for_union_type (t : typ) (base_schema : base)
    (md : metadata) : M (option field) :=
  let arguments := get_args t in
  if is_union_type t then
    let md := if is_optional_type t then optional_metadata md else md in
    let subtypes := filter (fun a => negb (is_NoneType a)) arguments in
    match subtypes with
    | [subtyp] =>
        f <- r_field_for_schema r subtyp None md base_schema ;;
        ret (Some f)
    | _ =>
        alts <- mapM (fun subtyp =>
                        f <- r_field_for_schema r subtyp None required_md base_schema ;;
                        ret (subtyp, f)) subtypes ;;
        found (F_Union alts md) md
    end
  else ret None.

(** [_field_by_supertype] *)
Definition _field_by_supertype (name : string) (default : option pyval)
    (newtype_supertype : typ) (md : metadata) (base_schema : base) : M field :=
  let typ_args := e_marshmallow_args E name in
  let new_validators := (validators_of typ_args ++ validators_of md)%list in
  let md := set_validate (Some (match new_validators with
                                | [] => V_null
                                | _ => V_many new_validators
                                end)) md in
  let md := md_merge typ_args md in
  let md := set_description (setdefault (md_description md) name) md in
  if e_marshmallow_field E name then construct (F_newtype name md) md
  else r_field_for_schema r newtype_supertype default md base_schema.

(** [LazyGenericSchema]'s private dictionary, one per instance. *)
Fixpoint args_get (args : list typ) (d : list (list typ * nat)) : option nat :=
  match d with
  | [] => None
  | (a, v) :: d' => if list_eqb typ_eqb args a then Some v else args_get args d'
  end.

Fixpoint args_set (args : list typ) (v : nat) (d : list (list typ * nat))
  : list (list typ * nat) :=
  match d with
  | [] => [(args, v)]
  | (a, v') :: d' =>
      if list_eqb typ_eqb args a then (a, v) :: d' else (a, v') :: args_set args v d'
  end.

Fixpoint memo_dict (l : nat) (m : list (nat * list (list typ * nat)))
  : list (list typ * nat) :=
  match m with
  | [] => []
  | (l', d) :: m' => if Nat.eqb l l' then d else memo_dict l m'
  end.

Fixpoint memo_put (l : nat) (d : list (list typ * nat))
    (m : list (nat * list (list typ * nat))) : list (nat * list (list typ * nat)) :=
  match m with
  | [] => [(l, d)]
  | (l', d') :: m' => if Nat.eqb l l' then (l', d) :: m' else (l', d') :: memo_put l d m'
  end.

(** [LazyGenericSchema.get_schema] *)
Definition get_schema (self : nat) (instance : typ) : M nat :=
  fun s =>
    let instance_args := get_args instance in
    match args_get instance_args (memo_dict self (memos s)) with
    | Some schema => Ok schema s
    | None =>
        match r_class_schema r instance (e_lazy_base E self) (e_lazy_frame E self) s with
        | Ok schema s' =>
            Ok schema
               (set_memos (memo_put self
                             (args_set instance_args schema (memo_dict self (memos s')))
                             (memos s')) s')
        | Raise e s' => Raise e s'
        | Diverge => Diverge
        end
    end.

(** The last step of [_field_for_schema]: what [Nested] is given. *)
Definition nested_of (t : typ) (base_schema : base) : M nested_ref :=
  match e_Schema E t with
  | A_lazy_generic l => a <- get_schema l t ;; ret (N_schema a)
  | A_value v => ret (N_attr v)
  | A_none =>
      match (match t with
             | TForwardRef arg => if nonempty arg then Some arg else None
             | _ => None
             end) with
      | Some arg => ret (N_name arg)
      | None =>
          c <- top ;;
          match dict_get t (seen_classes c) with
          | Some name =>
              if nonempty name then ret (N_name name)
              else a <- r_internal_class_schema r t base_schema ;; ret (N_schema a)
          | None => a <- r_internal_class_schema r t base_schema ;; ret (N_schema a)
          end
      end
  end.

(** The options after the defaults of [_field_for_schema] are filled in. *)
Definition default_metadata (t : typ) (default : option pyval) (md : metadata)
  : metadata :=
  match default with
  | Some d =>
      let md := set_dump_default (setdefault (md_dump_default md) d) md in
      if negb (truthy_required md)
      then set_load_default (setdefault (md_load_default md) d) md
      else md
  | None => set_required (setdefault (md_required md) (negb (is_optional_type t))) md
  end.

(** [_field_for_schema], from the container dispatch on. *)
Definition field_after_final (t : typ) (default : option pyval) (md : metadata)
    (base_schema : base) : M field :=
  annotated_field <- _field_for_annotated_type t md ;;
  match annotated_field with
  | Some f => ret f
  | None =>
      union_field <- _field_for_union_type t base_schema md ;;
      match union_field with
      | Some f => ret f
      | None =>
          container_field <- _field_for_container_type t base_schema md ;;
          match container_field with
          | Some f => ret f
          | None =>
              match (match t with
                     | TNewType name =>
                         match e_supertype E name with
                         | Some st => Some (name, st)
                         | None => None
                         end
                     | _ => None
                     end) with
              | Some (name, newtype_supertype) =>
                  _field_by_supertype name default newtype_supertype md base_schema
              | None =>
                  if e_is_enum E t then construct (F_Enum t md) md
                  else nested <- nested_of t base_schema ;;
                       construct (F_Nested nested md) md
              end
          end
      end
  end.

(** [_field_for_schema] *)
Definition _field_for_schema (t : typ) (default : option pyval) (md : metadata)
    (base_schema : base) : M field :=
  match t with
  | TVar name =>
      raise (UnboundTypeVarError ("can not resolve type variable " ++ name))
  | _ =>
      let md := default_metadata t default md in
      match md_marshmallow_field md with
      | Some predefined_field => ret (F_user predefined_field)
      | None =>
          let t := _container_type_add_any t in
          match (if negb (in_CONTAINER_TYPES t)
                 then _field_by_type t base_schema else None) with
          | Some fld => construct (F_mapped fld md) md
          | None =>
              match t with
              | TAny =>
                  let md := set_allow_none (setdefault (md_allow_none md) true) md in
                  construct (F_Raw None md) md
              | TLiteral arguments =>
                  match md_validate md with
                  | Some _ =>
                      raise (TypeError "got multiple values for keyword argument 'validate'")
                  | None =>
                      construct (F_Raw (Some (match arguments with
                                              | [a] => Equal a
                                              | _ => OneOf arguments
                                              end)) md) md
                  end
              | TFinal arguments =>
                  subtyp <-
                    match arguments with
                    | a :: _ => ret a
                    | [] =>
                        match default with
                        | Some d =>
                            if callable d
                            then warn "Final with a default factory: falling back to Any" ;;; ret TAny
                            else warn "Final with a default: type inferred from the default" ;;;
                                 ret (type_of d)
                        | None => ret TAny
                        end
                    end ;;
                  r_field_for_schema r subtyp default md base_schema
              | _ => field_after_final t default md base_schema
              end
          end
      end
  end.

Definition not_a_dataclass_message (name : string) : string :=
  name ++ " is not a dataclass and cannot be turned into one.".

Definition conversion_warning : string :=
  "marshmallow_dataclass was called on a class which is not a dataclass".

(** [type_hints[field.name]] *)
Fixpoint hint_of (name : string) (type_hints : list (string * typ)) : M typ :=
  match type_hints with
  | [] => raise (KeyError name)
  | (n, t) :: rest => if String.eqb name n then ret t else hint_of name rest
  end.

(** The part of [_internal_class_schema] after the field list is known:
    members, type hints, one field per dataclass field that is kept, and
    the new schema class. The members are read from the class table:
    [inspect.getmembers] reads every attribute of the class, which has no
    effect unless the class still carries a [lazy_class_attribute] (see
    [schema_attr]). *)
Definition build_schema (clazz : typ) (base_schema : base) (schema_ctx : SchemaContext)
    (class_name : string) (fields : list dc_field) : M nat :=
  let attributes := e_members E clazz in
  let include_non_init := e_include_non_init E clazz in
  type_hints <-
    (if negb (e_is_generic_type E clazz)
     then lift (e_type_hints E clazz (globalns schema_ctx) (localns schema_ctx))
     else ret []) ;;
  new_fields <-
    mapM (fun fld =>
            t <- (if negb (e_is_generic_type E clazz)
                  then hint_of (f_name fld) type_hints
                  else lift (e_resolve_forward E (f_type fld)
                               (globalns schema_ctx) (localns schema_ctx))) ;;
            f <- r_field_for_schema r t (_get_field_default fld) (f_metadata fld)
                   base_schema ;;
            ret (f_name fld, f))
         (filter (fun fld => f_init fld || include_non_init) fields) ;;
  fun s =>
    Ok (length (heap s))
       (set_heap (heap s ++ [mkSchema class_name clazz base_schema attributes new_fields]) s).

(** The inner [try] block of [_internal_class_schema]: warn, convert the
    class, compile again. *)
Definition convert_and_retry (clazz : typ) (base_schema : base) : M nat :=
  warn conversion_warning ;;;
  created_dataclass <- dataclasses_dataclass clazz ;;
  r_internal_class_schema r created_dataclass base_schema.

(** Its handlers: [except UnboundTypeVarError: raise], then
    [except Exception as exc: raise TypeError(...) from exc]. *)
Definition retry_handlers (clazz : typ) (exc : exn) : M nat :=
  if isinstance_UnboundTypeVarError exc then raise exc
  else raise (TypeError (not_a_dataclass_message (e_name E clazz))).

(** [_internal_class_schema] from its first [try] on: reflect the fields,
    on a [TypeError] convert and retry, else build the schema class. *)
Definition reflect_and_build (clazz : typ) (base_schema : base)
    (schema_ctx : SchemaContext) (class_name : string) : M nat :=
  fun s =>
    match _dataclass_fields clazz s with
    | Ok fields s1 => build_schema clazz base_schema schema_ctx class_name fields s1
    | Raise e s1 =>
        if isinstance_UnboundTypeVarError e then Raise e s1
        else if isinstance_TypeError e then
          try_except (convert_and_retry clazz base_schema) (retry_handlers clazz) s1
        else Raise e s1
    | Diverge => Diverge
    end.

(** The body of [_internal_class_schema] (the function under the cache),
    as Python 3.10 and later run it: [class_name] is
    [getattr(clazz, "__name__", repr(clazz))]. *)
Definition _internal_class_schema_body (clazz : typ) (base_schema : base) : M nat :=
  schema_ctx <- top ;;
  let class_name := e_name E clazz in
  register_seen clazz class_name ;;;
  reflect_and_build clazz base_schema schema_ctx class_name.

(** [class_schema] *)
Definition class_schema_body (clazz : typ) (base_schema : base)
    (clazz_frame globalns_ localns_ : option nat) : M nat :=
  clazz <- (fun s =>
              if negb (is_dataclass s clazz) && negb (is_generic_alias_of_dataclass s clazz)
              then dataclasses_dataclass clazz s
              else Ok clazz s) ;;
  let localns_ :=
    match localns_ with
    | Some l => Some l
    | None =>
        match (match clazz_frame with
               | Some f => Some f
               | None => e_callers_frame E clazz
               end) with
        | Some f => Some f
        | None => None
        end
    end in
  with_ (SchemaContext_enter globalns_ localns_) SchemaContext_exit
        (r_internal_class_schema r clazz base_schema).

(** [field_for_schema], the public entry of the synthesizer. *)
Definition field_for_schema_body (t : typ) (default : option pyval) (md : metadata)
    (base_schema : base) (typ_frame : option nat) : M field :=
  with_ (SchemaContext_enter None typ_frame) SchemaContext_exit
        (r_field_for_schema r t default md base_schema).

End Compiler.

(** ** Tying the knot

    Every call of [_field_for_schema], [_internal_class_schema] or
    [class_schema] made by a body uses up one unit of the budget [fuel];
    with no budget left the run is [Diverge]. *)
Fixpoint recs_at (E : env) (fuel : nat) : recs :=
  match fuel with
  | O => mkRecs (fun _ _ _ _ _ => Diverge) (fun _ _ _ => Diverge) (fun _ _ _ _ => Diverge)
  | S n =>
      let r := recs_at E n in
      mkRecs (_field_for_schema E r)
             (lru_cache MAX_CLASS_SCHEMA_CACHE_SIZE (_internal_class_schema_body E r))
             (fun clazz base_schema frame =>
                class_schema_body E r clazz base_schema frame None None)
  end.

Definition _internal_class_schema (E : env) (fuel : nat) : typ -> base -> M nat :=
  r_internal_class_schema (recs_at E fuel).

Definition class_schema (E : env) (fuel : nat)
    (clazz : typ) (base_schema : base) : M nat :=
  class_schema_body E (recs_at E fuel) clazz base_schema None None None.

Definition field_for_schema (E : env) (fuel : nat)
    (t : typ) (default : option pyval) (md : metadata) (base_schema : base) : M field :=
  field_for_schema_body (recs_at E fuel) t default md base_schema None.

(** ** Class tables for concrete runs *)

(** marshmallow's default [Schema.TYPE_MAPPING], on the classes used
    below. *)
Definition default_TYPE_MAPPING (t : typ) : option string :=
  match t with
  | TClass "str" => Some "String"
  | TClass "int" => Some "Integer"
  | TClass "float" => Some "Float"
  | TClass "bool" => Some "Boolean"
  | TBare b_list | TBare b_tuple | TBare b_set => Some "Raw"
  | _ => None
  end.

(** A declared class: its name, whether it is a dataclass, its fields, and
    what [dataclasses.dataclass] does when applied to it later. *)
Record class_decl : Type := mkClass {
  cd_name : string;
  cd_is_dataclass : bool;
  cd_fields : list dc_field;
  cd_dataclass : option exn
}.

Fixpoint find_class (n : string) (cs : list class_decl) : option class_decl :=
  match cs with
  | [] => None
  | c :: cs' => if String.eqb n (cd_name c) then Some c else find_class n cs'
  end.

Definition bare_name (b : bare) : string :=
  match b with
  | b_list => "list" | b_List => "List" | b_tuple => "tuple" | b_Tuple => "Tuple"
  | b_frozenset => "frozenset" | b_FrozenSet => "FrozenSet" | b_set => "set"
  | b_Set => "Set" | b_abc_Sequence => "Sequence" | b_Sequence => "Sequence"
  | b_dict => "dict" | b_Dict => "Dict" | b_abc_Mapping => "Mapping"
  | b_Mapping => "Mapping"
  end.

Definition immutable_type_error : exn :=
  TypeError "cannot set '__dataclass_params__' attribute of immutable type".

(** The class table of a program whose classes are [cs] (none of them
    generic), with [Schema] attributes [attrs], subscripted generic records
    with fields [generic_fields], and [LazyGenericSchema] instances created
    with base schema [lazy_base]. Classes not in [cs] are builtins, which
    [dataclasses.dataclass] cannot change; the classes of [collections.abc]
    are written in Python and are turned into dataclasses with no field. *)
Definition table (cs : list class_decl) (attrs : typ -> schema_attr)
    (generic_fields : typ -> exn + list dc_field) (lazy_base : nat -> base) : env :=
  mkEnv
    (fun t => match t with TClass _ => true | _ => false end)
    (fun t => match t with
              | TClass n => match find_class n cs with
                            | Some c => cd_is_dataclass c
                            | None => false
                            end
              | _ => false
              end)
    (fun t => match t with
              | TClass n => match find_class n cs with
                            | Some c => cd_fields c
                            | None => []
                            end
              | _ => []
              end)
    (fun t => match t with
              | TClass n => match find_class n cs with
                            | Some c => cd_dataclass c
                            | None => Some immutable_type_error
                            end
              | TBare b_abc_Sequence | TBare b_abc_Mapping => None
              | TBare _ => Some immutable_type_error
              | _ => Some (OtherError "AttributeError")
              end)
    (fun t => match t with TAlias _ _ => true | _ => false end)
    (fun t => match t with TAlias _ _ => true | _ => false end)
    (fun _ t => generic_fields t)
    (fun t _ _ => match t with
                  | TClass n => match find_class n cs with
                                | Some c => inr (map (fun f => (f_name f, f_type f)) (cd_fields c))
                                | None => inr []
                                end
                  | _ => inr []
                  end)
    (fun t _ _ => inr t)
    (fun t => match t with
              | TClass n | TAlias n _ | TNewType n => n
              | TBare b => bare_name b
              | _ => "repr"
              end)
    attrs
    (fun _ => [])
    (fun _ => false)
    (fun _ => false)
    default_TYPE_MAPPING
    (fun _ t => default_TYPE_MAPPING t)
    lazy_base
    (fun _ => None)
    (fun _ => None)
    (fun _ => None)
    (fun _ => false)
    (fun _ => empty_md)
    (fun _ => Ann_other).

Definition no_attrs (t : typ) : schema_attr := A_none.
Definition no_generics (t : typ) : exn + list dc_field :=
  inl (TypeError "not a generic dataclass").
Definition no_base (l : nat) : base := None.

(** [name: type], with no default and no option. *)
Definition plain_field (name : string) (t : typ) : dc_field :=
  mkField name t true None None empty_md.

Definition Optional (t : typ) : typ := TUnion [t; TNoneType].
Definition List_ (t : typ) : typ := TContainer o_list [t].

(** [Person] of the docstring of [class_schema]: a record that refers to
    itself through a list. *)
Definition Person : class_decl :=
  mkClass "Person" true
    [ mkField "name" (TClass "str") true (Some (VStr "Anonymous")) None empty_md;
      mkField "friends" (List_ (TClass "Person")) true None (Some 0) empty_md ]
    None.

Definition person_table : env := table [Person] no_attrs no_generics no_base.

(** [Base] of [test_unbound_type_var]: a dataclass with a field whose
    declared type is a bare type variable. *)
Definition Base : class_decl :=
  mkClass "Base" true [plain_field "answer" (TVar "T")] None.

(** A plain class (no dataclass) with such a field, and a dataclass that
    nests it. *)
Definition Plain : class_decl :=
  mkClass "Plain" false [plain_field "x" (TVar "T")] None.
Definition Outer : class_decl :=
  mkClass "Outer" true [plain_field "inner" (TClass "Plain")] None.

(** A plain class that [dataclasses.dataclass] refuses with a
    [ValueError] (a mutable default), and a dataclass that nests it. *)
Definition mutable_default_error : exn :=
  OtherError "ValueError: mutable default <class 'list'> for field x is not allowed".
Definition Bad : class_decl :=
  mkClass "Bad" false [] (Some mutable_default_error).
Definition Holder : class_decl :=
  mkClass "Holder" true [plain_field "bad" (TClass "Bad")] None.

Definition error_table : env :=
  table [Base; Plain; Outer; Bad; Holder] no_attrs no_generics no_base.

(** A state inside a [class_schema] call: one fresh context on the stack. *)
Definition in_context : state :=
  set_stack [new_SchemaContext None None] initial_state.

(** ** Nested generic records sharing one accessor

    [G] is a generic record decorated with the schema-attaching decorator;
    [H] derives from it without being decorated, so that [H[int].Schema]
    finds the accessor of [G]. The plain dataclass [R] has a field of type
    [G[int]], and [G[int]] refers to [H[int]] and back to [R]. *)
Definition R_decl : class_decl :=
  mkClass "R" true [plain_field "x" (TAlias "G" [TClass "int"])] None.
Definition G_decl : class_decl := mkClass "G" true [] None.
Definition H_decl : class_decl := mkClass "H" true [] None.

Definition shared_attrs (t : typ) : schema_attr :=
  match t with
  | TAlias "G" _ | TAlias "H" _ => A_lazy_generic 0
  | _ => A_none
  end.

Definition shared_generic_fields (t : typ) : exn + list dc_field :=
  match t with
  | TAlias "G" [TClass "int"] =>
      inr [plain_field "h" (TAlias "H" [TClass "int"]); plain_field "y" (TClass "R")]
  | TAlias "H" [TClass "int"] =>
      inr [plain_field "h" (TClass "int"); plain_field "y" (TClass "int")]
  | _ => inl (TypeError "not a generic dataclass")
  end.

Definition shared_table : env :=
  table [R_decl; G_decl; H_decl] shared_attrs shared_generic_fields no_base.

(** [Custom] of the docstring of [class_schema]. *)
Definition Custom : class_decl :=
  mkClass "Custom" true
    [mkField "name" (Optional (TClass "str")) true None None
       (set_allow_none (Some false) empty_md)]
    None.

Definition custom_table : env := table [Custom] no_attrs no_generics no_base.

(** [int(s)] on ASCII text: blanks around, a sign, and decimal digits with
    single underscores between them. *)
Definition is_blank (c : ascii) : bool :=
  let n := nat_of_ascii c in
  (Nat.leb 9 n && Nat.leb n 13) || (Nat.leb 28 n && Nat.leb n 32).

Fixpoint drop_blanks (l : list ascii) : list ascii :=
  match l with
  | c :: l' => if is_blank c then drop_blanks l' else l
  | [] => []
  end.

Fixpoint digits_value (acc : Z) (after_digit : bool) (l : list ascii) : option Z :=
  match l with
  | [] => if after_digit then Some acc else None
  | c :: l' =>
      let n := nat_of_ascii c in
      if Nat.leb 48 n && Nat.leb n 57
      then digits_value (acc * 10 + Z.of_nat (n - 48))%Z true l'
      else if Nat.eqb n 95 && after_digit then digits_value acc false l'
      else None
  end.

Definition int_of_text (s : string) : option Z :=
  let body := rev (drop_blanks (rev (drop_blanks (list_ascii_of_string s)))) in
  match body with
  | c :: digits =>
      if Nat.eqb (nat_of_ascii c) 45 then option_map Z.opp (digits_value 0 false digits)
      else if Nat.eqb (nat_of_ascii c) 43 then digits_value 0 false digits
      else digits_value 0 false body
  | [] => None
  end.

(** The texts in [Boolean.truthy] and [Boolean.falsy]. *)
Definition truthy_text : list string :=
  ["t"; "T"; "true"; "True"; "TRUE"; "on"; "On"; "ON"; "y"; "Y"; "yes"; "Yes"; "YES"; "1"].
Definition falsy_text : list string :=
  ["f"; "F"; "false"; "False"; "FALSE"; "off"; "Off"; "OFF"; "n"; "N"; "no"; "No"; "NO"; "0"].

(** [_deserialize] of marshmallow's [String], [Integer], [Boolean] and
    [Raw] on the values of [pyval]: [String] takes text only; [Integer]
    takes what [int] accepts and no boolean; [Boolean] takes the members
    of its two sets. No other field class is loaded with below. *)
Definition scalar_convert (cls : string) (v : pyval) : option pyval :=
  match cls, v with
  | "String", VStr _ => Some v
  | "Integer", VInt _ => Some v
  | "Integer", VStr s => option_map VInt (int_of_text s)
  | "Boolean", VBool _ => Some v
  | "Boolean", VInt z =>
      if Z.eqb z 1 then Some (VBool true)
      else if Z.eqb z 0 then Some (VBool false) else None
  | "Boolean", VStr s =>
      if existsb (String.eqb s) truthy_text then Some (VBool true)
      else if existsb (String.eqb s) falsy_text then Some (VBool false) else None
  | "Raw", _ => Some v
  | _, _ => None
  end.

(** A generic record [SimpleGeneric] with one field [data1: T], decorated
    (as in [test_generic_dataclass_cached]). *)
Definition SimpleGeneric : class_decl := mkClass "SimpleGeneric" true [] None.

Definition simple_attrs (t : typ) : schema_attr :=
  match t with
  | TAlias "SimpleGeneric" _ => A_lazy_generic 0
  | _ => A_none
  end.

Definition simple_generic_fields (t : typ) : exn + list dc_field :=
  match t with
  | TAlias "SimpleGeneric" [a] => inr [plain_field "data1" a]
  | _ => inl (UnboundTypeVarError "SimpleGeneric has unbound fields: data1")
  end.

Definition generic_table : env :=
  table [SimpleGeneric] simple_attrs simple_generic_fields no_base.

(** A decorated generic record [G] with one field [data: T], and a record
    [H] that derives from [G[T]] without being decorated and declares
    [data: int]: [H[A].Schema] finds the accessor stored on [G]. *)
Definition inherit_attrs (t : typ) : schema_attr :=
  match t with
  | TAlias "G" _ | TAlias "H" _ => A_lazy_generic 0
  | _ => A_none
  end.

Definition inherit_generic_fields (t : typ) : exn + list dc_field :=
  match t with
  | TAlias "G" [a] => inr [plain_field "data" a]
  | TAlias "H" [a] => inr [plain_field "data" (TClass "int")]
  | _ => inl (TypeError "not a generic dataclass")
  end.

Definition inherit_table : env :=
  table [G_decl; H_decl] inherit_attrs inherit_generic_fields no_base.

(** A generic record [Tree] with the fields [value: T] and
    [children: List[Tree[T]]], decorated with the schema-attaching
    decorator: [Tree[A].Schema] is the [LazyGenericSchema] stored on
    [Tree]. *)
Definition Tree : class_decl := mkClass "Tree" true [] None.

Definition tree_attrs (t : typ) : schema_attr :=
  match t with
  | TAlias "Tree" _ => A_lazy_generic 0
  | _ => A_none
  end.

Definition tree_generic_fields (t : typ) : exn + list dc_field :=
  match t with
  | TAlias "Tree" [a] =>
      inr [plain_field "value" a; plain_field "children" (List_ (TAlias "Tree" [a]))]
  | _ => inl (TypeError "not a generic dataclass")
  end.

Definition tree_table : env := table [Tree] tree_attrs tree_generic_fields no_base.

Definition Tree_int : typ := TAlias "Tree" [TClass "int"].

(** ** The call stack seen by the decorators

    [_maybe_get_callers_frame] reads the call stack of the interpreter. A
    frame is named by the namespace it runs in (its [f_locals], the number
    that [class_schema] takes as [localns]); the call stack is the list of
    the frames, the running one first, so that [f_back] is the rest of the
    list. The decorators are written once more, this time with the call
    stack they run on as their last argument: the first frame of that
    stack is the one of the function itself. *)
Module Frames.

(** [frame = frame.f_back], [n] times over; [None] is the [return None]
    taken when [frame] is [None] at the start of a round. *)
Fixpoint f_back (n : nat) (frame : list nat) : option (list nat) :=
  match n with
  | O => Some frame
  | S n' =>
      match frame with
      | [] => None
      | _ :: back => f_back n' back
      end
  end.

(** [_maybe_get_callers_frame(cls, stacklevel)], run on [stack]
    ([inspect.currentframe()] is its first frame); [module_dict cls] is
    [getattr(sys.modules.get(cls.__module__), "__dict__", None)]. *)
Definition _maybe_get_callers_frame (module_dict : typ -> option nat)
    (cls : typ) (stacklevel : nat) (stack : list nat) : option nat :=
  match f_back (stacklevel + 1) stack with
  | None => None
  | Some [] => None
  | Some (f_locals :: _) =>
      match module_dict cls with
      | Some globalns => if Nat.eqb f_locals globalns then None else Some f_locals
      | None => Some f_locals
      end
  end.

Section Decorators.

Variables isinstance_type is_generic_alias is_generic_type : typ -> bool.
Variable repr : typ -> string.
Variable module_dict : typ -> option nat.

(** The namespace of a new activation, given the stack it is called on. *)
Variable new_locals : list nat -> nat.

(** [dataclasses.dataclass] with the chosen flags. *)
Variable dc : typ -> M typ.

(** A call made by code that runs on [stack]: the callee runs in a frame
    of its own, whose [f_back] is the frame of the caller. *)
Definition call {A : Type} (callee : list nat -> A) (stack : list nat) : A :=
  callee (new_locals stack :: stack).

(** The inner [decorator] of [add_schema]. *)
Definition add_schema_decorator (base_schema : base) (cls_frame : option nat)
    (clazz : typ) (stacklevel : nat) (stack : list nat) : M installed :=
  _check_decorated_type isinstance_type is_generic_alias repr clazz ;;;
  let frame := match cls_frame with
               | Some f => Some f
               | None => call (_maybe_get_callers_frame module_dict clazz stacklevel) stack
               end in
  if negb (is_generic_type clazz) then ret (Lazy_class_attribute base_schema frame)
  else ret (Lazy_generic_schema base_schema frame).

(** [add_schema(_cls, base_schema, cls_frame, stacklevel)] with a class:
    [decorator(_cls, stacklevel=stacklevel + 1)]. *)
Definition add_schema (_cls : typ) (base_schema : base) (cls_frame : option nat)
    (stacklevel : nat) (stack : list nat) : M installed :=
  call (add_schema_decorator base_schema cls_frame _cls (stacklevel + 1)) stack.

(** [add_schema(base_schema=..., ...)] without a class returns
    [decorator], whose [stacklevel] defaults to the one of [add_schema];
    the caller then applies it to the class. *)
Definition add_schema_without_class (base_schema : base) (cls_frame : option nat)
    (stacklevel : nat) : typ -> list nat -> M installed :=
  fun clazz => add_schema_decorator base_schema cls_frame clazz stacklevel.

(** The inner [decorator] of [dataclass]. *)
Definition dataclass_decorator (base_schema : base) (cls_frame : option nat)
    (cls : typ) (stacklevel : nat) (stack : list nat) : M installed :=
  _check_decorated_type isinstance_type is_generic_alias repr cls ;;;
  cls' <- dc cls ;;
  call (add_schema cls' base_schema cls_frame (stacklevel + 1)) stack.

(** [dataclass(_cls, ..., stacklevel)] with a class:
    [decorator(_cls, stacklevel=stacklevel + 1)]. *)
Definition dataclass (_cls : typ) (base_schema : base) (cls_frame : option nat)
    (stacklevel : nat) (stack : list nat) : M installed :=
  call (dataclass_decorator base_schema cls_frame _cls (stacklevel + 1)) stack.

(** [dataclass(...)] without a class returns [decorator], whose
    [stacklevel] defaults to 1. *)
Definition dataclass_without_class (base_schema : base) (cls_frame : option nat)
    : typ -> list nat -> M installed :=
  fun cls => dataclass_decorator base_schema cls_frame cls 1.

(** The frame that [class_schema] takes the local namespace from. *)
Definition class_schema_frame (clazz : typ) (clazz_frame : option nat)
    (stack : list nat) : option nat :=
  match clazz_frame with
  | Some f => Some f
  | None => call (_maybe_get_callers_frame module_dict clazz 1) stack
  end.

End Decorators.

End Frames.

(** ** Declaring types *)

(** [NewType(name, typ, field, **kwargs)] declares a new type: the type
    named [name] gets [typ] as its [__supertype__], [field] as its
    [_marshmallow_field] (a field class is given or not) and [kwargs] as
    its [_marshmallow_args]. *)
Definition NewType (E : env) (name : string) (t : typ) (field : bool)
    (kwargs : metadata) : env :=
  mkEnv (e_isinstance_type E) (e_is_dataclass E) (e_fields E) (e_dataclass E)
        (e_is_generic_type E) (e_is_generic_alias E) (e_generic_fields E)
        (e_type_hints E) (e_resolve_forward E) (e_name E) (e_Schema E)
        (e_members E) (e_include_non_init E) (e_is_enum E) (e_TYPE_MAPPING E)
        (e_base_TYPE_MAPPING E) (e_lazy_base E) (e_lazy_frame E) (e_callers_frame E)
        (fun n => if String.eqb n name then Some t else e_supertype E n)
        (fun n => if String.eqb n name then field else e_marshmallow_field E n)
        (fun n => if String.eqb n name then kwargs else e_marshmallow_args E n)
        (e_annotation E).

(** A program whose base schemas carry the [TYPE_MAPPING] [m], and one
    whose [Annotated] arguments are of the kinds [k]. *)
Definition with_base_mapping (m : nat -> typ -> option string) (E : env) : env :=
  mkEnv (e_isinstance_type E) (e_is_dataclass E) (e_fields E) (e_dataclass E)
        (e_is_generic_type E) (e_is_generic_alias E) (e_generic_fields E)
        (e_type_hints E) (e_resolve_forward E) (e_name E) (e_Schema E)
        (e_members E) (e_include_non_init E) (e_is_enum E) (e_TYPE_MAPPING E)
        m (e_lazy_base E) (e_lazy_frame E) (e_callers_frame E)
        (e_supertype E) (e_marshmallow_field E) (e_marshmallow_args E)
        (e_annotation E).

Definition with_annotations (k : nat -> annotation_kind) (E : env) : env :=
  mkEnv (e_isinstance_type E) (e_is_dataclass E) (e_fields E) (e_dataclass E)
        (e_is_generic_type E) (e_is_generic_alias E) (e_generic_fields E)
        (e_type_hints E) (e_resolve_forward E) (e_name E) (e_Schema E)
        (e_members E) (e_include_non_init E) (e_is_enum E) (e_TYPE_MAPPING E)
        (e_base_TYPE_MAPPING E) (e_lazy_base E) (e_lazy_frame E) (e_callers_frame E)
        (e_supertype E) (e_marshmallow_field E) (e_marshmallow_args E)
        k.

(** [IPv4] of the docstring of [NewType], with a validator, and a field
    that brings two validators of its own. *)
Definition ipv4_table : env :=
  NewType person_table "IPv4" (TClass "str") false
          (set_validate (Some (V_one 7)) empty_md).

(** A new type over a [Literal]. *)
Definition mode_table : env :=
  NewType person_table "Mode" (TLiteral [VStr "r"; VStr "w"]) false empty_md.

(** A base schema (number 0) whose [TYPE_MAPPING] has an entry for
    [typing.List] besides marshmallow's own entries. *)
Definition list_mapping_table : env :=
  with_base_mapping
    (fun _ t => match t with
                | TBare b_List => Some "MyList"
                | _ => default_TYPE_MAPPING t
                end)
    person_table.

(** A record with [x: Optional[str]] and a record with [x: Union[int, str]],
    compiled with a base schema (number 0) whose [TYPE_MAPPING] has, besides
    marshmallow's entries, one for each of these two hints. *)
Definition Note : class_decl :=
  mkClass "Note" true [plain_field "x" (Optional (TClass "str"))] None.
Definition Either : class_decl :=
  mkClass "Either" true [plain_field "x" (TUnion [TClass "int"; TClass "str"])] None.

Definition note_table : env :=
  with_base_mapping
    (fun _ t => match t with
                | TUnion [TClass "str"; TNoneType] => Some "String"
                | TUnion [TClass "int"; TClass "str"] => Some "String"
                | _ => default_TYPE_MAPPING t
                end)
    (table [Note; Either] no_attrs no_generics no_base).

(** Annotation 1 is a field class, annotation 2 a field instance, the
    others are no marshmallow fields. *)
Definition annotated_table : env :=
  with_annotations
    (fun a => match a with
              | 1 => Ann_field_class
              | 2 => Ann_field_instance
              | _ => Ann_other
              end)
    person_table.

(** [Point] of the docstring of [dataclass], with a list of tags added. *)
Definition Point : class_decl :=
  mkClass "Point" true
    [ plain_field "x" (TClass "float"); plain_field "y" (TClass "float");
      mkField "tags" (List_ (TClass "str")) true None (Some 0) empty_md ]
    None.

Definition point_table : env := table [Point] no_attrs no_generics no_base.

(** ** Notions used in the statements *)

(** [post Q c]: whenever [c] comes to an end, by a result or by an
    exception, [Q] relates the state before to the state after. *)
Definition post_at (Q : state -> state -> Prop) {A : Type} (c : M A) (s : state)
  : Prop :=
  match c s with
  | Ok _ s' => Q s s'
  | Raise _ s' => Q s s'
  | Diverge => True
  end.

Definition post (Q : state -> state -> Prop) {A : Type} (c : M A) : Prop :=
  forall s, post_at Q c s.

(** The stack keeps its depth and everything below its top. *)
Definition same_below (s s' : state) : Prop :=
  length (stack s') = length (stack s) /\ tl (stack s') = tl (stack s).

(** A hint in which no union and no [Literal] occurs. Python counts the
    members of a union and the values of a [Literal] without their order;
    two hints without them are equal for Python, and one key of a
    dictionary, exactly when they are written alike. *)
Fixpoint written_in_order (t : typ) : bool :=
  match t with
  | TUnion _ | TLiteral _ => false
  | TContainer _ args | TFinal args | TAlias _ args => forallb written_in_order args
  | TAnnotated t' _ => written_in_order t'
  | _ => true
  end.

(** The six kinds that [_container_type_add_any] rewrites. *)
Definition add_any_covers (b : bare) : bool :=
  match b with
  | b_tuple | b_Tuple | b_abc_Sequence | b_abc_Mapping => false
  | _ => true
  end.

(** [R] is seen in the context at the top of the stack, under a name that
    counts as true. *)
Definition seen_at_top (R : typ) (name : string) (s : state) : Prop :=
  exists c st, stack s = c :: st /\ dict_get R (seen_classes c) = Some name /\
               nonempty name = true.

(** The hints of a record [R] whose fields are primitives, [R] itself, or
    [Optional] and [List] built on those; the number bounds the depth of
    the calls of [_field_for_schema] the hint needs. *)
Inductive self_hint (E : env) (b : base) (R : typ) : nat -> typ -> Prop :=
| sh_prim (c cls : string) :
    _field_by_type E (TClass c) b = Some cls -> self_hint E b R 1 (TClass c)
| sh_self : self_hint E b R 1 R
| sh_optional (k : nat) (t : typ) :
    self_hint E b R k t -> is_NoneType t = false -> self_hint E b R (S k) (Optional t)
| sh_list (k : nat) (t : typ) :
    self_hint E b R k t -> self_hint E b R (S k) (List_ t).

(** What makes a class [R = TClass n] a plain record for the compiler: a
    dataclass, not generic, no field class mapped to it, no enumeration, no
    [Schema] attribute, and a name. *)
Record plain_record (E : env) (b : base) (n : string) : Prop := mkPlain {
  pr_dataclass : e_is_dataclass E (TClass n) = true;
  pr_not_generic : e_is_generic_type E (TClass n) = false;
  pr_not_mapped : _field_by_type E (TClass n) b = None;
  pr_not_enum : e_is_enum E (TClass n) = false;
  pr_no_Schema : e_Schema E (TClass n) = A_none;
  pr_name : nonempty (e_name E (TClass n)) = true
}.

(** The fields of [R] that the compiler keeps, with their hints. *)
Definition kept_fields (E : env) (R : typ) : list dc_field :=
  filter (fun fld => f_init fld || e_include_non_init E R) (e_fields E R).

(** Options that no field class refuses, whatever the declared type: a
    [load_default] is given only to a field that is said not to be
    required, or that has a default and is not said to be required. *)
Definition options_fit (default : option pyval) (md : metadata) : bool :=
  match md_load_default md, md_required md, default with
  | None, _, _ => true
  | Some _, Some required, _ => negb required
  | Some _, None, Some _ => true
  | Some _, None, None => false
  end.

Definition self_referential (E : env) (b : base) (R : typ)
    (hints : list (string * typ)) (bound : nat) : Prop :=
  Forall (fun fld => exists k t,
            (forall s, hint_of (f_name fld) hints s = Ok t s) /\
            self_hint E b R k t /\ k <= bound /\
            options_fit (_get_field_default fld) (f_metadata fld) = true)
         (kept_fields E R).

(** ** Loading with the synthesized fields

    What marshmallow does with the options the synthesizer hands over
    ([Field.__init__], [Field.deserialize], [Schema.load]), on the values of
    [pyval]: scalars, so that a container or nested field never accepts. *)

(** [self.required] and [self.allow_none] of a field built with the
    options [md]: [allow_none], when not given, is true exactly when
    [load_default] is [None]. *)
Definition field_required (md : metadata) : bool := get_or (md_required md) false.

Definition field_allow_none (md : metadata) : bool :=
  match md_allow_none md with
  | Some a => a
  | None => match md_load_default md with
            | Some VNone => true
            | _ => false
            end
  end.

(** The outcome of [Field.deserialize]: a value, nothing (the key is left
    out of the result), or a validation error. *)
Inductive loaded : Type :=
| Value (v : pyval)
| Omitted
| Invalid (msg : string).

Definition missing_message : string := "Missing data for required field.".
Definition null_message : string := "Field may not be null.".

Section Load.

(** [_deserialize] of the field class named [cls], the validators, and the
    call of a default factory. *)
Variable convert : string -> pyval -> option pyval.
Variable validator : nat -> pyval -> bool.
Variable call : nat -> pyval.

Definition run_validators (md : metadata) (v : pyval) : loaded :=
  if forallb (fun n => validator n v) (validators_of md) then Value v
  else Invalid "Invalid value.".

Definition run_literal (lv : option literal_validator) (v : pyval) : bool :=
  match lv with
  | None => true
  | Some (Equal x) => pyval_eqb v x
  | Some (OneOf xs) => existsb (pyval_eqb v) xs
  end.

(** [Field.deserialize]: [_validate_missing], the default for a missing
    value, [None] when allowed, else the field's own [_deserialize]. *)
Definition deserialize (md : metadata) (inner : pyval -> loaded)
    (value : option pyval) : loaded :=
  match value with
  | None =>
      if field_required md then Invalid missing_message
      else match md_load_default md with
           | Some (VCallable factory) => Value (call factory)
           | Some d => Value d
           | None => Omitted
           end
  | Some VNone =>
      if field_allow_none md then Value VNone else Invalid null_message
  | Some v => inner v
  end.

(** Modelled from the spec: [union_field.Union] is not part of this file;
    it is "a tagged-union field trying each alternative in declared order",
    so its [_deserialize] returns what the first accepting alternative
    returns and fails when none accepts. *)
Fixpoint first_accepting (try_ : list (pyval -> loaded)) (v : pyval) : loaded :=
  match try_ with
  | [] => Invalid "Invalid value for every alternative."
  | t :: rest =>
      match t v with
      | Value r => Value r
      | _ => first_accepting rest v
      end
  end.

Fixpoint load_field (f : field) (value : option pyval) {struct f} : loaded :=
  match f with
  | F_mapped cls md =>
      deserialize md (fun v => match convert cls v with
                               | Some r => run_validators md r
                               | None => Invalid "Not a valid value."
                               end) value
  | F_Raw lv md =>
      deserialize md (fun v => if run_literal lv v then run_validators md v
                               else Invalid "Must be equal or one of the literals.")
                  value
  | F_Union alts md =>
      deserialize md
        (first_accepting
           ((fix each (l : list (typ * field)) : list (pyval -> loaded) :=
               match l with
               | [] => []
               | (_, alt) :: l' => (fun v => load_field alt (Some v)) :: each l'
               end) alts))
        value
  | F_List _ _ md | F_Sequence _ md | F_Set _ _ md | F_Tuple _ _ md
  | F_Dict _ _ _ md | F_Nested _ md | F_Enum _ md | F_ann_call _ md
  | F_newtype _ md =>
      deserialize md (fun _ => Invalid "Not a valid value.") value
  | F_user _ | F_ann_instance _ =>
      deserialize empty_md (fun _ => Invalid "Not a valid value.") value
  end.

(** [data.get(name, missing)] *)
Fixpoint data_get (name : string) (data : list (string * pyval)) : option pyval :=
  match data with
  | [] => None
  | (k, v) :: rest => if String.eqb name k then Some v else data_get name rest
  end.

(** [Schema.load] on a mapping whose keys are all fields: the errors by
    field, or the keyword arguments that [BaseSchema.load] gives to the
    constructor of the record. *)
Fixpoint Schema_load (fields : list (string * field)) (data : list (string * pyval))
  : list (string * string) + list (string * pyval) :=
  match fields with
  | [] => inr []
  | (name, f) :: rest =>
      match load_field f (data_get name data), Schema_load rest data with
      | Invalid msg, inl errs => inl ((name, msg) :: errs)
      | Invalid msg, inr _ => inl [(name, msg)]
      | _, inl errs => inl errs
      | Value v, inr kw => inr ((name, v) :: kw)
      | Omitted, inr kw => inr kw
      end
  end.

End Load.

(** What a load says of the key [name]. [loads_as name v]: no error is
    reported for [name], and when the load returns, the keyword arguments
    hold [v] under [name] and nothing else. [refused_with name msg]: the
    load fails, and what it reports for [name] is [msg]. *)
Definition loads_as (name : string) (v : pyval)
    (result : list (string * string) + list (string * pyval)) : Prop :=
  match result with
  | inl errs => forall msg, ~ In (name, msg) errs
  | inr kw => forall w, In (name, w) kw <-> w = v
  end.

Definition refused_with (name : string) (msg : string)
    (result : list (string * string) + list (string * pyval)) : Prop :=
  match result with
  | inl errs => forall m, In (name, m) errs <-> m = msg
  | inr _ => False
  end.

(** The options of a field that is not required, has [None] as load and
    dump default, and allows [None] unless [allow_none] says otherwise. *)
Definition optional_str_options (allow : option bool) : metadata :=
  mkMeta (Some false) (Some (get_or allow true)) (Some VNone) (Some VNone)
         None None None.

(** The options of a field marked nullable and optional: what is given
    stays; [allow_none] is true unless given; [required] is false unless
    given; the dump default is the given one, else the default of the
    dataclass field, else [None]; the load default likewise, but a field
    said to be required keeps only a load default that was given. *)
Definition nullable (default : option pyval) (md : metadata) : metadata :=
  mkMeta (Some (get_or (md_required md) false))
         (Some (get_or (md_allow_none md) true))
         (Some (get_or (md_dump_default md) (get_or default VNone)))
         (if truthy_required md then md_load_default md
          else Some (get_or (md_load_default md) (get_or default VNone)))
         (md_marshmallow_field md) (md_validate md) (md_description md).

Definition non_null (arguments : list typ) : list typ :=
  filter (fun a => negb (is_NoneType a)) arguments.

(** The options a union hands on: those of an optional type when [None]
    is among the alternatives. *)
Definition union_metadata (arguments : list typ) (md : metadata) : metadata :=
  if is_optional_type (TUnion arguments) then optional_metadata md else md.

(** The alternatives of a tagged union: each type with its own field,
    synthesized with [{"required": True}]. *)
Definition union_alternatives (r : recs) (base_schema : base) (subtypes : list typ)
  : M (list (typ * field)) :=
  mapM (fun subtyp =>
          f <- r_field_for_schema r subtyp None required_md base_schema ;;
          ret (subtyp, f)) subtypes.

Definition fields_at (s : state) (schema : nat) : list (string * field) :=
  match nth_error (heap s) schema with
  | Some sc => sc_fields sc
  | None => []
  end.

(** A relation on states that looks at the cache only. *)
Definition cache_rel (Rc : list (cache_key * nat) -> list (cache_key * nat) -> Prop)
    (s s' : state) : Prop :=
  Rc (cache s) (cache s').

Definition within_bound (c c' : list (cache_key * nat)) : Prop :=
  length c <= MAX_CLASS_SCHEMA_CACHE_SIZE -> length c' <= MAX_CLASS_SCHEMA_CACHE_SIZE.

(** [R] is registered at the top of the stack and nothing is stored under
    its key. *)
Definition pending (E : env) (R : typ) (B : base) (s : state) : Prop :=
  (exists c st, stack s = c :: st /\ dict_get R (seen_classes c) = Some (e_name E R)) /\
  cache_get (R, B) (cache s) = None.

(** A run that starts with [R] pending ends with [R] pending. *)
Definition keeps_pending (E : env) (R : typ) (B : base) (s s' : state) : Prop :=
  pending E R B s -> pending E R B s'.

(** One outcome is the other with more budget: it ran out, or it is the
    same. *)
Definition approx {A : Type} (o o' : outcome A) : Prop := o = Diverge \/ o = o'.

Definition approxM {A : Type} (c c' : M A) : Prop := forall s, approx (c s) (c' s).

(** [r'] does what [r] does wherever [r] comes to an end. *)
Record refines (r r' : recs) : Prop := mkRefines {
  ref_field : forall t d md b,
    approxM (r_field_for_schema r t d md b) (r_field_for_schema r' t d md b);
  ref_internal : forall t b,
    approxM (r_internal_class_schema r t b) (r_internal_class_schema r' t b);
  ref_class : forall t b f,
    approxM (r_class_schema r t b f) (r_class_schema r' t b f)
}.

(** [isinstance(typ, TypeVar)] *)
Definition is_TypeVar (t : typ) : bool :=
  match t with TVar _ => true | _ => false end.

(** Every option that [md] gives is in [md'] with the same value. *)
Definition extends (md md' : metadata) : Prop :=
  (forall v, md_required md = Some v -> md_required md' = Some v) /\
  (forall v, md_allow_none md = Some v -> md_allow_none md' = Some v) /\
  (forall v, md_dump_default md = Some v -> md_dump_default md' = Some v) /\
  (forall v, md_load_default md = Some v -> md_load_default md' = Some v) /\
  (forall v, md_marshmallow_field md = Some v -> md_marshmallow_field md' = Some v) /\
  (forall v, md_validate md = Some v -> md_validate md' = Some v) /\
  (forall v, md_description md = Some v -> md_description md' = Some v).

(** The options never ask for a required field with a [load_default],
    which marshmallow refuses. *)
Definition loadable_options (md : metadata) : Prop :=
  truthy_required md = true -> md_load_default md = None.

(** The frame the decorators are meant to keep for a class: the one of the
    code that applies the decorator, unless that code runs at the top
    level of the module of the class (its namespace is the module's). *)
Definition kept_frame (module_dict : typ -> option nat) (cls : typ) (caller : nat)
  : option nat :=
  match module_dict cls with
  | Some globalns => if Nat.eqb caller globalns then None else Some caller
  | None => Some caller
  end.

(** The base schema leaves the field class of a fixed-length tuple to
    marshmallow or names one under [tuple]: it has no entry under
    [typing.List], which would be called on the tuple. *)
Definition tuple_has_class (E : env) (b : base) : bool :=
  negb (String.eqb (type_mapping_get E b b_tuple "Raw") "Raw") ||
  match type_mapping_find E b b_List with
  | None => true
  | Some _ => false
  end.

(** The hints that need nothing but the hint itself: [Any], literals,
    classes that [_field_by_type] maps to a field class, and containers,
    unions and [Final[...]] over such hints, down to the depth [k] (the
    number of nested calls of [_field_for_schema] the hint may need). A
    union has [None] among its members or at least two others, as every
    union that [typing] builds has. *)
Fixpoint closed_hint (E : env) (b : base) (k : nat) (t : typ) {struct k} : bool :=
  match k with
  | O => false
  | S k' =>
      match t with
      | TAny | TLiteral _ => true
      | TClass _ =>
          match _field_by_type E t b with
          | Some _ => true
          | None => false
          end
      | TBare bb =>
          match bb with
          | b_tuple | b_abc_Sequence | b_abc_Mapping => false
          | b_Tuple => tuple_has_class E b
          | _ => closed_hint E b k' TAny
          end
      | TContainer o args =>
          match o, args with
          | o_tuple, [a; TEllipsis] => closed_hint E b k' a
          | o_tuple, _ => tuple_has_class E b && forallb (closed_hint E b k') args
          | (o_dict | o_Mapping), [K; V] => closed_hint E b k' K && closed_hint E b k' V
          | (o_list | o_Sequence | o_set | o_frozenset), [a] => closed_hint E b k' a
          | _, _ => false
          end
      | TUnion args =>
          (is_optional_type t || negb (Nat.eqb (length (non_null args)) 1))
          && forallb (closed_hint E b k') (non_null args)
      | TFinal (a :: _) => closed_hint E b k' a
      | _ => false
      end
  end.

(** A record whose kept fields all have hints that need nothing but the
    hint itself, to the depth [k], give no validators, and have options
    that no field class refuses. *)
Definition flat_record (E : env) (b : base) (R : typ) (hints : list (string * typ))
    (k : nat) : Prop :=
  Forall (fun fld => exists t,
            (forall s, hint_of (f_name fld) hints s = Ok t s) /\
            closed_hint E b k t = true /\
            md_validate (f_metadata fld) = None /\
            options_fit (_get_field_default fld) (f_metadata fld) = true)
         (kept_fields E R).

(** A run that starts with [R] seen at the top of the stack, under its own
    name, ends with [R] seen there. *)
Definition keeps_seen (E : env) (R : typ) (s s' : state) : Prop :=
  seen_at_top R (e_name E R) s -> seen_at_top R (e_name E R) s'.

(** ** Calls, and the calls they make

    How an exception travels is stated on the calls of the three functions
    that call each other. *)

Inductive call : Type :=
| Field_for_schema (t : typ) (default : option pyval) (md : metadata) (base_schema : base)
| Internal_class_schema (clazz : typ) (base_schema : base)
| Class_schema (clazz : typ) (base_schema : base) (clazz_frame : option nat).

(** The call [c], answered by [r] in the state [s], ends with the
    exception [e] and leaves the state [s']. *)
Definition raises (r : recs) (c : call) (s : state) (e : exn) (s' : state) : Prop :=
  match c with
  | Field_for_schema t d md b => r_field_for_schema r t d md b s = Raise e s'
  | Internal_class_schema t b => r_internal_class_schema r t b s = Raise e s'
  | Class_schema t b f => r_class_schema r t b f s = Raise e s'
  end.

(** [f] is run on the members of a list one after the other and returns
    each time; the run starts in the first state and ends in the second. *)
Inductive runs {A B : Type} (f : A -> M B) : list A -> state -> state -> Prop :=
| runs_nil (s : state) : runs f [] s s
| runs_cons (x : A) (l : list A) (s s1 s2 : state) (y : B) :
    f x s = Ok y s1 -> runs f l s1 s2 -> runs f (x :: l) s s2.

(** The state after [schema_ctx.seen_classes[clazz] = class_name]. *)
Definition registered (clazz : typ) (class_name : string) (ctx : SchemaContext)
    (below : list SchemaContext) (s : state) : state :=
  set_stack (mkCtx (dict_set clazz class_name (seen_classes ctx))
                   (globalns ctx) (localns ctx) :: below) s.

(** The state in which the retry after a conversion starts. *)
Definition converted_with_warning (clazz : typ) (s : state) : state :=
  let warned := set_warnings (warnings s ++ [conversion_warning]) s in
  set_converted (clazz :: converted warned) warned.

(** The options that [_field_by_supertype] hands to the supertype of the
    new type [name]. *)
Definition supertype_metadata (E : env) (name : string) (md : metadata) : metadata :=
  let typ_args := e_marshmallow_args E name in
  let new_validators := (validators_of typ_args ++ validators_of md)%list in
  let md := set_validate (Some (match new_validators with
                                | [] => V_null
                                | _ => V_many new_validators
                                end)) md in
  let md := md_merge typ_args md in
  set_description (setdefault (md_description md) name) md.

(** The type hints that [_internal_class_schema] works with, and what it
    does for one field of the dataclass. *)
Definition hints_of (E : env) (clazz : typ) (schema_ctx : SchemaContext)
  : M (list (string * typ)) :=
  if negb (e_is_generic_type E clazz)
  then lift (e_type_hints E clazz (globalns schema_ctx) (localns schema_ctx))
  else ret [].

Definition field_hint (E : env) (clazz : typ) (schema_ctx : SchemaContext)
    (type_hints : list (string * typ)) (fld : dc_field) : M typ :=
  if negb (e_is_generic_type E clazz)
  then hint_of (f_name fld) type_hints
  else lift (e_resolve_forward E (f_type fld) (globalns schema_ctx) (localns schema_ctx)).

Definition field_entry (E : env) (r : recs) (clazz : typ) (base_schema : base)
    (schema_ctx : SchemaContext) (type_hints : list (string * typ)) (fld : dc_field)
  : M (string * field) :=
  t <- field_hint E clazz schema_ctx type_hints fld ;;
  f <- r_field_for_schema r t (_get_field_default fld) (f_metadata fld) base_schema ;;
  ret (f_name fld, f).

(** [R] is a record with the fields [fields]: a dataclass that is not
    generic, or a generic one whose fields the resolver gives. *)
Definition record_fields (E : env) (R : typ) (fields : list dc_field) : Prop :=
  if e_is_generic_type E R
  then forall is_dc, e_generic_fields E is_dc R = inr fields
  else e_is_dataclass E R = true /\ e_fields E R = fields.

(** The declared type of the field [fld] of [R] as [_internal_class_schema]
    takes it in the context that [class_schema] pushes: the type hint of
    the class under the name of the field, or for a generic record the
    type of the field with its forward references resolved. *)
Definition declared_type (E : env) (R : typ) (fld : dc_field) (t : typ) : Prop :=
  let ctx := new_SchemaContext None (e_callers_frame E R) in
  forall s, (type_hints <- hints_of E R ctx ;;
             field_hint E R ctx type_hints fld) s = Ok t s.

(** A class or a subscripted generic class: a hint that none of the
    rules before the last one of [_field_for_schema] looks at. *)
Definition is_record_type (t : typ) : bool :=
  match t with
  | TClass _ | TAlias _ _ => true
  | _ => false
  end.

(** [localns] of the context that [class_schema] pushes when it is called
    without namespaces. *)
Definition frame_locals (E : env) (clazz : typ) (clazz_frame : option nat) : option nat :=
  match clazz_frame with
  | Some f => Some f
  | None => e_callers_frame E clazz
  end.

(** [calls E r c s c' s1]: the call [c], started in the state [s], calls
    [c'] in the state [s1], every call it made before having returned (the
    calls are answered by [r]). One rule for each place where the code
    calls [_field_for_schema], [_internal_class_schema] or [class_schema]
    on a type that is declared: the argument of [Final], the one member of
    a union besides [None], an alternative of a union, the element of a
    list, sequence or set and the key of a mapping, the element of a tuple
    of any length, a member of a tuple, the value of a mapping, the
    supertype of a new type, a nested record, a specialization of a
    decorated generic record, a field of the record that is compiled, the
    retry after the conversion to a dataclass, and the compilation that
    [class_schema] starts, for a dataclass and for a class it converts. *)
Inductive calls (E : env) (r : recs) : call -> state -> call -> state -> Prop :=
| calls_final (a : typ) (rest : list typ) (d : option pyval) (md : metadata)
    (b : base) (s : state) :
    md_marshmallow_field md = None ->
    _field_by_type E (TFinal (a :: rest)) b = None ->
    calls E r (Field_for_schema (TFinal (a :: rest)) d md b) s
          (Field_for_schema a d (default_metadata (TFinal (a :: rest)) d md) b) s
| calls_union_member (args : list typ) (a : typ) (d : option pyval) (md : metadata)
    (b : base) (s : state) :
    md_marshmallow_field md = None ->
    _field_by_type E (TUnion args) b = None ->
    non_null args = [a] ->
    calls E r (Field_for_schema (TUnion args) d md b) s
          (Field_for_schema a None
             (union_metadata args (default_metadata (TUnion args) d md)) b) s
| calls_union_alternative (args pre : list typ) (a : typ) (later : list typ)
    (d : option pyval) (md : metadata) (b : base) (s s1 : state) :
    md_marshmallow_field md = None ->
    _field_by_type E (TUnion args) b = None ->
    non_null args = (pre ++ a :: later)%list ->
    length (non_null args) <> 1 ->
    runs (fun t => r_field_for_schema r t None required_md b) pre s s1 ->
    calls E r (Field_for_schema (TUnion args) d md b) s
          (Field_for_schema a None required_md b) s1
| calls_element (o : origin) (a : typ) (rest : list typ) (d : option pyval)
    (md : metadata) (b : base) (s : state) :
    md_marshmallow_field md = None ->
    _field_by_type E (TContainer o (a :: rest)) b = None ->
    o <> o_tuple ->
    calls E r (Field_for_schema (TContainer o (a :: rest)) d md b) s
          (Field_for_schema a None empty_md b) s
| calls_tuple_element (a : typ) (d : option pyval) (md : metadata) (b : base)
    (s : state) :
    md_marshmallow_field md = None ->
    _field_by_type E (TContainer o_tuple [a; TEllipsis]) b = None ->
    calls E r (Field_for_schema (TContainer o_tuple [a; TEllipsis]) d md b) s
          (Field_for_schema a None empty_md b) s
| calls_tuple_member (args pre : list typ) (a : typ) (later : list typ)
    (d : option pyval) (md : metadata) (b : base) (s s1 : state) :
    md_marshmallow_field md = None ->
    _field_by_type E (TContainer o_tuple args) b = None ->
    (forall a0, args <> [a0; TEllipsis]) ->
    args = (pre ++ a :: later)%list ->
    runs (fun t => r_field_for_schema r t None empty_md b) pre s s1 ->
    calls E r (Field_for_schema (TContainer o_tuple args) d md b) s
          (Field_for_schema a None empty_md b) s1
| calls_mapping_value (o : origin) (K V : typ) (rest : list typ) (d : option pyval)
    (md : metadata) (b : base) (s s1 : state) (keys : field) :
    md_marshmallow_field md = None ->
    _field_by_type E (TContainer o (K :: V :: rest)) b = None ->
    o = o_dict \/ o = o_Mapping ->
    r_field_for_schema r K None empty_md b s = Ok keys s1 ->
    calls E r (Field_for_schema (TContainer o (K :: V :: rest)) d md b) s
          (Field_for_schema V None empty_md b) s1
| calls_supertype (name : string) (supertype : typ) (d : option pyval)
    (md : metadata) (b : base) (s : state) :
    md_marshmallow_field md = None ->
    _field_by_type E (TNewType name) b = None ->
    e_supertype E name = Some supertype ->
    e_marshmallow_field E name = false ->
    calls E r (Field_for_schema (TNewType name) d md b) s
          (Field_for_schema supertype d
             (supertype_metadata E name (default_metadata (TNewType name) d md)) b) s
| calls_nested (t : typ) (d : option pyval) (md : metadata) (b : base) (s : state)
    (ctx : SchemaContext) (below : list SchemaContext) :
    md_marshmallow_field md = None ->
    is_record_type t = true ->
    _field_by_type E t b = None ->
    e_is_enum E t = false ->
    e_Schema E t = A_none ->
    stack s = ctx :: below ->
    dict_get t (seen_classes ctx) = None ->
    calls E r (Field_for_schema t d md b) s (Internal_class_schema t b) s
| calls_specialization (t : typ) (d : option pyval) (md : metadata) (b : base)
    (s : state) (l : nat) :
    md_marshmallow_field md = None ->
    is_record_type t = true ->
    _field_by_type E t b = None ->
    e_is_enum E t = false ->
    e_Schema E t = A_lazy_generic l ->
    args_get (get_args t) (memo_dict l (memos s)) = None ->
    calls E r (Field_for_schema t d md b) s
          (Class_schema t (e_lazy_base E l) (e_lazy_frame E l)) s
| calls_field (clazz : typ) (b : base) (s : state) (ctx : SchemaContext)
    (below : list SchemaContext) (fields : list dc_field)
    (type_hints : list (string * typ)) (pre : list dc_field) (fld : dc_field)
    (later : list dc_field) (s1 : state) (t : typ) :
    cache_get (clazz, b) (cache s) = None ->
    stack s = ctx :: below ->
    let s0 := registered clazz (e_name E clazz) ctx below s in
    _dataclass_fields E clazz s0 = Ok fields s0 ->
    hints_of E clazz ctx s0 = Ok type_hints s0 ->
    filter (fun fld => f_init fld || e_include_non_init E clazz) fields
    = (pre ++ fld :: later)%list ->
    runs (field_entry E r clazz b ctx type_hints) pre s0 s1 ->
    field_hint E clazz ctx type_hints fld s1 = Ok t s1 ->
    calls E r (Internal_class_schema clazz b) s
          (Field_for_schema t (_get_field_default fld) (f_metadata fld) b) s1
| calls_retry (clazz : typ) (b : base) (s : state) (ctx : SchemaContext)
    (below : list SchemaContext) (e0 : exn) :
    cache_get (clazz, b) (cache s) = None ->
    stack s = ctx :: below ->
    let s0 := registered clazz (e_name E clazz) ctx below s in
    _dataclass_fields E clazz s0 = Raise e0 s0 ->
    isinstance_TypeError e0 = true ->
    isinstance_UnboundTypeVarError e0 = false ->
    e_dataclass E clazz = None ->
    calls E r (Internal_class_schema clazz b) s
          (Internal_class_schema clazz b) (converted_with_warning clazz s0)
| calls_compile (clazz : typ) (b : base) (frame : option nat) (s : state) :
    is_dataclass E s clazz || is_generic_alias_of_dataclass E s clazz = true ->
    calls E r (Class_schema clazz b frame) s
          (Internal_class_schema clazz b)
          (set_stack (new_SchemaContext None (frame_locals E clazz frame) :: stack s) s)
| calls_convert (clazz : typ) (b : base) (frame : option nat) (s : state) :
    is_dataclass E s clazz || is_generic_alias_of_dataclass E s clazz = false ->
    e_dataclass E clazz = None ->
    let s0 := set_converted (clazz :: converted s) s in
    calls E r (Class_schema clazz b frame) s
          (Internal_class_schema clazz b)
          (set_stack (new_SchemaContext None (frame_locals E clazz frame) :: stack s0) s0).

(** The function called by [c], with its calls answered by [r], ends with
    the exception [e] (for [_internal_class_schema], the function under
    its cache wrapper). *)
Definition raises_in_body (E : env) (r : recs) (c : call) (s : state) (e : exn)
    (s' : state) : Prop :=
  match c with
  | Field_for_schema t d md b => _field_for_schema E r t d md b s = Raise e s'
  | Internal_class_schema t b =>
      lru_cache MAX_CLASS_SCHEMA_CACHE_SIZE (_internal_class_schema_body E r) t b s
      = Raise e s'
  | Class_schema t b f => class_schema_body E r t b f None None s = Raise e s'
  end.

(** The state an exception leaves behind when it goes through the caller:
    [class_schema] pops its context, the two others do nothing. *)
Definition leave (c : call) (s : state) : state :=
  match c with
  | Class_schema _ _ _ => set_stack (tl (stack s)) s
  | _ => s
  end.

(** [surfaces E k c s m s']: within [k] nested calls, the call [c] started
    in the state [s] comes to a declared type that is a type variable, or
    to a generic record whose fields the resolver refuses as unbound; [m]
    is the message of the [UnboundTypeVarError] raised there. *)
Inductive surfaces (E : env) : nat -> call -> state -> string -> state -> Prop :=
| surfaces_type_variable (k : nat) (name : string) (d : option pyval) (md : metadata)
    (b : base) (s : state) :
    surfaces E (S k) (Field_for_schema (TVar name) d md b) s
             ("can not resolve type variable " ++ name) s
| surfaces_unbound_fields (k : nat) (clazz : typ) (b : base) (s : state)
    (ctx : SchemaContext) (below : list SchemaContext) (m : string) :
    cache_get (clazz, b) (cache s) = None ->
    stack s = ctx :: below ->
    let s0 := registered clazz (e_name E clazz) ctx below s in
    _dataclass_fields E clazz s0 = Raise (UnboundTypeVarError m) s0 ->
    surfaces E (S k) (Internal_class_schema clazz b) s m s0
| surfaces_call (k : nat) (c : call) (s : state) (c' : call) (s1 : state)
    (m : string) (s2 : state) :
    calls E (recs_at E k) c s c' s1 ->
    surfaces E k c' s1 m s2 ->
    surfaces E (S k) c s m (leave c s2).

(** * Properties *)

(** ** Equality tests decide equality *)

Lemma bare_eqb_eq (a b : bare) : bare_eqb a b = true <-> a = b.
Proof. split; [destruct a, b; simpl; congruence | intros ->; destruct b; reflexivity]. Qed.

Lemma origin_eqb_eq (a b : origin) : origin_eqb a b = true <-> a = b.
Proof. split; [destruct a, b; simpl; congruence | intros ->; destruct b; reflexivity]. Qed.

Lemma pyval_eqb_eq (a b : pyval) : pyval_eqb a b = true <-> a = b.
Proof.
  destruct a, b; simpl; split; intros H; try congruence; try reflexivity.
  - apply Bool.eqb_prop in H. congruence.
  - inversion H. apply Bool.eqb_reflx.
  - apply Z.eqb_eq in H. congruence.
  - inversion H. apply Z.eqb_refl.
  - apply String.eqb_eq in H. congruence.
  - inversion H. apply String.eqb_refl.
  - apply Nat.eqb_eq in H. congruence.
  - inversion H. apply Nat.eqb_refl.
Qed.

Lemma list_eqb_eq {A : Type} (eqb : A -> A -> bool) (l1 : list A) :
  (forall x, In x l1 -> forall y, eqb x y = true <-> x = y) ->
  forall l2, list_eqb eqb l1 l2 = true <-> l1 = l2.
Proof.
  induction l1 as [|x l1 IH]; intros Hx [|y l2]; simpl; split; intros H;
    try congruence; try reflexivity.
  - apply andb_true_iff in H as [H1 H2].
    apply Hx in H1; [|now left]. apply IH in H2; [congruence|].
    intros z Hz. apply Hx. now right.
  - inversion H; subst. apply andb_true_iff. split.
    + apply Hx; [now left | reflexivity].
    + apply IH; [|reflexivity]. intros z Hz. apply Hx. now right.
Qed.

(** Induction on type hints that reaches the arguments of a subscripted
    hint. *)
Section TypInd.
Variable P : typ -> Prop.
Hypothesis HVar : forall n, P (TVar n).
Hypothesis HAny : P TAny.
Hypothesis HNone : P TNoneType.
Hypothesis HEll : P TEllipsis.
Hypothesis HClass : forall n, P (TClass n).
Hypothesis HBare : forall b, P (TBare b).
Hypothesis HCont : forall o args, Forall P args -> P (TContainer o args).
Hypothesis HUnion : forall args, Forall P args -> P (TUnion args).
Hypothesis HLit : forall vals, P (TLiteral vals).
Hypothesis HFinal : forall args, Forall P args -> P (TFinal args).
Hypothesis HAnn : forall t anns, P t -> P (TAnnotated t anns).
Hypothesis HNew : forall n, P (TNewType n).
Hypothesis HAlias : forall c args, Forall P args -> P (TAlias c args).
Hypothesis HFwd : forall a, P (TForwardRef a).

Fixpoint typ_ind' (t : typ) : P t :=
  let fix all (l : list typ) : Forall P l :=
    match l with
    | [] => Forall_nil P
    | x :: l' => Forall_cons x (typ_ind' x) (all l')
    end in
  match t with
  | TVar n => HVar n
  | TAny => HAny
  | TNoneType => HNone
  | TEllipsis => HEll
  | TClass n => HClass n
  | TBare b => HBare b
  | TContainer o args => HCont o args (all args)
  | TUnion args => HUnion args (all args)
  | TLiteral vals => HLit vals
  | TFinal args => HFinal args (all args)
  | TAnnotated t' anns => HAnn t' anns (typ_ind' t')
  | TNewType n => HNew n
  | TAlias c args => HAlias c args (all args)
  | TForwardRef a => HFwd a
  end.
End TypInd.

(** On argument lists, [typ_eqb]'s inner loop is [list_eqb typ_eqb]. *)
Lemma typ_eqb_args (l1 l2 : list typ) :
  (fix args_eqb (l1 l2 : list typ) {struct l1} : bool :=
     match l1, l2 with
     | [], [] => true
     | x :: l1', y :: l2' => typ_eqb x y && args_eqb l1' l2'
     | _, _ => false
     end) l1 l2 = list_eqb typ_eqb l1 l2.
Proof.
  revert l2. induction l1 as [|x l1 IH]; intros [|y l2]; simpl; try reflexivity.
  now rewrite IH.
Qed.

Lemma typ_eqb_eq (a : typ) : forall u, typ_eqb a u = true <-> a = u.
Proof.
  induction a using typ_ind'; intros u; destruct u; simpl;
    try (split; intros H0; congruence);
    try (split; reflexivity);
    try (rewrite String.eqb_eq; split; congruence);
    rewrite ?typ_eqb_args.
  - rewrite bare_eqb_eq. split; congruence.
  - rewrite andb_true_iff, origin_eqb_eq, list_eqb_eq.
    + split; [intros [-> ->]; reflexivity | intros H0; inversion H0; auto].
    + intros x Hx. rewrite Forall_forall in H. now apply H.
  - rewrite list_eqb_eq.
    + split; congruence.
    + intros x Hx. rewrite Forall_forall in H. now apply H.
  - rewrite list_eqb_eq.
    + split; congruence.
    + intros x Hx y. apply pyval_eqb_eq.
  - rewrite list_eqb_eq.
    + split; congruence.
    + intros x Hx. rewrite Forall_forall in H. now apply H.
  - rewrite andb_true_iff, IHa, list_eqb_eq.
    + split; [intros [-> ->]; reflexivity | intros H0; inversion H0; auto].
    + intros x Hx y. apply Nat.eqb_eq.
  - rewrite andb_true_iff, String.eqb_eq, list_eqb_eq.
    + split; [intros [-> ->]; reflexivity | intros H0; inversion H0; auto].
    + intros x Hx. rewrite Forall_forall in H. now apply H.
Qed.

Lemma typ_eqb_refl (a : typ) : typ_eqb a a = true.
Proof. now apply typ_eqb_eq. Qed.

Lemma base_eqb_eq (a b : base) : base_eqb a b = true <-> a = b.
Proof.
  destruct a, b; simpl; split; intros H; try congruence; try reflexivity.
  - apply Nat.eqb_eq in H. congruence.
  - inversion H. apply Nat.eqb_refl.
Qed.

Lemma key_eqb_eq (k1 k2 : cache_key) : key_eqb k1 k2 = true <-> k1 = k2.
Proof.
  destruct k1 as [t1 b1], k2 as [t2 b2]. unfold key_eqb. simpl.
  rewrite andb_true_iff, typ_eqb_eq, base_eqb_eq.
  split; [intros [-> ->]; reflexivity | intros H; inversion H; auto].
Qed.

Lemma key_eqb_refl (k : cache_key) : key_eqb k k = true.
Proof. now apply key_eqb_eq. Qed.

Lemma typ_eqb_neq (a b : typ) : a <> b -> typ_eqb a b = false.
Proof.
  intros H. destruct (typ_eqb a b) eqn:He; [|reflexivity].
  apply typ_eqb_eq in He. contradiction.
Qed.

Lemma dict_get_set_same {V : Type} (k : typ) (v : V) (d : list (typ * V)) :
  dict_get k (dict_set k v d) = Some v.
Proof.
  induction d as [|[k' v'] d IH]; simpl.
  - now rewrite typ_eqb_refl.
  - destruct (typ_eqb k k') eqn:H; simpl; rewrite H; [reflexivity | exact IH].
Qed.

Lemma dict_get_set_other {V : Type} (k k' : typ) (v : V) (d : list (typ * V)) :
  k <> k' -> dict_get k (dict_set k' v d) = dict_get k d.
Proof.
  intros Hk. induction d as [|[k0 v0] d IH]; simpl.
  - now rewrite (typ_eqb_neq k k' Hk).
  - destruct (typ_eqb k' k0) eqn:H; simpl.
    + apply typ_eqb_eq in H. subst k0. now rewrite (typ_eqb_neq k k' Hk).
    + now rewrite IH.
Qed.

(** ** Sequencing *)

Lemma bind_ok {A B : Type} (c : M A) (k : A -> M B) (s : state) (a : A) (s' : state) :
  c s = Ok a s' -> bind c k s = k a s'.
Proof. intros H. unfold bind. now rewrite H. Qed.

Lemma bind_raise {A B : Type} (c : M A) (k : A -> M B) (s : state) (e : exn)
    (s' : state) :
  c s = Raise e s' -> bind c k s = Raise e s'.
Proof. intros H. unfold bind. now rewrite H. Qed.

Lemma bind_diverge {A B : Type} (c : M A) (k : A -> M B) (s : state) :
  c s = Diverge -> bind c k s = Diverge.
Proof. intros H. unfold bind. now rewrite H. Qed.

(** One step of a run: the first computation of a sequence returns. *)
Ltac bind_step tac := (erewrite bind_ok by tac); cbv beta iota.

(** ** Relating the state before and after a run *)
Section Post.
Variable Q : state -> state -> Prop.
Hypothesis Q_refl : forall s, Q s s.
Hypothesis Q_trans : forall a b c, Q a b -> Q b c -> Q a c.

Lemma post_ret {A : Type} (a : A) : post Q (ret a).
Proof. intros s. apply Q_refl. Qed.

Lemma post_raise {A : Type} (e : exn) : post Q (@raise A e).
Proof. intros s. apply Q_refl. Qed.

Lemma post_bind {A B : Type} (c : M A) (k : A -> M B) :
  post Q c -> (forall a, post Q (k a)) -> post Q (bind c k).
Proof.
  intros Hc Hk s. unfold post_at, bind. specialize (Hc s). unfold post_at in Hc.
  destruct (c s) as [a s1|e s1|]; auto.
  specialize (Hk a s1). unfold post_at in Hk.
  destruct (k a s1); eauto.
Qed.

Lemma post_try_except {A : Type} (c : M A) (h : exn -> M A) :
  post Q c -> (forall e, post Q (h e)) -> post Q (try_except c h).
Proof.
  intros Hc Hh s. unfold post_at, try_except. specialize (Hc s). unfold post_at in Hc.
  destruct (c s) as [a s1|e s1|]; auto.
  specialize (Hh e s1). unfold post_at in Hh.
  destruct (h e s1); eauto.
Qed.

Lemma post_mapM {A B : Type} (f : A -> M B) (l : list A) :
  (forall x, post Q (f x)) -> post Q (mapM f l).
Proof.
  intros Hf. induction l as [|x l IH]; simpl.
  - apply post_ret.
  - apply post_bind; [apply Hf|]. intros y.
    apply post_bind; [apply IH|]. intros ys. apply post_ret.
Qed.

Lemma post_lift {A : Type} (x : exn + A) : post Q (lift x).
Proof. destruct x; [apply post_raise | apply post_ret]. Qed.

Lemma post_top : post Q top.
Proof. intros s. unfold post_at, top. destruct (stack s); apply Q_refl. Qed.

Lemma post_arg_at (l : list typ) (i : nat) : post Q (arg_at l i).
Proof. unfold arg_at. destruct (nth_error l i); [apply post_ret | apply post_raise]. Qed.

Lemma post_hint_of (n : string) (h : list (string * typ)) : post Q (hint_of n h).
Proof.
  induction h as [|[m t] h IH]; simpl; [apply post_raise|].
  destruct (String.eqb n m); [apply post_ret | apply IH].
Qed.

Lemma post_Field_init (md : metadata) : post Q (Field_init md).
Proof. unfold Field_init. destruct (refuses md); [apply post_raise | apply post_ret]. Qed.

Lemma post_construct (f : field) (md : metadata) : post Q (construct f md).
Proof. apply post_bind; [apply post_Field_init | intros _; apply post_ret]. Qed.

Lemma post_found (f : field) (md : metadata) : post Q (found f md).
Proof. apply post_bind; [apply post_construct | intros f'; apply post_ret]. Qed.

(** The synthesizer and the compiler, given what the state primitives
    and the calls through [r] do. *)
Section Bodies.
Variable E : env.
Variable r : recs.
Hypothesis Q_warn : forall m, post Q (warn m).
Hypothesis Q_conv : forall t, post Q (dataclasses_dataclass E t).
Hypothesis Q_alloc : forall s h, Q s (set_heap h s).
Hypothesis Hffs : forall t d md b, post Q (r_field_for_schema r t d md b).
Hypothesis Hnested : forall t b, post Q (nested_of E r t b).

Lemma post_child (b : base) (t : typ) : post Q (child_field r b t).
Proof. apply Hffs. Qed.

Lemma post_tuple_field (b : base) (children : list field) (md : metadata) :
  post Q (tuple_field E b children md).
Proof.
  unfold tuple_field.
  destruct (String.eqb _ "Raw"); [|apply post_found].
  destruct (type_mapping_find E b b_List); [|apply post_found].
  apply post_bind; [apply post_Field_init | intros _; apply post_raise].
Qed.

Lemma post_container (t : typ) (b : base) (md : metadata) :
  post Q (_field_for_container_type E r t b md).
Proof.
  unfold _field_for_container_type.
  destruct (get_origin t) as [o|]; [|apply post_ret].
  destruct o;
    try (apply post_bind; [apply post_arg_at|]; intros a0;
         apply post_bind; [apply post_child|]; intros c; apply post_found);
    try (apply post_bind; [apply post_arg_at|]; intros a0;
         apply post_bind; [apply post_child|]; intros k;
         apply post_bind; [apply post_arg_at|]; intros a1;
         apply post_bind; [apply post_child|]; intros v; apply post_found).
  assert (Hgen : post Q (children <- mapM (child_field r b) (get_args t) ;;
            tuple_field E b children md)).
  { apply post_bind; [apply post_mapM; intros x; apply post_child|].
    intros c. apply post_tuple_field. }
  destruct (get_args t) as [|a0 [|a1 l]]; try exact Hgen.
  destruct a1; try exact Hgen; destruct l; try exact Hgen.
  apply post_bind; [apply post_child|]. intros c. apply post_found.
Qed.

Lemma post_annotated (t : typ) (md : metadata) :
  post Q (_field_for_annotated_type E t md).
Proof.
  unfold _field_for_annotated_type. destruct t; try apply post_ret.
  destruct (rev (filter (is_marshmallow_annotation E) anns)) as [|f others];
    [apply post_ret|].
  apply post_bind.
  - destruct others; [apply post_ret | apply Q_warn].
  - intros _. destruct (e_annotation E f); try apply post_found; apply post_ret.
Qed.

Lemma post_union (t : typ) (b : base) (md : metadata) :
  post Q (_field_for_union_type r t b md).
Proof.
  unfold _field_for_union_type.
  destruct (is_union_type t); [|apply post_ret].
  set (md' := if is_optional_type t then optional_metadata md else md).
  assert (Hgen : forall subtypes, post Q (alts <- mapM (fun subtyp =>
             f <- r_field_for_schema r subtyp None required_md b ;;
             ret (subtyp, f)) subtypes ;; found (F_Union alts md') md')).
  { intros subtypes. apply post_bind.
    - apply post_mapM. intros x. apply post_bind; [apply Hffs|].
      intros f. apply post_ret.
    - intros alts. apply post_found. }
  destruct (filter (fun a => negb (is_NoneType a)) (get_args t)) as [|a0 [|a1 l]];
    try apply Hgen.
  apply post_bind; [apply Hffs|]. intros f. apply post_ret.
Qed.

Lemma post_supertype (n : string) (d : option pyval) (st : typ)
    (md : metadata) (b : base) :
  post Q (_field_by_supertype E r n d st md b).
Proof.
  unfold _field_by_supertype.
  destruct (e_marshmallow_field E n); [apply post_construct | apply Hffs].
Qed.

Lemma post_after_final (t : typ) (d : option pyval) (md : metadata) (b : base) :
  post Q (field_after_final E r t d md b).
Proof.
  unfold field_after_final.
  apply post_bind; [apply post_annotated|]. intros [f|]; [apply post_ret|].
  apply post_bind; [apply post_union|]. intros [f|]; [apply post_ret|].
  apply post_bind; [apply post_container|]. intros [f|]; [apply post_ret|].
  match goal with |- post Q (match ?x with _ => _ end) => destruct x as [[n st]|] end.
  - apply post_supertype.
  - destruct (e_is_enum E t); [apply post_construct|].
    apply post_bind; [apply Hnested|]. intros n. apply post_construct.
Qed.

Lemma post_field_for_schema (t : typ) (d : option pyval) (md : metadata) (b : base) :
  post Q (_field_for_schema E r t d md b).
Proof.
  unfold _field_for_schema.
  destruct t; try apply post_raise;
    (destruct (md_marshmallow_field _); [apply post_ret|];
     match goal with
     | |- post Q (match ?x with _ => _ end) => destruct x; [apply post_construct|]
     end;
     cbv beta iota delta [_container_type_add_any];
     try apply post_after_final).
  all: try apply post_construct.
  all: try (destruct b0; try apply post_after_final).
  - destruct (md_validate _); [apply post_raise | apply post_construct].
  - apply post_bind; [|intros x; apply Hffs].
    destruct args; [|apply post_ret].
    destruct d as [v|]; [|apply post_ret].
    destruct (callable v); (apply post_bind; [apply Q_warn | intros _; apply post_ret]).
Qed.

Lemma post_build_schema (t : typ) (b : base) (c : SchemaContext) (n : string)
    (fs : list dc_field) :
  post Q (build_schema E r t b c n fs).
Proof.
  unfold build_schema.
  apply post_bind.
  { destruct (negb (e_is_generic_type E t)); [apply post_lift | apply post_ret]. }
  intros hints. apply post_bind.
  { apply post_mapM. intros fld. apply post_bind.
    - destruct (negb (e_is_generic_type E t)); [apply post_hint_of | apply post_lift].
    - intros ty. apply post_bind; [apply Hffs|]. intros f. apply post_ret. }
  intros fields s. unfold post_at. apply Q_alloc.
Qed.

Lemma _dataclass_fields_state (t : typ) (s : state) :
  match _dataclass_fields E t s with
  | Ok _ s' => s' = s
  | Raise _ s' => s' = s
  | Diverge => True
  end.
Proof.
  unfold _dataclass_fields, dataclasses_fields, lift.
  destruct (negb (e_is_generic_type E t)).
  - destruct (is_dataclass E s t); reflexivity.
  - destruct (e_generic_fields E (is_dataclass E s t) t); reflexivity.
Qed.

(** [dataclasses.dataclass] returns the class it was given. *)
Lemma post_convert_then {A : Type} (t : typ) (k : typ -> M A) :
  post Q (k t) -> post Q (created <- dataclasses_dataclass E t ;; k created).
Proof.
  intros Hk s. pose proof (Q_conv t s) as Hc. specialize (Hk (set_converted (t :: converted s) s)).
  unfold post_at, bind, dataclasses_dataclass in *.
  destruct (e_dataclass E t); [exact Hc|].
  destruct (k t _); eauto.
Qed.

Hypothesis Q_seen : forall t, post Q (register_seen t (e_name E t)).

Lemma post_body (t : typ) (b : base) :
  post Q (r_internal_class_schema r t b) ->
  post Q (_internal_class_schema_body E r t b).
Proof.
  intros Hretry. unfold _internal_class_schema_body.
  apply post_bind; [apply post_top|]. intros c.
  apply post_bind; [apply Q_seen|]. intros _ s. unfold post_at, reflect_and_build.
  pose proof (_dataclass_fields_state t s) as Hs.
  destruct (_dataclass_fields E t s) as [fs s1|e s1|]; [subst s1..|exact I].
  - apply post_build_schema.
  - destruct (isinstance_UnboundTypeVarError e); [apply Q_refl|].
    destruct (isinstance_TypeError e); [|apply Q_refl].
    apply post_try_except.
    + unfold convert_and_retry. apply post_bind; [apply Q_warn|]. intros _.
      apply post_convert_then. exact Hretry.
    + intros exc. unfold retry_handlers.
      destruct (isinstance_UnboundTypeVarError exc); apply post_raise.
Qed.
End Bodies.
End Post.

(** ** The context stack *)

Lemma same_below_refl (s : state) : same_below s s.
Proof. split; reflexivity. Qed.

Lemma same_below_trans (a b c : state) :
  same_below a b -> same_below b c -> same_below a c.
Proof. intros [H1 H2] [H3 H4]. split; congruence. Qed.

Lemma same_below_stack (s s' : state) : stack s' = stack s -> same_below s s'.
Proof. intros H. split; now rewrite H. Qed.

Lemma same_below_warn (m : string) : post same_below (warn m).
Proof. intros s. now apply same_below_stack. Qed.

Lemma same_below_conv (E : env) (t : typ) : post same_below (dataclasses_dataclass E t).
Proof.
  intros s. unfold post_at, dataclasses_dataclass.
  destruct (e_dataclass E t); now apply same_below_stack.
Qed.

Lemma same_below_alloc (s : state) (h : list schema_class) : same_below s (set_heap h s).
Proof. now apply same_below_stack. Qed.

Lemma same_below_seen (t : typ) (n : string) : post same_below (register_seen t n).
Proof.
  intros s. unfold post_at, register_seen.
  destruct (stack s) as [|c st] eqn:Hs; [apply same_below_refl|].
  split; simpl; now rewrite Hs.
Qed.

Lemma same_below_lru (n : nat) (f : typ -> base -> M nat) (t : typ) (b : base) :
  post same_below (f t b) -> post same_below (lru_cache n f t b).
Proof.
  intros Hf s. specialize (Hf s). unfold post_at, lru_cache in *.
  destruct (cache_get (t, b) (cache s)); [now apply same_below_stack|].
  destruct (f t b s) as [a s1|e s1|]; auto.
  destruct (cache_get (t, b) (cache s1)); exact Hf.
Qed.

(** A [with _SchemaContext(...)] block around a run that keeps the stack
    below its top leaves the stack as it found it. *)
Lemma with_context_restores {A : Type} (g l : option nat) (c : M A) (s : state) :
  post same_below c ->
  match with_ (SchemaContext_enter g l) SchemaContext_exit c s with
  | Ok _ s' => stack s' = stack s
  | Raise _ s' => stack s' = stack s
  | Diverge => True
  end.
Proof.
  intros Hc. unfold with_, SchemaContext_enter, SchemaContext_exit, push, pop.
  specialize (Hc (set_stack (new_SchemaContext g l :: stack s) s)).
  unfold post_at in Hc.
  destruct (c _) as [a s2|e s2|]; auto; destruct Hc as [Hlen Htl]; simpl in *;
    destruct (stack s2) as [|c2 st2]; simpl in *; try discriminate; exact Htl.
Qed.

Lemma class_schema_body_restores (E : env) (r : recs) (t : typ) (b : base)
    (f g l : option nat) (s : state) :
  (forall t' b', post same_below (r_internal_class_schema r t' b')) ->
  match class_schema_body E r t b f g l s with
  | Ok _ s' => stack s' = stack s
  | Raise _ s' => stack s' = stack s
  | Diverge => True
  end.
Proof.
  intros Hr. unfold class_schema_body, bind.
  destruct (negb (is_dataclass E s t) && negb (is_generic_alias_of_dataclass E s t)).
  - unfold dataclasses_dataclass. destruct (e_dataclass E t); [reflexivity|].
    match goal with
    | |- match with_ ?en ?ex ?c ?s1 with _ => _ end =>
        pose proof (with_context_restores g
          match l with
          | Some l0 => Some l0
          | None => match match f with Some f0 => Some f0 | None => e_callers_frame E t end with
                    | Some f0 => Some f0 | None => None end
          end c s1 (Hr _ _)) as H
    end.
    exact H.
  - apply with_context_restores. apply Hr.
Qed.

Lemma same_below_get_schema (E : env) (r : recs) (l : nat) (t : typ) :
  (forall t' b' f', post same_below (r_class_schema r t' b' f')) ->
  post same_below (get_schema E r l t).
Proof.
  intros Hr s. unfold post_at, get_schema.
  destruct (args_get _ _); [apply same_below_refl|].
  specialize (Hr t (e_lazy_base E l) (e_lazy_frame E l) s). unfold post_at in Hr.
  destruct (r_class_schema r t _ _ s); auto.
Qed.

Ltac sb_side := try exact same_below_refl; try exact same_below_trans.

Lemma same_below_nested (E : env) (r : recs) (t : typ) (b : base) :
  (forall t' b', post same_below (r_internal_class_schema r t' b')) ->
  (forall t' b' f', post same_below (r_class_schema r t' b' f')) ->
  post same_below (nested_of E r t b).
Proof.
  intros Hi Hc. unfold nested_of.
  destruct (e_Schema E t).
  - match goal with |- post _ (match ?x with _ => _ end) => destruct x end;
      [apply post_ret; sb_side|].
    apply post_bind; sb_side; [apply post_top; sb_side|]. intros c.
    assert (Hcall : post same_below (a <- r_internal_class_schema r t b ;; ret (N_schema a))).
    { apply post_bind; sb_side; [apply Hi|]. intros a. apply post_ret; sb_side. }
    destruct (dict_get t (seen_classes c)) as [n|]; [|exact Hcall].
    destruct (nonempty n); [apply post_ret; sb_side | exact Hcall].
  - apply post_bind; sb_side; [apply same_below_get_schema; exact Hc|].
    intros a. apply post_ret; sb_side.
  - apply post_ret; sb_side.
Qed.

Lemma same_below_recs (E : env) (fuel : nat) :
  (forall t d md b, post same_below (r_field_for_schema (recs_at E fuel) t d md b)) /\
  (forall t b, post same_below (r_internal_class_schema (recs_at E fuel) t b)) /\
  (forall t b f, post same_below (r_class_schema (recs_at E fuel) t b f)).
Proof.
  induction fuel as [|n [IHf [IHi IHc]]]; simpl.
  - repeat split; intros; intros s; exact I.
  - assert (Hn : forall t b, post same_below (nested_of E (recs_at E n) t b))
      by (intros; now apply same_below_nested).
    assert (Hf : forall t d md b,
               post same_below (_field_for_schema E (recs_at E n) t d md b)).
    { intros. apply post_field_for_schema; sb_side;
        auto using same_below_warn. }
    repeat split; intros.
    + apply Hf.
    + apply same_below_lru. apply post_body; sb_side;
        auto using same_below_warn, same_below_conv, same_below_alloc,
                   same_below_seen.
    + intros s.
      pose proof (class_schema_body_restores E (recs_at E n) t b f None None s IHi) as H.
      unfold post_at.
      destruct (class_schema_body _ _ _ _ _ _ _ s); auto using same_below_stack.
Qed.

(** C10. Every [class_schema] call pushes a fresh context (no class seen
    yet) and pops it on the way out, by a result or by an exception: the
    stack after the call is the stack before it, so no [seen_classes] of a
    failed compilation is left for a later one. *)
Theorem class_schema_restores_stack (E : env) (fuel : nat) (clazz : typ)
    (base_schema : base) (s : state) :
  seen_classes (new_SchemaContext None (e_callers_frame E clazz)) = [] /\
  (forall schema s', class_schema E fuel clazz base_schema s = Ok schema s' ->
                     stack s' = stack s) /\
  (forall e s', class_schema E fuel clazz base_schema s = Raise e s' ->
                stack s' = stack s).
Proof.
  pose proof (class_schema_body_restores E (recs_at E fuel) clazz base_schema
                None None None s (proj1 (proj2 (same_below_recs E fuel)))) as H.
  unfold class_schema. split; [reflexivity|].
  split; intros x s' Hrun; rewrite Hrun in H; exact H.
Qed.

(** ** The decorator and the accessor of generic records *)

Lemma check_decorated_generic_alias (isinstance_type is_generic_alias : typ -> bool)
    (repr : typ -> string) (cls : typ) (s : state) :
  is_generic_alias cls = true ->
  exists msg, _check_decorated_type isinstance_type is_generic_alias repr cls s
              = Raise (TypeError msg) s.
Proof.
  intros H. unfold _check_decorated_type. rewrite H.
  destruct (negb (isinstance_type cls)); eexists; reflexivity.
Qed.

(** Reading the accessor on the class: [__get__] is called with no
    instance, and returns the accessor. Nothing is raised. *)
Lemma class_level_access_does_not_raise :
  LazyGenericSchema_get 0 None (Some (TClass "G")) initial_state = Ok 0 initial_state /\
  ~ (exists msg s,
        LazyGenericSchema_get 0 None (Some (TClass "G")) initial_state
        = Raise (TypeError msg) s).
Proof. split; [reflexivity|]. intros (msg & s & H). discriminate. Qed.

(** C8, amended. Decorating a generic alias is a [TypeError], with
    [add_schema] and with [dataclass]. The accessor stored on a generic
    record raises [TypeError] when it is called, which is what [G.Schema()]
    and [G[A].Schema()] do after reading it on the class (an alias hands the
    attribute lookup to its class), and when it is read on an instance;
    reading it on the class raises nothing and gives the accessor. *)
Theorem generic_schema_accessor_is_type_error
    (isinstance_type is_generic_alias is_generic_type : typ -> bool)
    (repr : typ -> string) (callers_frame : typ -> option nat) (dc : typ -> M typ)
    (cls : typ) (base_schema : base) (frame : option nat) (s : state) :
  is_generic_alias cls = true ->
  (exists msg, add_schema isinstance_type is_generic_alias is_generic_type repr
                 callers_frame cls base_schema frame s = Raise (TypeError msg) s) /\
  (exists msg, dataclass isinstance_type is_generic_alias is_generic_type repr
                 callers_frame dc cls base_schema frame s = Raise (TypeError msg) s) /\
  (forall self owner,
      LazyGenericSchema_get self None (Some owner) s = Ok self s) /\
  (forall self, LazyGenericSchema_call self s = Raise (TypeError generic_alias_message) s) /\
  (forall self owner,
      (accessor <- LazyGenericSchema_get self None (Some owner) ;;
       LazyGenericSchema_call accessor) s
      = Raise (TypeError generic_alias_message) s) /\
  (forall self instance owner,
      LazyGenericSchema_get self (Some instance) owner s
      = Raise (TypeError generic_alias_message) s).
Proof.
  intros H.
  destruct (check_decorated_generic_alias isinstance_type is_generic_alias repr cls s H)
    as [msg Hmsg].
  split; [exists msg; unfold add_schema, bind; now rewrite Hmsg|].
  split; [exists msg; unfold dataclass, bind; now rewrite Hmsg|].
  repeat split.
Qed.

Lemma generic_schema_accessor_is_type_error_witness :
  e_is_generic_alias person_table (TAlias "G" [TClass "int"]) = true /\
  (exists msg, add_schema (e_isinstance_type person_table)
                 (e_is_generic_alias person_table) (e_is_generic_type person_table)
                 (e_name person_table) (e_callers_frame person_table)
                 (TAlias "G" [TClass "int"]) None None initial_state
               = Raise (TypeError msg) initial_state).
Proof.
  split; [reflexivity|].
  exact (proj1 (generic_schema_accessor_is_type_error
           (e_isinstance_type person_table) (e_is_generic_alias person_table)
           (e_is_generic_type person_table) (e_name person_table)
           (e_callers_frame person_table) (dataclasses_dataclass person_table)
           (TAlias "G" [TClass "int"]) None None initial_state eq_refl)).
Defined.

(** ** Containers written without arguments *)

Lemma container_type_add_any_covered (b : bare) :
  add_any_covers b = true ->
  exists o args, _container_type_add_any (TBare b) = TContainer o args /\
                 Forall (eq TAny) args /\ args <> [].
Proof.
  destruct b; simpl; intros H; try discriminate;
    eexists; eexists; (split; [reflexivity|]); split;
    repeat constructor; discriminate.
Qed.

Lemma field_for_bare_as_if_any (E : env) (r : recs) (b : bare) (d : option pyval)
    (md : metadata) (base_schema : base) :
  _field_for_schema E r (TBare b) d md base_schema
  = _field_for_schema E r (_container_type_add_any (TBare b)) d md base_schema.
Proof. destruct b; reflexivity. Qed.

(** ** Exceptions on their way out of a compilation *)

Lemma mapM_raises {A B : Type} (f : A -> M B) (l1 : list A) (x : A) (l2 : list A) :
  forall s ys s1 e s2,
    mapM f l1 s = Ok ys s1 -> f x s1 = Raise e s2 ->
    mapM f (l1 ++ x :: l2)%list s = Raise e s2.
Proof.
  induction l1 as [|y l1 IH]; simpl; intros s ys s1 e s2 H1 H2.
  - inversion H1; subst. unfold bind. now rewrite H2.
  - unfold bind in *. destruct (f y s) as [b s'|e' s'|]; try discriminate.
    destruct (mapM f l1 s') as [bs s''|e' s''|] eqn:Hm; try discriminate.
    inversion H1; subst. now rewrite (IH _ _ _ _ _ Hm H2).
Qed.

Lemma with_context_raises {A : Type} (g l : option nat) (c : M A) (s : state)
    (e : exn) (s2 : state) (top_ctx : SchemaContext) (below : list SchemaContext) :
  c (set_stack (new_SchemaContext g l :: stack s) s) = Raise e s2 ->
  stack s2 = top_ctx :: below ->
  with_ (SchemaContext_enter g l) SchemaContext_exit c s = Raise e (set_stack below s2).
Proof.
  intros H1 H2. unfold with_, SchemaContext_enter, SchemaContext_exit, push, pop.
  now rewrite H1, H2.
Qed.

(** The nested path: when reflection fails with a [TypeError], the body
    warns, converts once and compiles again; whatever goes wrong then,
    other than an unresolved type variable, comes out as the [TypeError]
    that names the class. *)
Lemma body_converts_and_retries (E : env) (r : recs) (clazz : typ) (base_schema : base)
    (s : state) (ctx : SchemaContext) (s1 : state) (e0 : exn) :
  top s = Ok ctx s ->
  register_seen clazz (e_name E clazz) s = Ok tt s1 ->
  _dataclass_fields E clazz s1 = Raise e0 s1 ->
  isinstance_TypeError e0 = true ->
  isinstance_UnboundTypeVarError e0 = false ->
  let s2 := set_warnings (warnings s1 ++ [conversion_warning]) s1 in
  _internal_class_schema_body E r clazz base_schema s =
  match e_dataclass E clazz with
  | Some exc =>
      if isinstance_UnboundTypeVarError exc then Raise exc s2
      else Raise (TypeError (not_a_dataclass_message (e_name E clazz))) s2
  | None =>
      match r_internal_class_schema r clazz base_schema
              (set_converted (clazz :: converted s2) s2) with
      | Ok schema s3 => Ok schema s3
      | Raise exc s3 =>
          if isinstance_UnboundTypeVarError exc then Raise exc s3
          else Raise (TypeError (not_a_dataclass_message (e_name E clazz))) s3
      | Diverge => Diverge
      end
  end.
Proof.
  intros Htop Hreg Hf H1 H2 s2.
  unfold _internal_class_schema_body, reflect_and_build, bind.
  rewrite Htop, Hreg, Hf, H2, H1.
  unfold try_except, convert_and_retry, bind, warn, dataclasses_dataclass, retry_handlers.
  fold s2. destruct (e_dataclass E clazz) as [exc|].
  - unfold raise. destruct (isinstance_UnboundTypeVarError exc); reflexivity.
  - destruct (r_internal_class_schema r clazz base_schema _) as [a s3|exc s3|];
      try reflexivity.
    unfold raise. destruct (isinstance_UnboundTypeVarError exc); reflexivity.
Qed.

(** After the conversion, a class that is not generic is reflected: the
    retried body does not convert again. *)
Lemma converted_class_is_reflected (E : env) (clazz : typ) (s : state) :
  e_is_generic_type E clazz = false ->
  In clazz (converted s) ->
  _dataclass_fields E clazz s = Ok (e_fields E clazz) s.
Proof.
  intros Hg Hin. unfold _dataclass_fields, dataclasses_fields, is_dataclass.
  rewrite Hg. simpl.
  assert (H : existsb (typ_eqb clazz) (converted s) = true).
  { apply existsb_exists. exists clazz. split; [exact Hin | apply typ_eqb_refl]. }
  rewrite H, orb_true_r. reflexivity.
Qed.

(** ** Options that a field class takes *)

Lemma construct_ok (f : field) (md : metadata) (s : state) :
  refuses md = false -> construct f md s = Ok f s.
Proof. intros H. unfold construct, Field_init, bind. now rewrite H. Qed.

Lemma construct_refused (f : field) (md : metadata) (s : state) :
  refuses md = true -> construct f md s = Raise required_with_load_default s.
Proof. intros H. unfold construct, Field_init, bind. now rewrite H. Qed.

Lemma found_ok (f : field) (md : metadata) (s : state) :
  refuses md = false -> found f md s = Ok (Some f) s.
Proof. intros H. unfold found, bind. now rewrite construct_ok. Qed.

Lemma fit_default (t : typ) (d : option pyval) (md : metadata) :
  options_fit d md = true -> refuses (default_metadata t d md) = false.
Proof.
  destruct md as [[[|]|] an dd [ld|] mf va de], d as [v|]; simpl;
    unfold options_fit, refuses, default_metadata, truthy_required; simpl;
    try discriminate; try reflexivity; destruct (is_optional_type t); reflexivity.
Qed.

Lemma fit_optional (t : typ) (d : option pyval) (md : metadata) :
  options_fit d md = true ->
  options_fit None (optional_metadata (default_metadata t d md)) = true.
Proof.
  destruct md as [[[|]|] an dd [ld|] mf va de], d as [v|]; simpl;
    unfold options_fit, optional_metadata, default_metadata, truthy_required; simpl;
    try discriminate; try reflexivity; destruct (is_optional_type t); reflexivity.
Qed.

Lemma fit_final (t : typ) (d : option pyval) (md : metadata) :
  options_fit d md = true -> options_fit d (default_metadata t d md) = true.
Proof.
  destruct md as [[[|]|] an dd [ld|] mf va de], d as [v|]; simpl;
    unfold options_fit, default_metadata, truthy_required; simpl;
    try discriminate; try reflexivity; destruct (is_optional_type t); reflexivity.
Qed.

Lemma fit_again (t : typ) (md : metadata) :
  options_fit None md = true -> refuses md = false.
Proof.
  destruct md as [[[|]|] an dd [ld|] mf va de]; simpl;
    unfold options_fit, refuses; simpl; try discriminate; reflexivity.
Qed.

Lemma refuses_allow_none (v : option bool) (md : metadata) :
  refuses (set_allow_none v md) = refuses md.
Proof. reflexivity. Qed.

Lemma default_metadata_marshmallow_field (t : typ) (d : option pyval) (md : metadata) :
  md_marshmallow_field (default_metadata t d md) = md_marshmallow_field md.
Proof.
  unfold default_metadata. destruct d as [v|]; simpl; [|reflexivity].
  destruct (negb _); reflexivity.
Qed.

(** ** Records that refer to themselves *)

(** A field whose declared type is [R] itself, once [R] is registered:
    [Nested] is given the registered name. *)
Lemma back_reference_is_forward (E : env) (r : recs) (b : base) (n : string)
    (d : option pyval) (md : metadata) (s : state) :
  plain_record E b n ->
  seen_at_top (TClass n) (e_name E (TClass n)) s ->
  md_marshmallow_field md = None ->
  _field_for_schema E r (TClass n) d md b s
  = construct (F_Nested (N_name (e_name E (TClass n))) (default_metadata (TClass n) d md))
              (default_metadata (TClass n) d md) s.
Proof.
  intros [Hdc Hg Hm He Ha Hn] (c & st & Hs & Hseen & _) Hmd.
  unfold _field_for_schema.
  rewrite default_metadata_marshmallow_field, Hmd.
  cbv beta iota delta [_container_type_add_any in_CONTAINER_TYPES negb].
  rewrite Hm. unfold field_after_final, _field_for_annotated_type,
    _field_for_union_type, _field_for_container_type, bind, ret. simpl.
  rewrite He. unfold nested_of, bind, top, ret. rewrite Ha, Hs, Hseen, Hn.
  reflexivity.
Qed.

Lemma self_hint_field_ok (E : env) (b : base) (n : string) :
  plain_record E b n ->
  forall k t, self_hint E b (TClass n) k t ->
  forall fuel d md s,
    k <= fuel ->
    seen_at_top (TClass n) (e_name E (TClass n)) s ->
    options_fit d md = true ->
    exists f, r_field_for_schema (recs_at E fuel) t d md b s = Ok f s.
Proof.
  intros HR k t Hh.
  induction Hh as [c cls Hc | | k t Hh IH Hnn | k t Hh IH];
    intros fuel d md s Hk Hseen Hfit;
    (destruct fuel as [|fuel]; [lia|]); cbn [recs_at r_field_for_schema].
  - unfold _field_for_schema.
    destruct (md_marshmallow_field _); [eexists; reflexivity|].
    cbv beta iota delta [_container_type_add_any in_CONTAINER_TYPES negb].
    rewrite Hc, construct_ok by (now apply fit_default). eexists. reflexivity.
  - destruct (md_marshmallow_field md) as [p|] eqn:Hmd.
    + unfold _field_for_schema. rewrite default_metadata_marshmallow_field, Hmd.
      eexists. reflexivity.
    + rewrite (back_reference_is_forward E _ b n d md s HR Hseen Hmd),
        construct_ok by (now apply fit_default).
      eexists. reflexivity.
  - unfold _field_for_schema, Optional.
    destruct (md_marshmallow_field _); [eexists; reflexivity|].
    cbv beta iota delta [_container_type_add_any in_CONTAINER_TYPES negb].
    destruct (_field_by_type E _ b);
      [rewrite construct_ok by (now apply fit_default); eexists; reflexivity|].
    unfold field_after_final, _field_for_annotated_type, _field_for_union_type,
      bind, ret. simpl. rewrite Hnn. simpl.
    rewrite orb_true_r.
    match goal with
    | |- context [r_field_for_schema (recs_at E fuel) t None ?m b s] =>
        destruct (IH fuel None m s ltac:(lia) Hseen (fit_optional _ d md Hfit))
          as (f & Hf)
    end.
    rewrite Hf. eexists. reflexivity.
  - unfold _field_for_schema, List_.
    destruct (md_marshmallow_field _); [eexists; reflexivity|].
    cbv beta iota delta [_container_type_add_any in_CONTAINER_TYPES negb].
    destruct (_field_by_type E _ b);
      [rewrite construct_ok by (now apply fit_default); eexists; reflexivity|].
    unfold field_after_final, _field_for_annotated_type, _field_for_union_type,
      _field_for_container_type, child_field, arg_at, bind, ret. simpl.
    destruct (IH fuel None empty_md s ltac:(lia) Hseen eq_refl) as (f & Hf).
    rewrite Hf, found_ok by (now apply fit_default). eexists. reflexivity.
Qed.

Lemma mapM_ok_same_state {A B : Type} (f : A -> M B) (s : state) (l : list A) :
  Forall (fun x => exists y, f x s = Ok y s) l ->
  exists ys, mapM f l s = Ok ys s.
Proof.
  induction 1 as [|x l [y Hy] _ [ys IH]]; simpl.
  - eexists. reflexivity.
  - unfold bind. rewrite Hy, IH. eexists. reflexivity.
Qed.

Lemma registered_first (E : env) (R : typ) (g l : option nat) (s : state) :
  nonempty (e_name E R) = true ->
  exists s1,
    register_seen R (e_name E R) (set_stack (new_SchemaContext g l :: stack s) s)
    = Ok tt s1 /\
    seen_at_top R (e_name E R) s1 /\
    stack s1 = mkCtx [(R, e_name E R)] g l :: stack s.
Proof.
  intros Hn. eexists. split; [reflexivity|]. split; [|reflexivity].
  eexists. eexists. split; [reflexivity|]. simpl. rewrite typ_eqb_refl. auto.
Qed.

Lemma self_referential_body_ok (E : env) (b : base) (n : string)
    (hints : list (string * typ)) (bound fuel : nat) (g : option nat) (s : state) :
  plain_record E b n ->
  e_type_hints E (TClass n) g (e_callers_frame E (TClass n)) = inr hints ->
  self_referential E b (TClass n) hints bound ->
  bound <= fuel ->
  exists schema s',
    _internal_class_schema_body E (recs_at E fuel) (TClass n) b
      (set_stack (new_SchemaContext g (e_callers_frame E (TClass n)) :: stack s) s)
    = Ok schema s' /\
    stack s' = mkCtx [(TClass n, e_name E (TClass n))] g (e_callers_frame E (TClass n))
               :: stack s.
Proof.
  intros HR Hh Hself Hfuel.
  destruct (registered_first E (TClass n) g (e_callers_frame E (TClass n)) s
              (pr_name _ _ _ HR)) as (s1 & Hreg & Hseen & Hst).
  unfold _internal_class_schema_body, reflect_and_build, bind, top.
  simpl stack. cbv iota beta.
  rewrite Hreg.
  assert (Hf : _dataclass_fields E (TClass n) s1 = Ok (e_fields E (TClass n)) s1).
  { unfold _dataclass_fields, dataclasses_fields, is_dataclass.
    rewrite (pr_not_generic _ _ _ HR), (pr_dataclass _ _ _ HR). reflexivity. }
  rewrite Hf. unfold build_schema, bind.
  rewrite (pr_not_generic _ _ _ HR).
  unfold new_SchemaContext. cbn [negb globalns localns].
  rewrite Hh. cbn [lift]. unfold ret at 1.
  match goal with
  | |- context [mapM ?f ?l s1] =>
      destruct (mapM_ok_same_state f s1 l) as (ys & Hys)
  end.
  { unfold self_referential, kept_fields in Hself.
    eapply Forall_impl; [|exact Hself].
    intros fld (k & t & Hhint & Hsh & Hk & Hfit). cbv beta.
    unfold bind. rewrite Hhint.
    destruct (self_hint_field_ok E b n HR k t Hsh fuel (_get_field_default fld)
                (f_metadata fld) s1 ltac:(lia) Hseen Hfit) as (f & Hfld).
    rewrite Hfld. eexists. reflexivity. }
  rewrite Hys. eexists. eexists. split; [reflexivity|]. exact Hst.
Qed.

(** A record [R] with no [Schema] attribute whose fields are primitives,
    [R] itself, [Optional[R]], [List[R]] and the like. The body of
    [_internal_class_schema] registers [R] in the context at the top of the
    stack, under its name, and only then reflects and resolves the fields;
    with [R] registered, a field that refers back to [R] becomes a [Nested]
    field on that name and no compilation of [R] is started; so
    [class_schema(R)] comes to a result, whatever budget beyond the depth
    of the hints is given. *)
Lemma plain_record_self_reference_compiles (E : env) (b : base) (n : string)
    (hints : list (string * typ)) (bound fuel : nat) (s : state) :
  plain_record E b n ->
  e_type_hints E (TClass n) None (e_callers_frame E (TClass n)) = inr hints ->
  self_referential E b (TClass n) hints bound ->
  bound < fuel ->
  (forall r s0 c st, stack s0 = c :: st ->
     exists s1,
       _internal_class_schema_body E r (TClass n) b s0
       = reflect_and_build E r (TClass n) b c (e_name E (TClass n)) s1 /\
       seen_at_top (TClass n) (e_name E (TClass n)) s1) /\
  (forall r d md s1,
      seen_at_top (TClass n) (e_name E (TClass n)) s1 ->
      md_marshmallow_field md = None ->
      _field_for_schema E r (TClass n) d md b s1
      = construct (F_Nested (N_name (e_name E (TClass n))) (default_metadata (TClass n) d md))
                  (default_metadata (TClass n) d md) s1) /\
  (exists schema s', class_schema E fuel (TClass n) b s = Ok schema s' /\
                     stack s' = stack s).
Proof.
  intros HR Hh Hself Hfuel. split; [|split].
  - intros r s0 c st Hs.
    unfold _internal_class_schema_body, bind, top, register_seen.
    rewrite Hs. cbv beta iota. rewrite Hs.
    eexists. split; [reflexivity|].
    eexists. eexists. split; [reflexivity|]. split; [|exact (pr_name _ _ _ HR)].
    simpl. apply dict_get_set_same.
  - intros r d md s1 Hseen Hmd.
    now apply back_reference_is_forward.
  - destruct fuel as [|fuel]; [lia|].
    unfold class_schema, class_schema_body, bind, is_dataclass.
    rewrite (pr_dataclass _ _ _ HR). simpl orb. simpl negb. simpl andb. cbv iota.
    unfold with_, SchemaContext_enter, push.
    assert (Hl : match e_callers_frame E (TClass n) with
                 | Some f => Some f
                 | None => None
                 end = e_callers_frame E (TClass n))
      by (destruct (e_callers_frame E (TClass n)); reflexivity).
    rewrite Hl. simpl r_internal_class_schema. unfold lru_cache.
    set (s1 := set_stack (new_SchemaContext None (e_callers_frame E (TClass n)) :: stack s) s).
    simpl cache.
    destruct (cache_get (TClass n, b) (cache s)) as [v|] eqn:Hc.
    + eexists. eexists. split; reflexivity.
    + destruct (self_referential_body_ok E b n hints bound fuel None s HR Hh Hself
                  ltac:(lia)) as (a & s' & Hbody & Hst).
      fold s1 in Hbody. rewrite Hbody.
      destruct (cache_get (TClass n, b) (cache s'));
        unfold SchemaContext_exit, pop; simpl stack; rewrite Hst;
        eexists; eexists; split; reflexivity.
Qed.

Lemma person_is_plain : plain_record person_table None "Person".
Proof. constructor; reflexivity. Qed.

Lemma person_is_self_referential :
  self_referential person_table None (TClass "Person")
    [("name", TClass "str"); ("friends", List_ (TClass "Person"))] 2.
Proof.
  unfold self_referential, kept_fields. simpl.
  repeat constructor.
  - exists 1, (TClass "str"). split; [reflexivity|]. split; [|split; [lia|reflexivity]].
    apply sh_prim with (cls := "String"). reflexivity.
  - exists 2, (List_ (TClass "Person")). split; [reflexivity|].
    split; [|split; [lia|reflexivity]].
    apply sh_list. apply sh_self.
Qed.

Lemma person_compiles :
  exists schema s',
    class_schema person_table 3 (TClass "Person") None initial_state = Ok schema s' /\
    stack s' = stack initial_state.
Proof.
  exact (proj2 (proj2 (plain_record_self_reference_compiles person_table None "Person"
           [("name", TClass "str"); ("friends", List_ (TClass "Person"))] 2 3
           initial_state person_is_plain eq_refl person_is_self_referential
           ltac:(lia)))).
Qed.

(** ** Optional fields *)

Lemma optional_str_field (E : env) (b : base) (cls : string) (fuel : nat)
    (md : metadata) (s : state) :
  _field_by_type E (TClass "str") b = Some cls ->
  _field_by_type E (Optional (TClass "str")) b = None ->
  2 <= fuel ->
  md_marshmallow_field md = None ->
  md_required md = None ->
  r_field_for_schema (recs_at E fuel) (Optional (TClass "str")) None md b s
  = Ok (F_mapped cls (optional_metadata (set_required (Some false) md))) s.
Proof.
  intros Hstr Hopt Hfuel Hmf Hreq.
  destruct fuel as [|[|fuel]]; try lia. cbn [recs_at r_field_for_schema].
  destruct md as [rq an dd ld mf vl ds]. simpl in Hmf, Hreq. subst rq mf.
  unfold Optional in *.
  unfold _field_for_schema at 1.
  cbn [default_metadata md_required setdefault set_required md_marshmallow_field
       md_allow_none md_dump_default md_load_default md_validate md_description].
  cbv beta iota delta [_container_type_add_any in_CONTAINER_TYPES negb].
  rewrite Hopt.
  unfold field_after_final, _field_for_annotated_type, _field_for_union_type, bind, ret.
  cbn [is_union_type get_args filter is_NoneType negb is_optional_type existsb orb].
  cbn [recs_at r_field_for_schema].
  unfold _field_for_schema.
  cbn [optional_metadata default_metadata md_required setdefault set_required
       md_marshmallow_field md_allow_none md_dump_default md_load_default md_validate
       md_description set_allow_none set_dump_default set_load_default truthy_required
       get_or negb].
  cbv beta iota delta [_container_type_add_any in_CONTAINER_TYPES negb].
  rewrite Hstr. reflexivity.
Qed.

Lemma custom_schema_loads :
  exists schema s fields,
    class_schema custom_table 5 (TClass "Custom") None initial_state = Ok schema s /\
    option_map sc_fields (nth_error (heap s) schema) = Some fields /\
    Schema_load (fun _ v => Some v) (fun _ _ => true) (fun _ => VNone) fields
      [("name", VNone)] = inl [("name", null_message)] /\
    Schema_load (fun _ v => Some v) (fun _ _ => true) (fun _ => VNone) fields []
    = inr [("name", VNone)].
Proof.
  eexists. eexists. eexists.
  split; [vm_compute; reflexivity|].
  split; [vm_compute; reflexivity|].
  split; reflexivity.
Qed.

(** ** Union fields *)

Lemma union_alternatives_types (r : recs) (b : base) (subtypes : list typ) :
  forall s alts s',
    union_alternatives r b subtypes s = Ok alts s' -> map fst alts = subtypes.
Proof.
  unfold union_alternatives.
  induction subtypes as [|t l IH]; simpl; intros s alts s' H.
  - inversion H. reflexivity.
  - unfold bind, ret in H.
    destruct (r_field_for_schema r t None required_md b s) as [f s1|e s1|];
      try discriminate.
    destruct (mapM _ l s1) as [ys s2|e s2|] eqn:Hm; try discriminate.
    inversion H; subst. simpl. f_equal. eapply IH. exact Hm.
Qed.

Lemma union_single (r : recs) (b : base) (arguments : list typ) (T : typ)
    (md : metadata) (s : state) :
  non_null arguments = [T] ->
  _field_for_union_type r (TUnion arguments) b md s
  = match r_field_for_schema r T None (union_metadata arguments md) b s with
    | Ok f s' => Ok (Some f) s'
    | Raise e s' => Raise e s'
    | Diverge => Diverge
    end.
Proof.
  intros H. unfold _field_for_union_type, union_metadata, non_null in *.
  cbn [get_args is_union_type].
  rewrite H. unfold bind, ret. reflexivity.
Qed.

Lemma union_tagged (r : recs) (b : base) (arguments : list typ)
    (md : metadata) (s : state) :
  length (non_null arguments) <> 1 ->
  _field_for_union_type r (TUnion arguments) b md s
  = (alts <- union_alternatives r b (non_null arguments) ;;
     found (F_Union alts (union_metadata arguments md)) (union_metadata arguments md)) s.
Proof.
  intros H. unfold _field_for_union_type, union_metadata, union_alternatives, non_null in *.
  cbn [get_args is_union_type].
  destruct (filter _ arguments) as [|a [|a' l]]; simpl in H; try lia; reflexivity.
Qed.

Lemma first_accepting_iff (tries : list (pyval -> loaded)) (v : pyval) :
  (exists r, first_accepting tries v = Value r) <->
  Exists (fun t => exists r, t v = Value r) tries.
Proof.
  induction tries as [|t l IH]; simpl.
  - split; [intros [r H]; discriminate | intros H; inversion H].
  - destruct (t v) as [r| |msg] eqn:Ht.
    + split; [intros _; left; eauto | intros _; eauto].
    + rewrite IH. split; [intros H; now right|].
      intros H. inversion H as [? ? [r Hr]|]; subst; [congruence | assumption].
    + rewrite IH. split; [intros H; now right|].
      intros H. inversion H as [? ? [r Hr]|]; subst; [congruence | assumption].
Qed.

Lemma union_load_tries (convert : string -> pyval -> option pyval)
    (validator : nat -> pyval -> bool) (call : nat -> pyval)
    (alts : list (typ * field)) (md : metadata) (v : pyval) :
  v <> VNone ->
  load_field convert validator call (F_Union alts md) (Some v)
  = first_accepting
      (map (fun alt v => load_field convert validator call (snd alt) (Some v)) alts) v.
Proof.
  intros Hv. simpl. destruct v; try congruence; simpl; f_equal;
    induction alts as [|[t f] l IH]; simpl; congruence.
Qed.

(** [Union[int, str]]: both shapes are accepted, a boolean is not. *)
Lemma int_or_str_loads :
  exists f s,
    field_for_schema custom_table 3 (TUnion [TClass "int"; TClass "str"]) None empty_md
      None initial_state = Ok f s /\
    (exists md1 md2 md,
        f = F_Union [(TClass "int", F_mapped "Integer" md1);
                     (TClass "str", F_mapped "String" md2)] md) /\
    load_field scalar_convert (fun _ _ => true) (fun _ => VNone) f (Some (VInt 3))
    = Value (VInt 3) /\
    load_field scalar_convert (fun _ _ => true) (fun _ => VNone) f (Some (VStr "a"))
    = Value (VStr "a") /\
    load_field scalar_convert (fun _ _ => true) (fun _ => VNone) f (Some (VBool true))
    = Invalid "Invalid value for every alternative.".
Proof.
  eexists. eexists. split; [vm_compute; reflexivity|].
  split; [eexists; eexists; eexists; reflexivity|].
  split; [reflexivity|]. split; reflexivity.
Qed.

(** ** The per-argument memo of a decorated generic record *)

Lemma args_eqb_eq (a b : list typ) : list_eqb typ_eqb a b = true <-> a = b.
Proof. apply list_eqb_eq. intros x _ y. apply typ_eqb_eq. Qed.

Lemma args_get_set_same (a : list typ) (v : nat) (d : list (list typ * nat)) :
  args_get a (args_set a v d) = Some v.
Proof.
  induction d as [|[a' v'] d IH]; simpl.
  - now rewrite (proj2 (args_eqb_eq a a) eq_refl).
  - destruct (list_eqb typ_eqb a a') eqn:H; simpl; rewrite H; [reflexivity | exact IH].
Qed.

Lemma args_get_set_other (a b : list typ) (v : nat) (d : list (list typ * nat)) :
  a <> b -> args_get a (args_set b v d) = args_get a d.
Proof.
  intros Hab. induction d as [|[a' v'] d IH]; simpl.
  - destruct (list_eqb typ_eqb a b) eqn:H; [|reflexivity].
    apply args_eqb_eq in H. contradiction.
  - destruct (list_eqb typ_eqb b a') eqn:H; simpl.
    + apply args_eqb_eq in H. subst a'.
      destruct (list_eqb typ_eqb a b) eqn:H'; [|reflexivity].
      apply args_eqb_eq in H'. contradiction.
    + now rewrite IH.
Qed.

Lemma memo_dict_put (l : nat) (d : list (list typ * nat))
    (m : list (nat * list (list typ * nat))) :
  memo_dict l (memo_put l d m) = d.
Proof.
  induction m as [|[l' d'] m IH]; simpl.
  - now rewrite Nat.eqb_refl.
  - destruct (Nat.eqb l l') eqn:H; simpl; rewrite H; [reflexivity | exact IH].
Qed.

Lemma get_schema_memoized (E : env) (r : recs) (self : nat) (instance : typ)
    (s : state) (schema : nat) (s' : state) :
  get_schema E r self instance s = Ok schema s' ->
  args_get (get_args instance) (memo_dict self (memos s')) = Some schema.
Proof.
  unfold get_schema. intros H.
  destruct (args_get _ (memo_dict self (memos s))) as [v|] eqn:Hget.
  - inversion H; subst. exact Hget.
  - destruct (r_class_schema r instance _ _ s) as [a s1|e s1|]; try discriminate.
    inversion H; subst. simpl. rewrite memo_dict_put. apply args_get_set_same.
Qed.

(** The accessor of a decorated generic record computes a schema when
    its private dictionary has none for the type arguments, and stores it;
    afterwards the same arguments give the same schema class without any
    compilation (whatever the compiler would do), and a schema stored for
    other arguments is never the answer (for arguments in which no union
    and no [Literal] occurs, so that they are other arguments for Python
    when they are written otherwise). For [SimpleGeneric], the schemas of
    [SimpleGeneric[str]] and [SimpleGeneric[int]] are two classes, and the
    mapping with the string ["a"] is accepted by the first and rejected by
    the second. *)
Lemma generic_schema_per_arguments (E : env) (r : recs) (self : nat)
    (instance : typ) (s : state) (schema : nat) (s' : state) :
  get_schema E r self instance s = Ok schema s' ->
  (forall r' instance',
      get_args instance' = get_args instance ->
      get_schema E r' self instance' s' = Ok schema s') /\
  (forall args v m,
      forallb written_in_order args = true ->
      forallb written_in_order (get_args instance) = true ->
      args <> get_args instance ->
      args_get (get_args instance)
        (memo_dict self (memo_put self (args_set args v (memo_dict self m)) m))
      = args_get (get_args instance) (memo_dict self m)) /\
  (exists a_str a_int s1 s2,
      get_schema generic_table (recs_at generic_table 5) 0
        (TAlias "SimpleGeneric" [TClass "str"]) in_context = Ok a_str s1 /\
      get_schema generic_table (recs_at generic_table 5) 0
        (TAlias "SimpleGeneric" [TClass "int"]) s1 = Ok a_int s2 /\
      a_str <> a_int /\
      Schema_load scalar_convert (fun _ _ => true) (fun _ => VNone)
        (fields_at s2 a_str) [("data1", VStr "a")] = inr [("data1", VStr "a")] /\
      Schema_load scalar_convert (fun _ _ => true) (fun _ => VNone)
        (fields_at s2 a_int) [("data1", VStr "a")] = inl [("data1", "Not a valid value.")]).
Proof.
  intros H. split; [|split].
  - intros r' instance' Hargs. unfold get_schema. rewrite Hargs.
    now rewrite (get_schema_memoized E r self instance s schema s' H).
  - intros args v m _ _ Hne. rewrite memo_dict_put.
    apply args_get_set_other. congruence.
  - eexists. eexists. eexists. eexists.
    split; [vm_compute; reflexivity|].
    split; [vm_compute; reflexivity|].
    split; [discriminate|]. split; vm_compute; reflexivity.
Qed.

Lemma generic_schema_per_arguments_witness :
  exists schema s',
    get_schema generic_table (recs_at generic_table 5) 0
      (TAlias "SimpleGeneric" [TClass "str"]) in_context = Ok schema s' /\
    get_schema generic_table (recs_at generic_table 0) 0
      (TAlias "SimpleGeneric" [TClass "str"]) s' = Ok schema s'.
Proof.
  eexists. eexists.
  assert (H : get_schema generic_table (recs_at generic_table 5) 0
                (TAlias "SimpleGeneric" [TClass "str"]) in_context
              = Ok 0 (match get_schema generic_table (recs_at generic_table 5) 0
                              (TAlias "SimpleGeneric" [TClass "str"]) in_context with
                      | Ok _ s => s
                      | _ => in_context
                      end))
    by (vm_compute; reflexivity).
  split; [exact H|].
  exact (proj1 (generic_schema_per_arguments generic_table (recs_at generic_table 5) 0
                  (TAlias "SimpleGeneric" [TClass "str"]) in_context 0 _ H)
               (recs_at generic_table 0) (TAlias "SimpleGeneric" [TClass "str"]) eq_refl).
Defined.

(** ** The cache of compiled schemas *)

(** A relation between the cache before and after; everything except the
    wrapper of [lru_cache] leaves the cache alone. *)
Section CacheOnly.
Variable Rc : list (cache_key * nat) -> list (cache_key * nat) -> Prop.
Hypothesis Rc_refl : forall c, Rc c c.
Hypothesis Rc_trans : forall a b c, Rc a b -> Rc b c -> Rc a c.
Hypothesis Rc_hit : forall k v c,
  cache_get k c = Some v -> Rc c ((k, v) :: cache_remove k c).
Hypothesis Rc_store : forall k v c,
  cache_get k c = None -> Rc c (firstn MAX_CLASS_SCHEMA_CACHE_SIZE ((k, v) :: c)).

Lemma cache_rel_refl (s : state) : (cache_rel Rc) s s.
Proof. apply Rc_refl. Qed.

Lemma cache_rel_trans (a b c : state) : (cache_rel Rc) a b -> (cache_rel Rc) b c -> (cache_rel Rc) a c.
Proof. apply Rc_trans. Qed.

Lemma cache_rel_same (s s' : state) : cache s' = cache s -> (cache_rel Rc) s s'.
Proof. intros H. unfold cache_rel. rewrite H. apply Rc_refl. Qed.

Ltac cr_side := try exact cache_rel_refl; try exact cache_rel_trans.

Lemma cache_rel_lru (f : typ -> base -> M nat) (t : typ) (b : base) :
  post (cache_rel Rc) (f t b) ->
  post (cache_rel Rc) (lru_cache MAX_CLASS_SCHEMA_CACHE_SIZE f t b).
Proof.
  intros Hf s. specialize (Hf s). unfold post_at, lru_cache in *.
  destruct (cache_get (t, b) (cache s)) as [v|] eqn:Hc.
  - unfold cache_rel. simpl. now apply Rc_hit.
  - destruct (f t b s) as [a s1|e s1|]; auto.
    destruct (cache_get (t, b) (cache s1)) eqn:Hc1; [exact Hf|].
    eapply cache_rel_trans; [exact Hf|]. unfold cache_rel. simpl. now apply Rc_store.
Qed.

Lemma cache_rel_with {A : Type} (g l : option nat) (c : M A) :
  post (cache_rel Rc) c -> post (cache_rel Rc) (with_ (SchemaContext_enter g l) SchemaContext_exit c).
Proof.
  intros Hc s. unfold post_at, with_, SchemaContext_enter, SchemaContext_exit, push, pop.
  specialize (Hc (set_stack (new_SchemaContext g l :: stack s) s)). unfold post_at in Hc.
  destruct (c _) as [a s2|e s2|]; auto; destruct (stack s2); exact Hc.
Qed.

Lemma cache_rel_class_schema_body (E : env) (r : recs) (t : typ) (b : base)
    (f g l : option nat) :
  (forall t' b', post (cache_rel Rc) (r_internal_class_schema r t' b')) ->
  post (cache_rel Rc) (class_schema_body E r t b f g l).
Proof.
  intros Hr. unfold class_schema_body.
  apply post_bind; cr_side.
  - intros s. unfold post_at.
    destruct (_ && _); [|apply cache_rel_refl].
    unfold dataclasses_dataclass. destruct (e_dataclass E t); now apply cache_rel_same.
  - intros t'. apply cache_rel_with. apply Hr.
Qed.

Lemma cache_rel_nested (E : env) (r : recs) (t : typ) (b : base) :
  (forall t' b', post (cache_rel Rc) (r_internal_class_schema r t' b')) ->
  (forall t' b' f', post (cache_rel Rc) (r_class_schema r t' b' f')) ->
  post (cache_rel Rc) (nested_of E r t b).
Proof.
  intros Hi Hc. unfold nested_of.
  destruct (e_Schema E t) as [|l|v].
  - match goal with |- post _ (match ?x with _ => _ end) => destruct x end;
      [apply post_ret; cr_side|].
    apply post_bind; cr_side; [apply post_top; cr_side|]. intros c.
    assert (Hcall : post (cache_rel Rc) (a <- r_internal_class_schema r t b ;; ret (N_schema a))).
    { apply post_bind; cr_side; [apply Hi|]. intros a. apply post_ret; cr_side. }
    destruct (dict_get t (seen_classes c)) as [n|]; [|exact Hcall].
    destruct (nonempty n); [apply post_ret; cr_side | exact Hcall].
  - apply post_bind; cr_side; [|intros a; apply post_ret; cr_side].
    intros s. unfold post_at, get_schema.
    destruct (args_get _ _); [apply cache_rel_refl|].
    specialize (Hc t (e_lazy_base E l) (e_lazy_frame E l) s). unfold post_at in Hc.
    destruct (r_class_schema r t _ _ s); auto.
  - apply post_ret; cr_side.
Qed.

Lemma cache_rel_recs (E : env) (fuel : nat) :
  (forall t d md b, post (cache_rel Rc) (r_field_for_schema (recs_at E fuel) t d md b)) /\
  (forall t b, post (cache_rel Rc) (r_internal_class_schema (recs_at E fuel) t b)) /\
  (forall t b f, post (cache_rel Rc) (r_class_schema (recs_at E fuel) t b f)).
Proof.
  induction fuel as [|n [IHf [IHi IHc]]]; simpl.
  - repeat split; intros; intros s; exact I.
  - assert (Hw : forall m, post (cache_rel Rc) (warn m))
      by (intros m s; now apply cache_rel_same).
    assert (Hn : forall t b, post (cache_rel Rc) (nested_of E (recs_at E n) t b))
      by (intros; now apply cache_rel_nested).
    repeat split; intros.
    + apply post_field_for_schema; cr_side; auto.
    + apply cache_rel_lru. apply post_body; cr_side; auto.
      * intros t0 s. unfold post_at, dataclasses_dataclass.
        destruct (e_dataclass E t0); now apply cache_rel_same.
      * intros s h. now apply cache_rel_same.
      * intros t0 s. unfold post_at, register_seen.
        destruct (stack s); now apply cache_rel_same.
    + apply cache_rel_class_schema_body. exact IHi.
Qed.

Lemma cache_rel_class_schema (E : env) (fuel : nat) (t : typ) (b : base) :
  post (cache_rel Rc) (class_schema E fuel t b).
Proof.
  apply cache_rel_class_schema_body. apply (cache_rel_recs E fuel).
Qed.
End CacheOnly.

Lemma cache_remove_length (k : cache_key) (c : list (cache_key * nat)) (v : nat) :
  cache_get k c = Some v -> S (length (cache_remove k c)) <= length c.
Proof.
  induction c as [|[k' v'] c IH]; simpl; [discriminate|].
  destruct (key_eqb k k') eqn:H; simpl; intros Hg.
  - apply le_n_S. apply filter_length_le.
  - apply le_n_S. now apply IH.
Qed.

(** The cache never holds more than [MAX_CLASS_SCHEMA_CACHE_SIZE] entries:
    once within the bound, always within. *)
Lemma cache_bounded (E : env) (fuel : nat) (t : typ) (b : base) (s : state) :
  length (cache s) <= MAX_CLASS_SCHEMA_CACHE_SIZE ->
  match class_schema E fuel t b s with
  | Ok _ s' => length (cache s') <= MAX_CLASS_SCHEMA_CACHE_SIZE
  | Raise _ s' => length (cache s') <= MAX_CLASS_SCHEMA_CACHE_SIZE
  | Diverge => True
  end.
Proof.
  intros Hs.
  assert (H : post (cache_rel within_bound) (class_schema E fuel t b)).
  { apply cache_rel_class_schema; unfold within_bound.
    - auto.
    - auto.
    - intros k v c Hg Hl. simpl. pose proof (cache_remove_length k c v Hg). lia.
    - intros. apply firstn_le_length. }
  specialize (H s). unfold post_at, cache_rel, within_bound in H.
  destruct (class_schema E fuel t b s); auto.
Qed.

Lemma cache_bounded_witness :
  match class_schema person_table 5 (TClass "Person") None initial_state with
  | Ok _ s' => length (cache s') <= MAX_CLASS_SCHEMA_CACHE_SIZE
  | Raise _ s' => length (cache s') <= MAX_CLASS_SCHEMA_CACHE_SIZE
  | Diverge => True
  end.
Proof. apply cache_bounded. simpl. apply Nat.le_0_l. Defined.

(** Storing into a full cache drops the entry used longest ago (the last
    of the list) and nothing else; a hit moves the entry to the front and
    keeps the others in their order. *)
Lemma lru_evicts_oldest (k : cache_key) (v : nat) (c : list (cache_key * nat)) :
  length c = MAX_CLASS_SCHEMA_CACHE_SIZE ->
  firstn MAX_CLASS_SCHEMA_CACHE_SIZE ((k, v) :: c) = (k, v) :: removelast c.
Proof.
  intros H. unfold MAX_CLASS_SCHEMA_CACHE_SIZE in *.
  change (firstn 1024 ((k, v) :: c)) with ((k, v) :: firstn 1023 c).
  f_equal. rewrite removelast_firstn_len. rewrite H. reflexivity.
Qed.

Lemma lru_keeps_when_room (k : cache_key) (v : nat) (c : list (cache_key * nat)) :
  length c < MAX_CLASS_SCHEMA_CACHE_SIZE ->
  firstn MAX_CLASS_SCHEMA_CACHE_SIZE ((k, v) :: c) = (k, v) :: c.
Proof. intros H. apply firstn_all2. simpl. lia. Qed.

(** ** Compiling twice, without decorated records

    When no class carries a [LazyGenericSchema], every compilation nested
    in the compilation of [R] runs in the context where [R] is registered,
    so nothing is stored under the key of [R] before [R] itself is. *)

Lemma key_eqb_neq (a b : cache_key) : a <> b -> key_eqb a b = false.
Proof.
  intros H. destruct (key_eqb a b) eqn:He; [|reflexivity].
  apply key_eqb_eq in He. contradiction.
Qed.

Lemma cache_get_remove_none (K k : cache_key) (c : list (cache_key * nat)) :
  cache_get K c = None -> cache_get K (cache_remove k c) = None.
Proof.
  induction c as [|[k' v'] c IH]; simpl; [reflexivity|].
  destruct (key_eqb K k') eqn:H; [discriminate|]. intros Hg.
  destruct (negb (key_eqb k k')); simpl; [rewrite H|]; now apply IH.
Qed.

Lemma cache_get_firstn_none (K : cache_key) (n : nat) (c : list (cache_key * nat)) :
  cache_get K c = None -> cache_get K (firstn n c) = None.
Proof.
  revert n. induction c as [|[k' v'] c IH]; intros [|n]; simpl; try reflexivity.
  destruct (key_eqb K k') eqn:H; [discriminate|]. apply IH.
Qed.

Section CompileTwice.
Variable E : env.
Variable R : typ.
Variable B : base.
Hypothesis no_lazy : forall t l, e_Schema E t <> A_lazy_generic l.
Hypothesis named : nonempty (e_name E R) = true.

Lemma keeps_pending_refl (s : state) : (keeps_pending E R B) s s.
Proof. intros H. exact H. Qed.

Lemma keeps_pending_trans (a b c : state) :
  (keeps_pending E R B) a b -> (keeps_pending E R B) b c -> (keeps_pending E R B) a c.
Proof. unfold keeps_pending. auto. Qed.

Lemma keeps_pending_same (s s' : state) :
  stack s' = stack s -> cache s' = cache s -> (keeps_pending E R B) s s'.
Proof. intros H1 H2. unfold keeps_pending, pending. now rewrite H1, H2. Qed.

Ltac kp_side := try exact keeps_pending_refl; try exact keeps_pending_trans.

Lemma keeps_pending_seen (t : typ) : post (keeps_pending E R B) (register_seen t (e_name E t)).
Proof.
  intros s. unfold post_at, register_seen.
  destruct (stack s) as [|c st] eqn:Hs; [apply keeps_pending_refl|].
  intros [(c0 & st0 & Hst & Hget) Hc]. rewrite Hs in Hst. inversion Hst; subst c0 st0.
  split; [|exact Hc]. eexists. eexists. split; [reflexivity|]. simpl.
  destruct (typ_eqb R t) eqn:Ht.
  - apply typ_eqb_eq in Ht. subst t. apply dict_get_set_same.
  - rewrite dict_get_set_other; [exact Hget|].
    intros ->. now rewrite typ_eqb_refl in Ht.
Qed.

Lemma keeps_pending_lru (f : typ -> base -> M nat) (t : typ) (b : base) :
  (t, b) <> (R, B) ->
  post (keeps_pending E R B) (f t b) ->
  post (keeps_pending E R B) (lru_cache MAX_CLASS_SCHEMA_CACHE_SIZE f t b).
Proof.
  intros Hk Hf s. specialize (Hf s). unfold post_at, lru_cache in *.
  assert (Hne : key_eqb (R, B) (t, b) = false) by (apply key_eqb_neq; congruence).
  destruct (cache_get (t, b) (cache s)) as [v|] eqn:Hc.
  - intros [Hseen Hnone]. split; [exact Hseen|]. simpl. rewrite Hne.
    now apply cache_get_remove_none.
  - destruct (f t b s) as [a s1|e s1|]; auto.
    destruct (cache_get (t, b) (cache s1)) eqn:Hc1; [exact Hf|].
    intros Hp. destruct (Hf Hp) as [Hseen Hnone]. split; [exact Hseen|].
    cbn [cache set_cache]. apply cache_get_firstn_none. simpl. now rewrite Hne.
Qed.

Lemma keeps_pending_nested (r : recs) (t : typ) (b : base) :
  (forall t' b', (t', b') <> (R, B) ->
                 post (keeps_pending E R B) (r_internal_class_schema r t' b')) ->
  post (keeps_pending E R B) (nested_of E r t b).
Proof.
  intros Hi. unfold nested_of.
  destruct (e_Schema E t) as [|l|v] eqn:Ha.
  - match goal with |- post _ (match ?x with _ => _ end) => destruct x end;
      [apply post_ret; kp_side|].
    intros s. unfold post_at, bind, top.
    destruct (stack s) as [|c st] eqn:Hs; [apply keeps_pending_refl|].
    assert (Hcall : dict_get t (seen_classes c) = None \/
                    (exists n, dict_get t (seen_classes c) = Some n /\ nonempty n = false) ->
              match (a <- r_internal_class_schema r t b ;; ret (N_schema a)) s with
              | Ok _ s' => (keeps_pending E R B) s s'
              | Raise _ s' => (keeps_pending E R B) s s'
              | Diverge => True
              end).
    { intros Hunseen.
      assert (Hp : (pending E R B) s -> (t, b) <> (R, B)).
      { intros [(c0 & st0 & Hst & Hget) _] Heq. inversion Heq; subst t b.
        rewrite Hs in Hst. inversion Hst; subst c0 st0.
        destruct Hunseen as [Hn | (n & Hn & Hemp)]; rewrite Hn in Hget; [discriminate|].
        inversion Hget; subst n. rewrite named in Hemp. discriminate. }
      unfold bind, ret.
      destruct (r_internal_class_schema r t b s) as [a s1|e s1|] eqn:Hrun; auto;
        intros Hpend; specialize (Hi t b (Hp Hpend) s); unfold post_at in Hi;
        rewrite Hrun in Hi; auto. }
    destruct (dict_get t (seen_classes c)) as [n|] eqn:Hg.
    + destruct (nonempty n) eqn:Hn; [apply keeps_pending_refl|].
      apply Hcall. right. eauto.
    + apply Hcall. now left.
  - exfalso. exact (no_lazy t l Ha).
  - apply post_ret; kp_side.
Qed.

Lemma keeps_pending_recs (fuel : nat) :
  (forall t d md b, post (keeps_pending E R B) (r_field_for_schema (recs_at E fuel) t d md b)) /\
  (forall t b, (t, b) <> (R, B) ->
               post (keeps_pending E R B) (r_internal_class_schema (recs_at E fuel) t b)).
Proof.
  induction fuel as [|n [IHf IHi]]; simpl.
  - split; intros; intros s; exact I.
  - assert (Hw : forall m, post (keeps_pending E R B) (warn m))
      by (intros m s; now apply keeps_pending_same).
    assert (Hc : forall t, post (keeps_pending E R B) (dataclasses_dataclass E t)).
    { intros t s. unfold post_at, dataclasses_dataclass.
      destruct (e_dataclass E t); now apply keeps_pending_same. }
    assert (Ha : forall s h, (keeps_pending E R B) s (set_heap h s))
      by (intros; now apply keeps_pending_same).
    assert (Hn : forall t b, post (keeps_pending E R B) (nested_of E (recs_at E n) t b))
      by (intros; now apply keeps_pending_nested).
    split; intros.
    + apply post_field_for_schema; kp_side; auto.
    + apply keeps_pending_lru; [assumption|].
      apply post_body; kp_side; auto using keeps_pending_seen.
Qed.
End CompileTwice.

Lemma cache_get_stored (k : cache_key) (v : nat) (c : list (cache_key * nat)) :
  cache_get k (firstn MAX_CLASS_SCHEMA_CACHE_SIZE ((k, v) :: c)) = Some v.
Proof.
  unfold MAX_CLASS_SCHEMA_CACHE_SIZE.
  change (firstn 1024 ((k, v) :: c)) with ((k, v) :: firstn 1023 c).
  simpl. now rewrite key_eqb_refl.
Qed.

Lemma body_stores_nothing_else (E : env) (R : typ) (B : base) (r : recs)
    (s : state) (schema : nat) (s' : state) :
  (forall t l, e_Schema E t <> A_lazy_generic l) ->
  nonempty (e_name E R) = true ->
  (forall t d md b, post (keeps_pending E R B) (r_field_for_schema r t d md b)) ->
  (forall s0 a s1, r_internal_class_schema r R B s0 = Ok a s1 ->
                   cache_get (R, B) (cache s1) = Some a) ->
  cache_get (R, B) (cache s) = None ->
  _internal_class_schema_body E r R B s = Ok schema s' ->
  cache_get (R, B) (cache s') = None \/ cache_get (R, B) (cache s') = Some schema.
Proof.
  intros no_lazy named Hffs Hretry Hnone Hrun.
  unfold _internal_class_schema_body, reflect_and_build, bind, top, register_seen in Hrun.
  destruct (stack s) as [|c st] eqn:Hs; [discriminate|]. rewrite Hs in Hrun.
  set (s0 := set_stack _ s) in Hrun.
  assert (Hp : pending E R B s0).
  { split; [|exact Hnone]. eexists. eexists. split; [reflexivity|].
    simpl. apply dict_get_set_same. }
  pose proof (_dataclass_fields_state E R s0) as Hst.
  destruct (_dataclass_fields E R s0) as [fields s1|e s1|]; [subst s1..|discriminate].
  - left.
    assert (Hb : post (keeps_pending E R B)
                   (build_schema E r R B c (e_name E R) fields)).
    { apply post_build_schema;
        try exact (keeps_pending_refl E R B); try exact (keeps_pending_trans E R B);
        auto.
      intros s2 h. now apply keeps_pending_same. }
    specialize (Hb s0). unfold post_at in Hb. rewrite Hrun in Hb.
    exact (proj2 (Hb Hp)).
  - right.
    destruct (isinstance_UnboundTypeVarError e); [discriminate|].
    destruct (isinstance_TypeError e); [|discriminate].
    unfold try_except, convert_and_retry, bind, warn, dataclasses_dataclass in Hrun.
    destruct (e_dataclass E R) as [exc|].
    + unfold retry_handlers, raise in Hrun.
      destruct (isinstance_UnboundTypeVarError exc); discriminate.
    + destruct (r_internal_class_schema r R B _) as [a s2|exc s2|] eqn:Hin;
        [|unfold retry_handlers, raise in Hrun;
          destruct (isinstance_UnboundTypeVarError exc); discriminate
         |discriminate].
      inversion Hrun; subst. eapply Hretry. exact Hin.
Qed.

Lemma wrapper_stores (E : env) (R : typ) (B : base) :
  (forall t l, e_Schema E t <> A_lazy_generic l) ->
  nonempty (e_name E R) = true ->
  forall fuel s schema s',
    r_internal_class_schema (recs_at E fuel) R B s = Ok schema s' ->
    cache_get (R, B) (cache s') = Some schema.
Proof.
  intros no_lazy named. induction fuel as [|n IH]; simpl; intros s schema s' Hrun;
    [discriminate|].
  unfold lru_cache in Hrun.
  destruct (cache_get (R, B) (cache s)) as [v|] eqn:Hc.
  - inversion Hrun; subst. simpl. now rewrite key_eqb_refl.
  - destruct (_internal_class_schema_body E (recs_at E n) R B s) as [a s1|e s1|] eqn:Hb;
      try discriminate.
    destruct (body_stores_nothing_else E R B (recs_at E n) s a s1 no_lazy named
                (proj1 (keeps_pending_recs E R B no_lazy named n)) IH Hc Hb)
      as [Hn | Hs].
    + rewrite Hn in Hrun. inversion Hrun; subst. cbn [cache set_cache].
      apply cache_get_stored.
    + rewrite Hs in Hrun. inversion Hrun; subst. exact Hs.
Qed.

(** Compiling a dataclass twice in a row gives the identical schema class,
    as long as no class of the program has a [Schema] attribute: none is
    decorated with [dataclass] or [add_schema] of this library, and none
    holds a schema of its own. *)
Lemma compile_twice_identical (E : env) (R : typ) (B : base) (fuel fuel' : nat)
    (s : state) (schema : nat) (s1 : state) :
  (forall t, e_Schema E t = A_none) ->
  nonempty (e_name E R) = true ->
  e_is_dataclass E R = true ->
  class_schema E fuel R B s = Ok schema s1 ->
  exists s2, class_schema E (S fuel') R B s1 = Ok schema s2.
Proof.
  intros no_Schema named Hdc Hrun.
  assert (no_lazy : forall t l, e_Schema E t <> A_lazy_generic l)
    by (intros t l H; rewrite no_Schema in H; discriminate).
  unfold class_schema, class_schema_body, bind, is_dataclass in *.
  rewrite Hdc in *. cbn [orb negb andb] in *.
  unfold with_, SchemaContext_enter, SchemaContext_exit, push, pop in *.
  match type of Hrun with
  | context [r_internal_class_schema _ R B ?s0] =>
      destruct (r_internal_class_schema (recs_at E fuel) R B s0) as [a s'|e s'|] eqn:Hin
  end; try discriminate.
  - pose proof (wrapper_stores E R B no_lazy named fuel _ a s' Hin) as Hstored.
    destruct (stack s') as [|c st] eqn:Hst; [discriminate|].
    inversion Hrun; subst schema s1. clear Hrun.
    cbn [recs_at r_internal_class_schema]. unfold lru_cache.
    cbn [cache set_stack]. rewrite Hstored.
    cbn [stack set_cache set_stack]. eexists. reflexivity.
  - destruct (stack s'); discriminate.
Qed.

Lemma compile_twice_identical_witness :
  exists schema s1 s2,
    class_schema person_table 5 (TClass "Person") None initial_state = Ok schema s1 /\
    class_schema person_table 1 (TClass "Person") None s1 = Ok schema s2.
Proof.
  assert (H : class_schema person_table 5 (TClass "Person") None initial_state
              = Ok 0 (match class_schema person_table 5 (TClass "Person") None
                              initial_state with
                      | Ok _ s => s
                      | _ => initial_state
                      end))
    by (vm_compute; reflexivity).
  destruct (compile_twice_identical person_table (TClass "Person") None 5 0
              initial_state 0 _ (fun t => eq_refl) eq_refl eq_refl H) as [s2 H2].
  exists 0. eexists. exists s2. split; [exact H | exact H2].
Defined.

(** ** More budget changes no outcome *)

Lemma approxM_refl {A : Type} (c : M A) : approxM c c.
Proof. intros s. now right. Qed.

Lemma approxM_bind {A B : Type} (c c' : M A) (k k' : A -> M B) :
  approxM c c' -> (forall a, approxM (k a) (k' a)) ->
  approxM (bind c k) (bind c' k').
Proof.
  intros Hc Hk s. unfold bind. destruct (Hc s) as [H | H].
  - left. now rewrite H.
  - rewrite <- H. destruct (c s) as [a s1|e s1|]; [apply Hk | now right | now left].
Qed.

Lemma approxM_bind_same {A B : Type} (c : M A) (k k' : A -> M B) :
  (forall a, approxM (k a) (k' a)) -> approxM (bind c k) (bind c k').
Proof. intros Hk. apply approxM_bind; [apply approxM_refl | exact Hk]. Qed.

Lemma approxM_mapM {A B : Type} (f f' : A -> M B) (l : list A) :
  (forall x, approxM (f x) (f' x)) -> approxM (mapM f l) (mapM f' l).
Proof.
  intros Hf. induction l as [|x l IH]; simpl; [apply approxM_refl|].
  apply approxM_bind; [apply Hf|]. intros y.
  apply approxM_bind; [apply IH|]. intros ys. apply approxM_refl.
Qed.

Lemma approxM_try_except {A : Type} (c c' : M A) (h : exn -> M A) :
  approxM c c' -> approxM (try_except c h) (try_except c' h).
Proof.
  intros Hc s. unfold try_except. destruct (Hc s) as [H | H].
  - left. now rewrite H.
  - rewrite <- H. now right.
Qed.

Lemma approxM_with {A : Type} (enter exit_ : M unit) (c c' : M A) :
  approxM c c' -> approxM (with_ enter exit_ c) (with_ enter exit_ c').
Proof.
  intros Hc s. unfold with_. destruct (enter s) as [u s1|e s1|]; try now right.
  destruct (Hc s1) as [H | H].
  - left. now rewrite H.
  - rewrite <- H. now right.
Qed.

Lemma approxM_lru (n : nat) (f f' : typ -> base -> M nat) (t : typ) (b : base) :
  approxM (f t b) (f' t b) -> approxM (lru_cache n f t b) (lru_cache n f' t b).
Proof.
  intros Hf s. unfold lru_cache.
  destruct (cache_get (t, b) (cache s)); [now right|].
  destruct (Hf s) as [H | H].
  - left. now rewrite H.
  - rewrite <- H. now right.
Qed.

Section Monotone.
Variable E : env.
Variables r r' : recs.
Hypothesis Hr : refines r r'.

Lemma approxM_child (b : base) (t : typ) : approxM (child_field r b t) (child_field r' b t).
Proof. apply (ref_field _ _ Hr). Qed.

Lemma approxM_container (t : typ) (b : base) (md : metadata) :
  approxM (_field_for_container_type E r t b md) (_field_for_container_type E r' t b md).
Proof.
  unfold _field_for_container_type.
  destruct (get_origin t) as [o|]; [|apply approxM_refl].
  destruct o;
    try (apply approxM_bind_same; intros a0;
         apply approxM_bind; [apply approxM_child|]; intros c; apply approxM_refl);
    try (apply approxM_bind_same; intros a0;
         apply approxM_bind; [apply approxM_child|]; intros k;
         apply approxM_bind_same; intros a1;
         apply approxM_bind; [apply approxM_child|]; intros v; apply approxM_refl).
  assert (Hgen : forall l,
    approxM (children <- mapM (child_field r b) l ;; tuple_field E b children md)
            (children <- mapM (child_field r' b) l ;; tuple_field E b children md)).
  { intros l. apply approxM_bind; [apply approxM_mapM; intros x; apply approxM_child|].
    intros c. apply approxM_refl. }
  destruct (get_args t) as [|a0 [|a1 l]]; try apply Hgen.
  destruct a1; try apply Hgen; destruct l; try apply Hgen.
  apply approxM_bind; [apply approxM_child|]. intros c. apply approxM_refl.
Qed.

Lemma approxM_union (t : typ) (b : base) (md : metadata) :
  approxM (_field_for_union_type r t b md) (_field_for_union_type r' t b md).
Proof.
  unfold _field_for_union_type.
  destruct (is_union_type t); [|apply approxM_refl].
  set (md' := if is_optional_type t then optional_metadata md else md).
  assert (Hgen : forall subtypes,
    approxM (alts <- mapM (fun subtyp =>
               f <- r_field_for_schema r subtyp None required_md b ;;
               ret (subtyp, f)) subtypes ;; found (F_Union alts md') md')
            (alts <- mapM (fun subtyp =>
               f <- r_field_for_schema r' subtyp None required_md b ;;
               ret (subtyp, f)) subtypes ;; found (F_Union alts md') md')).
  { intros subtypes. apply approxM_bind.
    - apply approxM_mapM. intros x. apply approxM_bind; [apply (ref_field _ _ Hr)|].
      intros f. apply approxM_refl.
    - intros alts. apply approxM_refl. }
  destruct (filter (fun a => negb (is_NoneType a)) (get_args t)) as [|a0 [|a1 l]];
    try apply Hgen.
  apply approxM_bind; [apply (ref_field _ _ Hr)|]. intros f. apply approxM_refl.
Qed.

Lemma approxM_get_schema (l : nat) (t : typ) :
  approxM (get_schema E r l t) (get_schema E r' l t).
Proof.
  intros s. unfold get_schema.
  destruct (args_get _ _); [now right|].
  destruct (ref_class _ _ Hr t (e_lazy_base E l) (e_lazy_frame E l) s) as [H | H].
  - left. now rewrite H.
  - rewrite <- H. now right.
Qed.

Lemma approxM_nested (t : typ) (b : base) :
  approxM (nested_of E r t b) (nested_of E r' t b).
Proof.
  unfold nested_of. destruct (e_Schema E t).
  - match goal with |- approxM (match ?x with _ => _ end) _ => destruct x end;
      [apply approxM_refl|].
    apply approxM_bind_same. intros c.
    assert (Hcall : approxM (a <- r_internal_class_schema r t b ;; ret (N_schema a))
                            (a <- r_internal_class_schema r' t b ;; ret (N_schema a))).
    { apply approxM_bind; [apply (ref_internal _ _ Hr)|]. intros a. apply approxM_refl. }
    destruct (dict_get t (seen_classes c)) as [n|]; [|exact Hcall].
    destruct (nonempty n); [apply approxM_refl | exact Hcall].
  - apply approxM_bind; [apply approxM_get_schema|]. intros a. apply approxM_refl.
  - apply approxM_refl.
Qed.

Lemma approxM_after_final (t : typ) (d : option pyval) (md : metadata) (b : base) :
  approxM (field_after_final E r t d md b) (field_after_final E r' t d md b).
Proof.
  unfold field_after_final.
  apply approxM_bind_same. intros [f|]; [apply approxM_refl|].
  apply approxM_bind; [apply approxM_union|]. intros [f|]; [apply approxM_refl|].
  apply approxM_bind; [apply approxM_container|]. intros [f|]; [apply approxM_refl|].
  match goal with
  | |- approxM (match ?x with _ => _ end) _ => destruct x as [[n st]|]
  end.
  - unfold _field_by_supertype.
    destruct (e_marshmallow_field E n); [apply approxM_refl | apply (ref_field _ _ Hr)].
  - destruct (e_is_enum E t); [apply approxM_refl|].
    apply approxM_bind; [apply approxM_nested|]. intros n. apply approxM_refl.
Qed.

Lemma approxM_field_for_schema (t : typ) (d : option pyval) (md : metadata) (b : base) :
  approxM (_field_for_schema E r t d md b) (_field_for_schema E r' t d md b).
Proof.
  unfold _field_for_schema.
  destruct t; try apply approxM_refl;
    (destruct (md_marshmallow_field _); [apply approxM_refl|];
     match goal with
     | |- approxM (match ?x with _ => _ end) _ => destruct x; [apply approxM_refl|]
     end;
     cbv beta iota delta [_container_type_add_any];
     try apply approxM_after_final).
  all: try apply approxM_refl.
  all: try (destruct b0; try apply approxM_after_final).
  apply approxM_bind_same. intros x. apply (ref_field _ _ Hr).
Qed.

Lemma approxM_build_schema (t : typ) (b : base) (c : SchemaContext) (n : string)
    (fs : list dc_field) :
  approxM (build_schema E r t b c n fs) (build_schema E r' t b c n fs).
Proof.
  unfold build_schema.
  apply approxM_bind_same. intros hints.
  apply approxM_bind; [|intros fields; apply approxM_refl].
  apply approxM_mapM. intros fld. apply approxM_bind_same. intros ty.
  apply approxM_bind; [apply (ref_field _ _ Hr)|]. intros f. apply approxM_refl.
Qed.

Lemma approxM_body (t : typ) (b : base) :
  approxM (_internal_class_schema_body E r t b) (_internal_class_schema_body E r' t b).
Proof.
  unfold _internal_class_schema_body.
  apply approxM_bind_same. intros c. apply approxM_bind_same. intros _ s.
  unfold reflect_and_build.
  destruct (_dataclass_fields E t s) as [fs s1|e s1|]; [| |now right].
  - apply approxM_build_schema.
  - destruct (isinstance_UnboundTypeVarError e); [now right|].
    destruct (isinstance_TypeError e); [|now right].
    apply approxM_try_except. unfold convert_and_retry.
    apply approxM_bind_same. intros _. apply approxM_bind_same. intros t'.
    apply (ref_internal _ _ Hr).
Qed.

Lemma approxM_class_schema_body (t : typ) (b : base) (f g l : option nat) :
  approxM (class_schema_body E r t b f g l) (class_schema_body E r' t b f g l).
Proof.
  unfold class_schema_body. apply approxM_bind_same. intros t'.
  apply approxM_with. apply (ref_internal _ _ Hr).
Qed.
End Monotone.

Lemma recs_at_refines_succ (E : env) (fuel : nat) :
  refines (recs_at E fuel) (recs_at E (S fuel)).
Proof.
  induction fuel as [|n IH].
  - constructor; intros; intros s; now left.
  - constructor; intros.
    + apply approxM_field_for_schema. exact IH.
    + apply approxM_lru. apply approxM_body. exact IH.
    + apply approxM_class_schema_body. exact IH.
Qed.

Lemma refines_trans (r1 r2 r3 : recs) : refines r1 r2 -> refines r2 r3 -> refines r1 r3.
Proof.
  intros [F1 I1 C1] [F2 I2 C2].
  assert (T : forall A (a b c : outcome A), approx a b -> approx b c -> approx a c).
  { intros A a b c [H | H] [H' | H']; unfold approx; subst; auto. }
  constructor; intros; intros s.
  - eapply T; [apply F1 | apply F2].
  - eapply T; [apply I1 | apply I2].
  - eapply T; [apply C1 | apply C2].
Qed.

Lemma recs_at_refines (E : env) (fuel fuel' : nat) :
  fuel <= fuel' -> refines (recs_at E fuel) (recs_at E fuel').
Proof.
  induction 1 as [|m Hle IH].
  - constructor; intros; apply approxM_refl.
  - eapply refines_trans; [exact IH | apply recs_at_refines_succ].
Qed.

(** A run of [class_schema] that comes to an end with some budget comes to
    the same end with any larger budget. *)
Lemma class_schema_more_fuel (E : env) (fuel fuel' : nat) (t : typ) (b : base)
    (s : state) :
  fuel <= fuel' ->
  class_schema E fuel t b s <> Diverge ->
  class_schema E fuel' t b s = class_schema E fuel t b s.
Proof.
  intros Hle Hnd. unfold class_schema in *.
  destruct (approxM_class_schema_body E _ _ (recs_at_refines E fuel fuel' Hle)
              t b None None None s) as [H | H]; [contradiction | now rewrite H].
Qed.

Lemma field_for_schema_more_fuel (E : env) (fuel fuel' : nat) (t : typ)
    (d : option pyval) (md : metadata) (b : base) (s : state) :
  fuel <= fuel' ->
  field_for_schema E fuel t d md b s <> Diverge ->
  field_for_schema E fuel' t d md b s = field_for_schema E fuel t d md b s.
Proof.
  intros Hle Hnd. unfold field_for_schema, field_for_schema_body in *.
  destruct (approxM_with (SchemaContext_enter None None) SchemaContext_exit _ _
              (ref_field _ _ (recs_at_refines E fuel fuel' Hle) t d md b) s)
    as [H | H]; [contradiction | now rewrite H].
Qed.

Lemma get_schema_more_fuel (E : env) (fuel fuel' : nat) (l : nat) (t : typ) (s : state) :
  fuel <= fuel' ->
  get_schema E (recs_at E fuel) l t s <> Diverge ->
  get_schema E (recs_at E fuel') l t s = get_schema E (recs_at E fuel) l t s.
Proof.
  intros Hle Hnd.
  destruct (approxM_get_schema E _ _ (recs_at_refines E fuel fuel' Hle) l t s)
    as [H | H]; [contradiction | now rewrite H].
Qed.

(** ** An unresolved type variable on its way out *)

Lemma runs_mapM {A B : Type} (f : A -> M B) (l : list A) (s s' : state) :
  runs f l s s' -> exists ys, mapM f l s = Ok ys s'.
Proof.
  induction 1 as [s|x l s s1 s2 y Hx _ [ys IH]]; simpl.
  - eexists. reflexivity.
  - unfold bind. rewrite Hx, IH. eexists. reflexivity.
Qed.

Lemma runs_then_raises {A B : Type} (f : A -> M B) (pre : list A) (x : A)
    (post : list A) (s s1 : state) (e : exn) (s2 : state) :
  runs f pre s s1 -> f x s1 = Raise e s2 ->
  mapM f (pre ++ x :: post)%list s = Raise e s2.
Proof.
  intros Hr Hx. destruct (runs_mapM f pre s s1 Hr) as [ys Hys].
  eapply mapM_raises; eauto.
Qed.

Lemma runs_impl {A B C : Type} (f : A -> M B) (g : A -> M C) (l : list A) (s s' : state) :
  (forall x s0 y s1, f x s0 = Ok y s1 -> exists z, g x s0 = Ok z s1) ->
  runs f l s s' -> runs g l s s'.
Proof.
  intros H. induction 1 as [s|x l s s1 s2 y Hx _ IH]; [constructor|].
  destruct (H x s y s1 Hx) as [z Hz]. econstructor; eauto.
Qed.

(** The rules of [_field_for_schema] before the one for [Final] do not
    apply to a hint that is no container written without arguments, once
    no field is predefined and no field class is mapped to it. *)
Lemma synthesis_after_final (E : env) (r : recs) (t : typ) (d : option pyval)
    (md : metadata) (b : base) :
  md_marshmallow_field md = None ->
  _field_by_type E t b = None ->
  match t with
  | TUnion _ | TContainer _ _ | TNewType _ | TClass _ | TAlias _ _ => True
  | _ => False
  end ->
  _field_for_schema E r t d md b
  = field_after_final E r t d (default_metadata t d md) b.
Proof.
  intros Hmd Hmap Ht. unfold _field_for_schema.
  rewrite default_metadata_marshmallow_field, Hmd.
  destruct t; try contradiction;
    cbn [_container_type_add_any in_CONTAINER_TYPES negb]; now rewrite Hmap.
Qed.

Lemma container_after_final (E : env) (r : recs) (o : origin) (args : list typ)
    (d : option pyval) (md : metadata) (b : base) (s : state) (e : exn) (s' : state) :
  _field_for_container_type E r (TContainer o args) b md s = Raise e s' ->
  field_after_final E r (TContainer o args) d md b s = Raise e s'.
Proof.
  intros H. unfold field_after_final, _field_for_annotated_type, _field_for_union_type.
  cbn [is_union_type]. do 2 (bind_step reflexivity).
  now apply bind_raise.
Qed.

Lemma record_type_after_final (E : env) (r : recs) (t : typ) (d : option pyval)
    (md : metadata) (b : base) (s : state) (e : exn) (s' : state) :
  is_record_type t = true ->
  e_is_enum E t = false ->
  nested_of E r t b s = Raise e s' ->
  field_after_final E r t d md b s = Raise e s'.
Proof.
  intros Ht He H. unfold field_after_final, _field_for_annotated_type,
    _field_for_union_type, _field_for_container_type.
  destruct t; try discriminate; cbn [is_union_type get_origin];
    do 3 (bind_step reflexivity); rewrite He; now apply bind_raise.
Qed.

Lemma frame_locals_eq (E : env) (clazz : typ) (frame : option nat) :
  match match frame with
        | Some f => Some f
        | None => e_callers_frame E clazz
        end with
  | Some f => Some f
  | None => None
  end = frame_locals E clazz frame.
Proof. unfold frame_locals. destruct frame; [|destruct (e_callers_frame E clazz)]; reflexivity. Qed.

Lemma call_propagates (E : env) (r : recs) (c : call) (s : state) (c' : call)
    (s1 : state) (m : string) (s2 : state) :
  (forall t b, post same_below (r_internal_class_schema r t b)) ->
  calls E r c s c' s1 ->
  raises r c' s1 (UnboundTypeVarError m) s2 ->
  raises_in_body E r c s (UnboundTypeVarError m) (leave c s2).
Proof.
  intros Hsb Hcalls Hraise.
  destruct Hcalls; cbn [raises raises_in_body leave] in *.
  - (* Final *)
    unfold _field_for_schema.
    rewrite default_metadata_marshmallow_field, H.
    cbn [_container_type_add_any in_CONTAINER_TYPES negb]. rewrite H0.
    bind_step reflexivity. exact Hraise.
  - (* the member of a union *)
    rewrite synthesis_after_final by (auto; exact I).
    unfold field_after_final, _field_for_annotated_type.
    bind_step reflexivity. apply bind_raise.
    rewrite (union_single r b args a _ s H1). now rewrite Hraise.
  - (* an alternative of a union *)
    rewrite synthesis_after_final by (auto; exact I).
    unfold field_after_final, _field_for_annotated_type.
    bind_step reflexivity. apply bind_raise.
    rewrite (union_tagged r b args _ s H2). apply bind_raise.
    unfold union_alternatives. rewrite H1.
    eapply runs_then_raises.
    + eapply runs_impl; [|exact H3].
      intros x s0 y s3 Hx. cbv beta. unfold bind, ret. rewrite Hx. eexists. reflexivity.
    + now apply bind_raise.
  - (* an element, a key *)
    rewrite synthesis_after_final by (auto; exact I).
    apply container_after_final.
    unfold _field_for_container_type, arg_at, child_field.
    cbn [get_origin get_args nth_error].
    destruct o; try contradiction;
      bind_step reflexivity; now apply bind_raise.
  - (* the element of a tuple of any length *)
    rewrite synthesis_after_final by (auto; exact I).
    apply container_after_final.
    unfold _field_for_container_type, child_field. cbn [get_origin get_args].
    now apply bind_raise.
  - (* a member of a tuple *)
    rewrite synthesis_after_final by (auto; exact I).
    apply container_after_final.
    assert (Hgen : (children <- mapM (child_field r b) args ;;
                    tuple_field E b children
                      (default_metadata (TContainer o_tuple args) d md)) s
                   = Raise (UnboundTypeVarError m) s2).
    { apply bind_raise. rewrite H2. eapply runs_then_raises; [exact H3 | exact Hraise]. }
    unfold _field_for_container_type. cbn [get_origin get_args].
    destruct args as [|a0 [|a1 l]]; try exact Hgen.
    destruct a1; try exact Hgen. destruct l; try exact Hgen.
    exfalso. exact (H1 a0 eq_refl).
  - (* the value of a mapping *)
    rewrite synthesis_after_final by (auto; exact I).
    apply container_after_final.
    unfold _field_for_container_type, arg_at, child_field.
    cbn [get_origin get_args nth_error].
    destruct H1; subst o;
      bind_step reflexivity; bind_step ltac:(exact H2);
      bind_step reflexivity; now apply bind_raise.
  - (* the supertype of a new type *)
    rewrite synthesis_after_final by (auto; exact I).
    unfold field_after_final, _field_for_annotated_type, _field_for_union_type,
      _field_for_container_type.
    cbn [is_union_type get_origin]. do 3 (bind_step reflexivity).
    rewrite H1. unfold _field_by_supertype. rewrite H2. exact Hraise.
  - (* a nested record *)
    rewrite synthesis_after_final by (auto; destruct t; try discriminate; exact I).
    apply record_type_after_final; auto.
    unfold nested_of. rewrite H3.
    assert (Hfwd : match t with
                   | TForwardRef arg => if nonempty arg then Some arg else None
                   | _ => None
                   end = None) by (destruct t; try discriminate; reflexivity).
    rewrite Hfwd.
    bind_step ltac:(unfold top; rewrite H4; reflexivity).
    rewrite H5. now apply bind_raise.
  - (* a specialization *)
    rewrite synthesis_after_final by (auto; destruct t; try discriminate; exact I).
    apply record_type_after_final; auto.
    unfold nested_of. rewrite H3. apply bind_raise.
    unfold get_schema. now rewrite H4, Hraise.
  - (* a field of the record *)
    subst s0. unfold registered in *.
    unfold lru_cache. rewrite H.
    assert (Hbody : _internal_class_schema_body E r clazz b s
                    = Raise (UnboundTypeVarError m) s2); [|now rewrite Hbody].
    unfold _internal_class_schema_body.
    bind_step ltac:(unfold top; rewrite H0; reflexivity).
    bind_step ltac:(unfold register_seen; rewrite H0; reflexivity).
    unfold reflect_and_build. rewrite H1.
    unfold build_schema. fold (hints_of E clazz ctx).
    bind_step ltac:(exact H2). apply bind_raise. rewrite H3.
    change (mapM (field_entry E r clazz b ctx type_hints) (pre ++ fld :: later)%list
              (set_stack (mkCtx (dict_set clazz (e_name E clazz) (seen_classes ctx))
                                (globalns ctx) (localns ctx) :: below) s)
            = Raise (UnboundTypeVarError m) s2).
    eapply runs_then_raises; [exact H4|].
    unfold field_entry. bind_step ltac:(exact H5). now apply bind_raise.
  - (* the retry *)
    unfold lru_cache. rewrite H.
    unfold registered in s0.
    rewrite (body_converts_and_retries E r clazz b s ctx s0 e0);
      try assumption;
      [|unfold top; now rewrite H0 | unfold register_seen; now rewrite H0].
    rewrite H4. unfold converted_with_warning in Hraise. cbv zeta in Hraise.
    rewrite Hraise. reflexivity.
  - (* class_schema on a dataclass *)
    unfold class_schema_body.
    assert (Hno : negb (is_dataclass E s clazz)
                  && negb (is_generic_alias_of_dataclass E s clazz) = false).
    { rewrite <- negb_orb, H. reflexivity. }
    bind_step ltac:(rewrite Hno; reflexivity).
    rewrite frame_locals_eq.
    pose proof (Hsb clazz b
                  (set_stack (new_SchemaContext None (frame_locals E clazz frame)
                              :: stack s) s)) as Hpost.
    unfold post_at in Hpost. rewrite Hraise in Hpost. destruct Hpost as [Hlen Htl].
    cbn [stack set_stack length tl] in Hlen, Htl.
    destruct (stack s2) as [|top_ctx rest] eqn:Hs2; [discriminate|].
    cbn [tl] in *. subst rest.
    apply (with_context_raises None (frame_locals E clazz frame) _ s _ s2 top_ctx
             (stack s) Hraise Hs2).
  - (* class_schema on a class that it converts *)
    unfold class_schema_body.
    assert (Hyes : negb (is_dataclass E s clazz)
                   && negb (is_generic_alias_of_dataclass E s clazz) = true).
    { rewrite <- negb_orb, H. reflexivity. }
    bind_step ltac:(rewrite Hyes; unfold dataclasses_dataclass; rewrite H0; reflexivity).
    fold s0. rewrite frame_locals_eq.
    pose proof (Hsb clazz b
                  (set_stack (new_SchemaContext None (frame_locals E clazz frame)
                              :: stack s0) s0)) as Hpost.
    unfold post_at in Hpost. rewrite Hraise in Hpost. destruct Hpost as [Hlen Htl].
    cbn [stack set_stack length tl] in Hlen, Htl.
    destruct (stack s2) as [|top_ctx rest] eqn:Hs2; [discriminate|].
    cbn [tl] in *. subst rest.
    apply (with_context_raises None (frame_locals E clazz frame) _ s0 _ s2 top_ctx
             (stack s0) Hraise Hs2).
Qed.

Lemma surfaces_raises (E : env) (k : nat) (c : call) (s : state) (m : string)
    (s' : state) :
  surfaces E k c s m s' -> raises (recs_at E k) c s (UnboundTypeVarError m) s'.
Proof.
  induction 1 as [k name d md b s
                 | k clazz b s ctx below m Hc Hs s0 Hf
                 | k c s c' s1 m s2 Hcalls _ IH].
  - reflexivity.
  - cbn [raises recs_at r_internal_class_schema]. unfold lru_cache. rewrite Hc.
    unfold _internal_class_schema_body.
    bind_step ltac:(unfold top; rewrite Hs; reflexivity).
    bind_step ltac:(unfold register_seen; rewrite Hs; reflexivity).
    unfold reflect_and_build. subst s0. unfold registered in *. rewrite Hf. reflexivity.
  - pose proof (call_propagates E (recs_at E k) c s c' s1 m s2
                  (proj1 (proj2 (same_below_recs E k))) Hcalls IH) as H.
    destruct c; exact H.
Qed.

Lemma raises_more_fuel (E : env) (k fuel : nat) (c : call) (s : state) (e : exn)
    (s' : state) :
  k <= fuel -> raises (recs_at E k) c s e s' -> raises (recs_at E fuel) c s e s'.
Proof.
  intros Hle H. destruct (recs_at_refines E k fuel Hle) as [F I C].
  destruct c; cbn [raises] in *.
  - destruct (F t default md base_schema s) as [Hd | Heq];
      [congruence | now rewrite <- Heq].
  - destruct (I clazz base_schema s) as [Hd | Heq];
      [congruence | now rewrite <- Heq].
  - destruct (C clazz base_schema clazz_frame s) as [Hd | Heq];
      [congruence | now rewrite <- Heq].
Qed.

(** C3. Wherever the compiler comes to an unresolved type variable -- a
    declared type that is a type variable, or a generic record that the
    resolver refuses as unbound -- the [UnboundTypeVarError] raised there
    is what every call on the way ends with, up to the call that was made
    from outside: through [Final], unions, containers, new types, nested
    records, specializations of decorated generic records, the loop over
    the fields, the cache wrapper, the retry after a conversion to a
    dataclass and the [with] blocks of [class_schema] and of the public
    [field_for_schema], whose context is popped on the way. The error and
    its message are the ones raised first; a larger budget changes
    nothing. *)
Theorem unbound_type_var_error_propagates (E : env) (k : nat) (c : call) (s : state)
    (m : string) (s' : state) :
  surfaces E k c s m s' ->
  (forall fuel, k <= fuel -> raises (recs_at E fuel) c s (UnboundTypeVarError m) s') /\
  (forall fuel clazz base_schema,
      c = Class_schema clazz base_schema None ->
      k <= S fuel ->
      class_schema E fuel clazz base_schema s = Raise (UnboundTypeVarError m) s' /\
      stack s' = stack s) /\
  (forall fuel t default md base_schema s0,
      c = Field_for_schema t default md base_schema ->
      s = set_stack (new_SchemaContext None None :: stack s0) s0 ->
      k <= fuel ->
      field_for_schema E fuel t default md base_schema s0
      = Raise (UnboundTypeVarError m) (set_stack (stack s0) s')).
Proof.
  intros H.
  assert (Hall : forall fuel, k <= fuel ->
                   raises (recs_at E fuel) c s (UnboundTypeVarError m) s').
  { intros fuel Hle. eapply raises_more_fuel; [exact Hle|]. now apply surfaces_raises. }
  split; [exact Hall|]. split.
  - intros fuel clazz base_schema -> Hle.
    specialize (Hall (S fuel) Hle). cbn [raises recs_at r_class_schema] in Hall.
    split; [exact Hall|].
    pose proof (class_schema_body_restores E (recs_at E fuel) clazz base_schema
                  None None None s (proj1 (proj2 (same_below_recs E fuel)))) as Hst.
    rewrite Hall in Hst. exact Hst.
  - intros fuel t default md base_schema s0 -> -> Hle.
    specialize (Hall fuel Hle). cbn [raises] in Hall.
    pose proof (proj1 (same_below_recs E fuel) t default md base_schema
                  (set_stack (new_SchemaContext None None :: stack s0) s0)) as Hst.
    unfold post_at in Hst. rewrite Hall in Hst. destruct Hst as [Hlen Htl].
    cbn [stack set_stack length tl] in Hlen, Htl.
    destruct (stack s') as [|top_ctx below] eqn:Hs'; [discriminate|].
    cbn [tl] in Htl. subst below.
    unfold field_for_schema, field_for_schema_body.
    exact (with_context_raises None None _ s0 _ s' top_ctx (stack s0) Hall Hs').
Qed.

(** A dataclass [Outer] with a field of the plain class [Plain], which has
    a field declared with the type variable [T]: the error comes up
    through the retry after the conversion of [Plain]. *)
Lemma outer_surfaces :
  exists s',
    surfaces error_table 6 (Class_schema (TClass "Outer") None None) initial_state
             "can not resolve type variable T" s'.
Proof.
  eexists.
  eapply surfaces_call; [apply calls_compile; reflexivity|].
  eapply surfaces_call.
  { eapply calls_field with (pre := []) (fld := plain_field "inner" (TClass "Plain"))
                             (later := []);
      try reflexivity. constructor. }
  eapply surfaces_call; [eapply calls_nested; reflexivity|].
  eapply surfaces_call; [eapply calls_retry; reflexivity|].
  eapply surfaces_call.
  { eapply calls_field with (pre := []) (fld := plain_field "x" (TVar "T")) (later := []);
      try reflexivity. constructor. }
  apply surfaces_type_variable.
Qed.

Lemma unbound_type_var_error_propagates_witness :
  exists s',
    class_schema error_table 5 (TClass "Outer") None initial_state
    = Raise (UnboundTypeVarError "can not resolve type variable T") s' /\
    stack s' = stack initial_state.
Proof.
  destruct outer_surfaces as [s' H].
  exists s'.
  exact (proj1 (proj2 (unbound_type_var_error_propagates error_table 6 _ initial_state
                         _ s' H))
           5 (TClass "Outer") None eq_refl (le_n 6)).
Defined.

(** ** Where the code departs from its specification *)

Lemma bare_tuple_runs :
  (exists s, field_for_schema person_table 3 (TBare b_tuple) None empty_md None initial_state
             = Raise (TypeError (not_a_dataclass_message "tuple")) s) /\
  (exists md s, field_for_schema person_table 3 (TContainer o_tuple [TAny; TEllipsis])
                  None empty_md None initial_state
                = Ok (F_Sequence (F_Raw None md) (set_required (Some true) empty_md)) s).
Proof. split; eexists; [|eexists]; vm_compute; reflexivity. Qed.

(** C9, at a bare [tuple]: [_container_type_add_any] leaves it as it is,
    and a field declared [tuple] is not synthesized as [Tuple[Any, ...]]
    would be: the dispatch reaches the nested-record case and ends in the
    [TypeError] of a class that is no dataclass, whatever the budget. *)
Theorem bare_tuple_is_not_given_any (fuel : nat) :
  3 <= fuel ->
  _container_type_add_any (TBare b_tuple) = TBare b_tuple /\
  _container_type_add_any (TBare b_Tuple) = TBare b_Tuple /\
  (exists s, field_for_schema person_table fuel (TBare b_tuple) None empty_md None
               initial_state
             = Raise (TypeError (not_a_dataclass_message "tuple")) s) /\
  (exists md s, field_for_schema person_table fuel (TContainer o_tuple [TAny; TEllipsis])
                  None empty_md None initial_state
                = Ok (F_Sequence (F_Raw None md) (set_required (Some true) empty_md)) s).
Proof.
  intros Hle. split; [reflexivity|]. split; [reflexivity|].
  destruct bare_tuple_runs as [[s1 H1] (md & s2 & H2)]. split.
  - exists s1. rewrite (field_for_schema_more_fuel person_table 3 fuel) by
      (try exact Hle; rewrite H1; discriminate). exact H1.
  - exists md, s2. rewrite (field_for_schema_more_fuel person_table 3 fuel) by
      (try exact Hle; rewrite H2; discriminate). exact H2.
Qed.

Lemma bare_tuple_is_not_given_any_witness :
  exists s, field_for_schema person_table 3 (TBare b_tuple) None empty_md None initial_state
            = Raise (TypeError (not_a_dataclass_message "tuple")) s.
Proof.
  exact (proj1 (proj2 (proj2 (bare_tuple_is_not_given_any 3 (le_n 3))))).
Defined.

Lemma shared_runs :
  exists s1 s2,
    class_schema shared_table 8 (TClass "R") None initial_state = Ok 3 s1 /\
    cache_get (TClass "R", None) (cache s1) = Some 1 /\
    class_schema shared_table 8 (TClass "R") None s1 = Ok 1 s2.
Proof.
  eexists. eexists.
  split; [vm_compute; reflexivity|].
  split; vm_compute; reflexivity.
Qed.

(** C1, at [R] of [shared_table]: the first [class_schema(R)] returns the
    schema class it has just built (address 3), while the cache holds, under
    the same key, the schema class that a nested compilation of [R] stored
    before (address 1); the second [class_schema(R)] returns that one. *)
Theorem compile_twice_not_identical (fuel : nat) :
  8 <= fuel ->
  exists s1 s2,
    class_schema shared_table fuel (TClass "R") None initial_state = Ok 3 s1 /\
    cache_get (TClass "R", None) (cache s1) = Some 1 /\
    class_schema shared_table fuel (TClass "R") None s1 = Ok 1 s2.
Proof.
  intros Hle. destruct shared_runs as (s1 & s2 & H1 & H2 & H3).
  exists s1, s2. split; [|split; [exact H2|]].
  - rewrite (class_schema_more_fuel shared_table 8 fuel) by
      (try exact Hle; rewrite H1; discriminate). exact H1.
  - rewrite (class_schema_more_fuel shared_table 8 fuel) by
      (try exact Hle; rewrite H3; discriminate). exact H3.
Qed.

Lemma compile_twice_not_identical_witness :
  exists s1 s2,
    class_schema shared_table 8 (TClass "R") None initial_state = Ok 3 s1 /\
    cache_get (TClass "R", None) (cache s1) = Some 1 /\
    class_schema shared_table 8 (TClass "R") None s1 = Ok 1 s2.
Proof. exact (compile_twice_not_identical 8 (le_n 8)). Defined.

Lemma conversion_runs :
  class_schema error_table 1 (TClass "Bad") None initial_state
  = Raise mutable_default_error initial_state /\
  exists s, class_schema error_table 4 (TClass "Holder") None initial_state
            = Raise (TypeError (not_a_dataclass_message "Bad")) s.
Proof. split; [reflexivity|]. eexists. vm_compute. reflexivity. Qed.

(** C4, at a plain class that [dataclasses.dataclass] refuses with a
    [ValueError]: asked for directly, [class_schema] lets the [ValueError]
    through (its conversion stands outside any [try]); reached as the type
    of a field, the same class gives the [TypeError] that names it. *)
Theorem conversion_failure_at_top_level (fuel : nat) :
  4 <= fuel ->
  class_schema error_table fuel (TClass "Bad") None initial_state
  = Raise mutable_default_error initial_state /\
  exists s, class_schema error_table fuel (TClass "Holder") None initial_state
            = Raise (TypeError (not_a_dataclass_message "Bad")) s.
Proof.
  intros Hle. destruct conversion_runs as [H1 [s H2]]. split.
  - rewrite (class_schema_more_fuel error_table 1 fuel) by
      (try lia; rewrite H1; discriminate). exact H1.
  - exists s. rewrite (class_schema_more_fuel error_table 4 fuel) by
      (try exact Hle; rewrite H2; discriminate). exact H2.
Qed.

Lemma conversion_failure_at_top_level_witness :
  class_schema error_table 4 (TClass "Bad") None initial_state
  = Raise mutable_default_error initial_state.
Proof. exact (proj1 (conversion_failure_at_top_level 4 (le_n 4))). Defined.

Lemma inherit_runs :
  exists for_H for_G_int direct s1 s2 s3 s4,
    get_schema inherit_table (recs_at inherit_table 3) 0
      (TAlias "H" [TClass "str"]) in_context = Ok for_H s1 /\
    get_schema inherit_table (recs_at inherit_table 3) 0
      (TAlias "G" [TClass "str"]) s1 = Ok for_H s2 /\
    get_schema inherit_table (recs_at inherit_table 3) 0
      (TAlias "G" [TClass "int"]) s2 = Ok for_G_int s3 /\
    class_schema inherit_table 3 (TAlias "G" [TClass "str"]) None s3 = Ok direct s4 /\
    Schema_load scalar_convert (fun _ _ => true) (fun _ => VNone)
      (fields_at s4 direct) [("data", VStr "a")] = inr [("data", VStr "a")] /\
    Schema_load scalar_convert (fun _ _ => true) (fun _ => VNone)
      (fields_at s4 for_G_int) [("data", VStr "a")] = inl [("data", "Not a valid value.")] /\
    Schema_load scalar_convert (fun _ _ => true) (fun _ => VNone)
      (fields_at s4 for_H) [("data", VStr "a")] = inl [("data", "Not a valid value.")].
Proof.
  do 7 eexists.
  split; [vm_compute; reflexivity|].
  split; [vm_compute; reflexivity|].
  split; [vm_compute; reflexivity|].
  split; [vm_compute; reflexivity|].
  split; [vm_compute; reflexivity|].
  split; vm_compute; reflexivity.
Qed.

(** C7, at [G[str]] of [inherit_table] after [H[str]] was requested: the
    accessor answers with the schema class it stored for [H[str]], whose
    field is an integer, so the mapping with the string ["a"], valid for
    [G[str]] (the schema compiled from [G[str]] accepts it) and not for
    [G[int]], is rejected under [G[str]] as well. *)
Theorem inherited_accessor_confuses_specializations (fuel : nat) :
  3 <= fuel ->
  exists for_H for_G_str for_G_int direct s1 s2 s3 s4,
    get_schema inherit_table (recs_at inherit_table fuel) 0
      (TAlias "H" [TClass "str"]) in_context = Ok for_H s1 /\
    get_schema inherit_table (recs_at inherit_table fuel) 0
      (TAlias "G" [TClass "str"]) s1 = Ok for_G_str s2 /\
    get_schema inherit_table (recs_at inherit_table fuel) 0
      (TAlias "G" [TClass "int"]) s2 = Ok for_G_int s3 /\
    for_G_str = for_H /\
    class_schema inherit_table fuel (TAlias "G" [TClass "str"]) None s3 = Ok direct s4 /\
    Schema_load scalar_convert (fun _ _ => true) (fun _ => VNone)
      (fields_at s4 direct) [("data", VStr "a")] = inr [("data", VStr "a")] /\
    Schema_load scalar_convert (fun _ _ => true) (fun _ => VNone)
      (fields_at s4 for_G_int) [("data", VStr "a")] = inl [("data", "Not a valid value.")] /\
    Schema_load scalar_convert (fun _ _ => true) (fun _ => VNone)
      (fields_at s4 for_G_str) [("data", VStr "a")] = inl [("data", "Not a valid value.")].
Proof.
  intros Hle.
  destruct inherit_runs
    as (for_H & for_G_int & direct & s1 & s2 & s3 & s4 & H1 & H2 & H3 & H4 & H5 & H6 & H7).
  exists for_H, for_H, for_G_int, direct, s1, s2, s3, s4.
  repeat match goal with |- _ /\ _ => split end; try assumption; try reflexivity.
  - rewrite (get_schema_more_fuel inherit_table 3 fuel) by
      (try exact Hle; rewrite H1; discriminate). exact H1.
  - rewrite (get_schema_more_fuel inherit_table 3 fuel) by
      (try exact Hle; rewrite H2; discriminate). exact H2.
  - rewrite (get_schema_more_fuel inherit_table 3 fuel) by
      (try exact Hle; rewrite H3; discriminate). exact H3.
  - rewrite (class_schema_more_fuel inherit_table 3 fuel) by
      (try exact Hle; rewrite H4; discriminate). exact H4.
Qed.

Lemma inherited_accessor_confuses_specializations_witness :
  exists for_H for_G_str s1 s2,
    get_schema inherit_table (recs_at inherit_table 3) 0
      (TAlias "H" [TClass "str"]) in_context = Ok for_H s1 /\
    get_schema inherit_table (recs_at inherit_table 3) 0
      (TAlias "G" [TClass "str"]) s1 = Ok for_G_str s2 /\
    for_G_str = for_H.
Proof.
  destruct (inherited_accessor_confuses_specializations 3 (le_n 3))
    as (for_H & for_G_str & for_G_int & direct & s1 & s2 & s3 & s4
        & H1 & H2 & _ & H4 & _).
  exists for_H, for_G_str, s1, s2. auto.
Defined.

(** ** A decorated generic record that refers to itself *)

(** Nothing is stored for [Tree[int]] yet: not in the cache of
    [_internal_class_schema], not in the dictionary of the accessor. *)
Lemma tree_not_yet (s s' : state) :
  cache s' = cache s -> memos s' = memos s ->
  cache_get (Tree_int, None) (cache s) = None /\
  args_get [TClass "int"] (memo_dict 0 (memos s)) = None ->
  cache_get (Tree_int, None) (cache s') = None /\
  args_get [TClass "int"] (memo_dict 0 (memos s')) = None.
Proof. intros -> ->. auto. Qed.

Lemma tree_field_asks_the_accessor (r : recs) (d : option pyval) (md : metadata)
    (b : base) (s : state) :
  md_marshmallow_field md = None ->
  let options := default_metadata Tree_int d md in
  _field_for_schema tree_table r Tree_int d md b s
  = (nested <- get_schema tree_table r 0 Tree_int ;;
     construct (F_Nested (N_schema nested) options) options) s.
Proof.
  intros Hmd options.
  rewrite synthesis_after_final; [|exact Hmd|destruct b; reflexivity|exact I].
  unfold field_after_final, _field_for_annotated_type, _field_for_union_type,
    _field_for_container_type, Tree_int.
  cbn [is_union_type get_origin]. do 3 (bind_step reflexivity).
  change (e_is_enum tree_table (TAlias "Tree" [TClass "int"])) with false.
  cbv iota. unfold nested_of.
  change (e_Schema tree_table (TAlias "Tree" [TClass "int"])) with (A_lazy_generic 0).
  cbv iota. unfold bind.
  destruct (get_schema tree_table r 0 (TAlias "Tree" [TClass "int"]) s); reflexivity.
Qed.

Lemma tree_never_returns (fuel : nat) :
  (forall s, cache_get (Tree_int, None) (cache s) = None /\
             args_get [TClass "int"] (memo_dict 0 (memos s)) = None ->
             r_class_schema (recs_at tree_table fuel) Tree_int None None s = Diverge) /\
  (forall s, cache_get (Tree_int, None) (cache s) = None /\
             args_get [TClass "int"] (memo_dict 0 (memos s)) = None ->
             stack s <> [] ->
             r_internal_class_schema (recs_at tree_table fuel) Tree_int None s = Diverge) /\
  (forall s, cache_get (Tree_int, None) (cache s) = None /\
             args_get [TClass "int"] (memo_dict 0 (memos s)) = None ->
             r_field_for_schema (recs_at tree_table fuel) (List_ Tree_int) None empty_md
               None s = Diverge) /\
  (forall s, cache_get (Tree_int, None) (cache s) = None /\
             args_get [TClass "int"] (memo_dict 0 (memos s)) = None ->
             r_field_for_schema (recs_at tree_table fuel) Tree_int None empty_md
               None s = Diverge).
Proof.
  induction fuel as [|n (IHc & IHi & IHl & IHf)]; [repeat split; reflexivity|].
  cbn [recs_at r_class_schema r_internal_class_schema r_field_for_schema].
  split; [|split; [|split]].
  - (* class_schema *)
    intros s Hs. unfold class_schema_body.
    bind_step ltac:(cbv beta;
                    change (is_generic_alias_of_dataclass tree_table s Tree_int) with true;
                    cbn [negb]; rewrite andb_false_r; reflexivity).
    unfold with_, SchemaContext_enter, push.
    rewrite IHi; [reflexivity | | discriminate].
    eapply tree_not_yet; [| |exact Hs]; reflexivity.
  - (* _internal_class_schema *)
    intros s [Hc Hm] Hst. unfold lru_cache. cbv zeta.
    match goal with
    | |- match ?x with _ => _ end = _ => replace x with (@None nat) by (symmetry; exact Hc)
    end.
    destruct (stack s) as [|ctx below] eqn:Hstack; [contradiction|].
    assert (Hbody : _internal_class_schema_body tree_table (recs_at tree_table n)
                      Tree_int None s = Diverge); [|now rewrite Hbody].
    unfold _internal_class_schema_body.
    bind_step ltac:(unfold top; rewrite Hstack; reflexivity).
    bind_step ltac:(unfold register_seen; rewrite Hstack; reflexivity).
    set (s0 := set_stack _ s).
    assert (Hs0 : cache_get (Tree_int, None) (cache s0) = None /\
                  args_get [TClass "int"] (memo_dict 0 (memos s0)) = None)
      by (eapply tree_not_yet; [| |split; eassumption]; reflexivity).
    unfold reflect_and_build.
    change (_dataclass_fields tree_table Tree_int s0)
      with (Ok [plain_field "value" (TClass "int");
                plain_field "children" (List_ Tree_int)] s0).
    cbv iota. unfold build_schema.
    bind_step reflexivity.
    apply bind_diverge.
    change (filter _ _)
      with [plain_field "value" (TClass "int"); plain_field "children" (List_ Tree_int)].
    cbn [mapM].
    destruct n as [|n']; [reflexivity|].
    bind_step ltac:(bind_step reflexivity; bind_step reflexivity; reflexivity).
    apply bind_diverge. apply bind_diverge.
    bind_step reflexivity. apply bind_diverge. now apply IHl.
  - (* the field of the children *)
    intros s Hs.
    rewrite synthesis_after_final; [|reflexivity..|exact I].
    unfold field_after_final, _field_for_annotated_type, _field_for_union_type, List_.
    cbn [is_union_type]. do 2 (bind_step reflexivity).
    apply bind_diverge.
    unfold _field_for_container_type, arg_at, child_field.
    cbn [get_origin get_args nth_error].
    bind_step reflexivity. apply bind_diverge. now apply IHf.
  - (* the field of one child *)
    intros s [Hc Hm].
    rewrite tree_field_asks_the_accessor by reflexivity.
    apply bind_diverge. unfold get_schema.
    change (get_args Tree_int) with [TClass "int"]. rewrite Hm.
    change (e_lazy_base tree_table 0) with (@None nat).
    change (e_lazy_frame tree_table 0) with (@None nat).
    rewrite IHc; [reflexivity | now split].
Qed.

(** C2. The body of [_internal_class_schema] registers the record in the
    context at the top of the stack before it looks at any field, also
    for a specialization [Tree[int]] of a decorated generic record. But a
    field of the type [Tree[int]] is not resolved through what is
    registered: [Tree[int].Schema] is the [LazyGenericSchema] of [Tree],
    so the field asks [get_schema], which finds nothing stored (the
    accessor stores a schema only after [class_schema] has returned) and
    calls [class_schema(Tree[int])] again, in a fresh context. With
    [children: List[Tree[T]]] among the fields this goes on without end:
    [class_schema(Tree[int])] returns for no budget. *)
Theorem decorated_generic_self_reference_never_returns (fuel : nat) (s : state) :
  cache_get (Tree_int, None) (cache s) = None ->
  args_get [TClass "int"] (memo_dict 0 (memos s)) = None ->
  (forall r s0 ctx below,
      stack s0 = ctx :: below ->
      exists s1,
        _internal_class_schema_body tree_table r Tree_int None s0
        = reflect_and_build tree_table r Tree_int None ctx "Tree" s1 /\
        seen_at_top Tree_int "Tree" s1) /\
  (forall r d md b s0,
      md_marshmallow_field md = None ->
      let options := default_metadata Tree_int d md in
      _field_for_schema tree_table r Tree_int d md b s0
      = (nested <- get_schema tree_table r 0 Tree_int ;;
         construct (F_Nested (N_schema nested) options) options) s0) /\
  class_schema tree_table fuel Tree_int None s = Diverge.
Proof.
  intros Hc Hm. split; [|split].
  - intros r s0 ctx below Hs.
    unfold _internal_class_schema_body, bind, top, register_seen.
    rewrite Hs. cbv beta iota. rewrite Hs.
    eexists. split; [reflexivity|].
    eexists. eexists. split; [reflexivity|]. split; [|reflexivity].
    cbn [seen_classes]. apply dict_get_set_same.
  - intros r d md b s0 Hmd. now apply tree_field_asks_the_accessor.
  - apply (proj1 (tree_never_returns (S fuel)) s). now split.
Qed.

Lemma decorated_generic_self_reference_never_returns_witness :
  class_schema tree_table 1000 Tree_int None initial_state = Diverge.
Proof.
  exact (proj2 (proj2 (decorated_generic_self_reference_never_returns 1000 initial_state
                         eq_refl eq_refl))).
Defined.

(** ** The public entry of the synthesizer, and compiling outside a context *)

(** [field_for_schema] pushes a context of its own and pops it on the way
    out, by a field or by an exception: the stack after the call is the
    stack before it, whatever the type needs to be compiled. *)
Theorem field_for_schema_restores_stack (E : env) (fuel : nat) (t : typ)
    (default : option pyval) (md : metadata) (base_schema : base) (s : state) :
  match field_for_schema E fuel t default md base_schema s with
  | Ok _ s' => stack s' = stack s
  | Raise _ s' => stack s' = stack s
  | Diverge => True
  end.
Proof.
  unfold field_for_schema, field_for_schema_body.
  apply with_context_restores. apply (same_below_recs E fuel).
Qed.

(** [_internal_class_schema] reads the context at the top of the stack:
    called with no context pushed, a class that is not in the cache ends
    in the [IndexError] of [self.stack[-1]], and nothing is stored or
    warned; a class that is in the cache is answered all the same. *)
Theorem internal_class_schema_outside_context (E : env) (fuel : nat) (clazz : typ)
    (base_schema : base) (s : state) :
  stack s = [] ->
  (cache_get (clazz, base_schema) (cache s) = None ->
   _internal_class_schema E (S fuel) clazz base_schema s = Raise IndexError s) /\
  (forall schema,
      cache_get (clazz, base_schema) (cache s) = Some schema ->
      exists s', _internal_class_schema E (S fuel) clazz base_schema s = Ok schema s' /\
                 stack s' = [] /\ heap s' = heap s /\ warnings s' = warnings s).
Proof.
  intros Hs. unfold _internal_class_schema. cbn [recs_at r_internal_class_schema].
  unfold lru_cache. split.
  - intros Hc. rewrite Hc.
    unfold _internal_class_schema_body, bind, top. now rewrite Hs.
  - intros schema Hc. rewrite Hc. eexists. split; [reflexivity|].
    repeat split. exact Hs.
Qed.

Lemma internal_class_schema_outside_context_witness :
  _internal_class_schema person_table 1 (TClass "Person") None initial_state
  = Raise IndexError initial_state.
Proof.
  exact (proj1 (internal_class_schema_outside_context person_table 0 (TClass "Person")
                  None initial_state eq_refl) eq_refl).
Defined.

(** ** The schema class that a compilation creates *)

Lemma mapM_keys {A B : Type} (f : A -> M (string * B)) (key : A -> string)
    (l : list A) :
  (forall x s y s', f x s = Ok y s' -> fst y = key x) ->
  forall s ys s', mapM f l s = Ok ys s' -> map fst ys = map key l.
Proof.
  intros Hf. induction l as [|x l IH]; simpl; intros s ys s' H.
  - inversion H. reflexivity.
  - unfold bind in H.
    destruct (f x s) as [y s1|e s1|] eqn:Hx; try discriminate.
    destruct (mapM f l s1) as [ys1 s2|e s2|] eqn:Hl; try discriminate.
    inversion H; subst. simpl. f_equal; [eapply Hf; eauto | eapply IH; eauto].
Qed.

(** The schema class built for a record: it is a new class, made after
    the classes that its fields needed, named after the record, derived
    from the base schema, with the copied members, and with one field per
    dataclass field that is kept, under the name of the dataclass field and
    in the order of the dataclass; a field with [init=False] is kept only
    under [Meta.include_non_init]. *)
Theorem schema_fields_follow_the_dataclass (E : env) (r : recs) (clazz : typ)
    (base_schema : base) (schema_ctx : SchemaContext) (class_name : string)
    (fields : list dc_field) (s : state) (schema : nat) (s' : state) :
  build_schema E r clazz base_schema schema_ctx class_name fields s = Ok schema s' ->
  exists sc before,
    heap s' = (before ++ [sc])%list /\ schema = length before /\
    nth_error (heap s') schema = Some sc /\
    sc_name sc = class_name /\ sc_clazz sc = clazz /\ sc_base sc = base_schema /\
    sc_members sc = e_members E clazz /\
    map fst (sc_fields sc)
    = map f_name (filter (fun fld => f_init fld || e_include_non_init E clazz) fields).
Proof.
  unfold build_schema. intros H. unfold bind at 1 in H.
  match type of H with
  | match ?c s with _ => _ end = _ => destruct (c s) as [hints s1|e s1|]; try discriminate
  end.
  unfold bind at 1 in H.
  match type of H with
  | match mapM ?f ?l s1 with _ => _ end = _ =>
      destruct (mapM f l s1) as [new_fields s2|e s2|] eqn:Hm; try discriminate;
      pose proof (mapM_keys f f_name l) as Hkeys
  end.
  inversion H; subst. clear H.
  eexists. exists (heap s2). cbn [heap set_heap].
  split; [reflexivity|]. split; [reflexivity|].
  split; [rewrite nth_error_app2, Nat.sub_diag; [reflexivity | apply Nat.le_refl]|].
  cbn [sc_name sc_clazz sc_base sc_members sc_fields].
  repeat (split; [reflexivity|]).
  eapply Hkeys; [|exact Hm].
  intros x s0 y s0' Hx. unfold bind in Hx.
  match type of Hx with
  | match ?c s0 with _ => _ end = _ => destruct (c s0) as [t s3|e3 s3|]; try discriminate
  end.
  destruct (r_field_for_schema r t _ _ _ s3) as [f s4|e4 s4|]; try discriminate.
  inversion Hx. reflexivity.
Qed.

Lemma schema_fields_follow_the_dataclass_witness :
  exists sc before s',
    build_schema person_table (recs_at person_table 3) (TClass "Person") None
      (new_SchemaContext None None) "Person" (cd_fields Person)
      (set_stack [mkCtx [(TClass "Person", "Person")] None None] initial_state)
    = Ok 0 s' /\
    heap s' = (before ++ [sc])%list /\
    map fst (sc_fields sc) = ["name"; "friends"].
Proof.
  assert (H : build_schema person_table (recs_at person_table 3) (TClass "Person") None
                (new_SchemaContext None None) "Person" (cd_fields Person)
                (set_stack [mkCtx [(TClass "Person", "Person")] None None] initial_state)
              = Ok 0 (match build_schema person_table (recs_at person_table 3)
                              (TClass "Person") None (new_SchemaContext None None)
                              "Person" (cd_fields Person)
                              (set_stack [mkCtx [(TClass "Person", "Person")] None None]
                                         initial_state) with
                      | Ok _ s => s
                      | _ => initial_state
                      end))
    by (vm_compute; reflexivity).
  destruct (schema_fields_follow_the_dataclass _ _ _ _ _ _ _ _ _ _ H)
    as (sc & before & H1 & _ & _ & _ & _ & _ & _ & H8).
  exists sc, before. eexists. split; [exact H|]. split; [exact H1 | exact H8].
Defined.

(** ** The frame kept by the decorators *)

Lemma f_back_nth (n : nat) (stack : list nat) :
  match Frames.f_back n stack with
  | None => nth_error stack n = None
  | Some [] => nth_error stack n = None
  | Some (f :: _) => nth_error stack n = Some f
  end.
Proof.
  revert stack. induction n as [|n IH]; intros [|f stack]; simpl; try reflexivity.
  apply IH.
Qed.

Lemma maybe_get_callers_frame_nth (module_dict : typ -> option nat) (cls : typ)
    (stacklevel : nat) (stack : list nat) :
  Frames._maybe_get_callers_frame module_dict cls stacklevel stack
  = match nth_error stack (stacklevel + 1) with
    | Some f => kept_frame module_dict cls f
    | None => None
    end.
Proof.
  unfold Frames._maybe_get_callers_frame, kept_frame.
  pose proof (f_back_nth (stacklevel + 1) stack) as H.
  destruct (Frames.f_back (stacklevel + 1) stack) as [[|f rest]|]; now rewrite H.
Qed.

(** [_maybe_get_callers_frame] gives the frame [stacklevel + 1] frames
    back from its own, and only that one; it gives [None], with no error,
    when the call stack is not that deep, and when that frame runs in the
    namespace of the module of the class (code at the top level of the
    module), so that no frame of a module is ever kept. *)
Theorem callers_frame_is_found_by_depth (module_dict : typ -> option nat) (cls : typ)
    (stacklevel : nat) (stack : list nat) :
  (forall f, Frames._maybe_get_callers_frame module_dict cls stacklevel stack = Some f ->
             nth_error stack (stacklevel + 1) = Some f /\ module_dict cls <> Some f) /\
  (length stack <= stacklevel + 1 ->
   Frames._maybe_get_callers_frame module_dict cls stacklevel stack = None) /\
  (forall f, nth_error stack (stacklevel + 1) = Some f ->
             Frames._maybe_get_callers_frame module_dict cls stacklevel stack
             = if match module_dict cls with
                  | Some globalns => Nat.eqb f globalns
                  | None => false
                  end
               then None else Some f).
Proof.
  rewrite maybe_get_callers_frame_nth. unfold kept_frame. split; [|split].
  - intros f.
    destruct (nth_error stack (stacklevel + 1)) as [g|]; [|discriminate].
    destruct (module_dict cls) as [globalns|].
    + destruct (Nat.eqb g globalns) eqn:Hg; [discriminate|].
      intros Hf. inversion Hf; subst g. split; [reflexivity|].
      intros Hm. inversion Hm; subst globalns. now rewrite Nat.eqb_refl in Hg.
    + intros Hf. split; [exact Hf | discriminate].
  - intros Hlen. apply nth_error_None in Hlen. now rewrite Hlen.
  - intros f Hf. rewrite Hf. destruct (module_dict cls); reflexivity.
Qed.

Lemma callers_frame_is_found_by_depth_witness :
  Frames._maybe_get_callers_frame (fun _ => Some 0) (TClass "Person") 1 [7; 8] = None /\
  Frames._maybe_get_callers_frame (fun _ => Some 0) (TClass "Person") 1 [7; 8; 0; 3]
  = None /\
  Frames._maybe_get_callers_frame (fun _ => Some 0) (TClass "Person") 1 [7; 8; 4; 0]
  = Some 4.
Proof.
  pose proof (callers_frame_is_found_by_depth (fun _ => Some 0) (TClass "Person") 1)
    as H.
  split; [|split].
  - apply (proj1 (proj2 (H [7; 8]))). simpl. apply Nat.le_refl.
  - exact (proj2 (proj2 (H [7; 8; 0; 3])) 0 eq_refl).
  - exact (proj2 (proj2 (H [7; 8; 4; 0])) 4 eq_refl).
Defined.

(** However a schema is attached to a class -- [add_schema(cls)],
    [add_schema(...)(cls)], [dataclass(cls)] or [dataclass(...)(cls)], with
    the default [stacklevel] and no frame given -- the frame that is kept is
    the one of the code that applied the decorator (none when that code is
    the top level of the module of the class): each form does what the
    inner decorator does when it is handed exactly that frame. The frames
    of the functions in between play no part. [class_schema] finds the
    frame of its caller in the same way. *)
Theorem decorators_keep_the_frame_of_their_caller
    (isinstance_type is_generic_alias is_generic_type : typ -> bool)
    (repr : typ -> string) (module_dict : typ -> option nat)
    (new_locals : list nat -> nat) (dc : typ -> M typ)
    (cls : typ) (base_schema : base) (caller : nat) (outer : list nat) (s : state) :
  let call {A : Type} := @Frames.call new_locals A in
  let kept := fun c => kept_frame module_dict c caller in
  let stack := caller :: outer in
  call (Frames.add_schema isinstance_type is_generic_alias is_generic_type repr
          module_dict new_locals cls base_schema None 1) stack s
  = add_schema isinstance_type is_generic_alias is_generic_type repr kept
      cls base_schema None s /\
  call (Frames.add_schema_without_class isinstance_type is_generic_alias
          is_generic_type repr module_dict new_locals base_schema None 1 cls) stack s
  = add_schema isinstance_type is_generic_alias is_generic_type repr kept
      cls base_schema None s /\
  call (Frames.dataclass isinstance_type is_generic_alias is_generic_type repr
          module_dict new_locals dc cls base_schema None 1) stack s
  = dataclass isinstance_type is_generic_alias is_generic_type repr kept dc
      cls base_schema None s /\
  call (Frames.dataclass_without_class isinstance_type is_generic_alias
          is_generic_type repr module_dict new_locals dc base_schema None cls) stack s
  = dataclass isinstance_type is_generic_alias is_generic_type repr kept dc
      cls base_schema None s /\
  call (Frames.class_schema_frame module_dict new_locals cls None) stack
  = kept cls.
Proof.
  intros call kept stack. subst call kept stack.
  unfold Frames.add_schema, Frames.add_schema_without_class, Frames.dataclass,
    Frames.dataclass_without_class, Frames.class_schema_frame,
    Frames.dataclass_decorator, Frames.add_schema, Frames.add_schema_decorator,
    Frames.call, add_schema, dataclass, add_schema, bind.
  repeat rewrite maybe_get_callers_frame_nth. cbn [Nat.add nth_error].
  repeat split;
    destruct (_check_decorated_type isinstance_type is_generic_alias repr cls s)
      as [u s1|e s1|]; try reflexivity;
    destruct (dc cls s1) as [cls' s2|e s2|]; try reflexivity;
    rewrite maybe_get_callers_frame_nth; reflexivity.
Qed.

(** ** What the synthesizer looks at first *)

(** A field object given under ["marshmallow_field"] is the field, for
    every declared type that is no type variable: the type is not looked
    at (it may be one the synthesizer has no field for), nothing is
    compiled, warned or stored, and the other options are dropped. *)
Theorem predefined_field_is_returned (E : env) (r : recs) (t : typ)
    (default : option pyval) (md : metadata) (base_schema : base) (s : state)
    (predefined_field : nat) :
  is_TypeVar t = false ->
  md_marshmallow_field md = Some predefined_field ->
  _field_for_schema E r t default md base_schema s = Ok (F_user predefined_field) s.
Proof.
  intros Ht Hmd. unfold _field_for_schema.
  rewrite default_metadata_marshmallow_field, Hmd.
  destruct t; try reflexivity. discriminate.
Qed.

Lemma predefined_field_is_returned_witness :
  _field_for_schema person_table (recs_at person_table 0) (TClass "socket") None
    (mkMeta None None None None (Some 3) None None) None initial_state
  = Ok (F_user 3) initial_state.
Proof.
  exact (predefined_field_is_returned person_table (recs_at person_table 0)
           (TClass "socket") None (mkMeta None None None None (Some 3) None None)
           None initial_state 3 eq_refl eq_refl).
Defined.

(** An entry of the [TYPE_MAPPING] of the base schema decides the field
    class of a type, before marshmallow's own mapping and before every
    other rule (also for [Any], a union, a new type or a dataclass, which
    is then not compiled): that class is called on the options after the
    defaults, and gives the field unless it refuses them. *)
Theorem base_schema_mapping_comes_first (E : env) (r : recs) (t : typ)
    (default : option pyval) (md : metadata) (b : nat) (cls : string) (s : state) :
  is_TypeVar t = false ->
  in_CONTAINER_TYPES t = false ->
  md_marshmallow_field md = None ->
  e_base_TYPE_MAPPING E b t = Some cls ->
  let options := default_metadata t default md in
  _field_for_schema E r t default md (Some b) s
  = (if refuses options then Raise required_with_load_default s
     else Ok (F_mapped cls options) s) /\
  (options_fit default md = true -> refuses options = false).
Proof.
  intros Ht Hc Hmd Hmap options. split; [|apply fit_default].
  unfold _field_for_schema.
  rewrite default_metadata_marshmallow_field, Hmd.
  fold options.
  destruct t; try discriminate;
    cbn [_container_type_add_any in_CONTAINER_TYPES negb];
    unfold _field_by_type, or_else; rewrite Hmap;
    unfold construct, Field_init, bind; destruct (refuses options); reflexivity.
Qed.

Lemma base_schema_mapping_comes_first_witness :
  _field_for_schema person_table (recs_at person_table 0) (TClass "str") None
    empty_md (Some 0) initial_state
  = Ok (F_mapped "String" required_md) initial_state.
Proof.
  exact (proj1 (base_schema_mapping_comes_first person_table _ (TClass "str") None
                  empty_md 0 "String" initial_state eq_refl eq_refl eq_refl eq_refl)).
Defined.

(** ** The options handed to a field *)

Lemma default_metadata_validate (t : typ) (d : option pyval) (md : metadata) :
  md_validate (default_metadata t d md) = md_validate md.
Proof.
  unfold default_metadata. destruct d as [v|]; [|reflexivity].
  destruct (negb _); reflexivity.
Qed.

Lemma default_metadata_description (t : typ) (d : option pyval) (md : metadata) :
  md_description (default_metadata t d md) = md_description md.
Proof.
  unfold default_metadata. destruct d as [v|]; [|reflexivity].
  destruct (negb _); reflexivity.
Qed.

Lemma optional_metadata_marshmallow_field (md : metadata) :
  md_marshmallow_field (optional_metadata md) = md_marshmallow_field md.
Proof. unfold optional_metadata. destruct (negb _); reflexivity. Qed.

Lemma extends_refl (md : metadata) : extends md md.
Proof. repeat split; auto. Qed.

Lemma extends_trans (a b c : metadata) : extends a b -> extends b c -> extends a c.
Proof.
  intros (A1 & A2 & A3 & A4 & A5 & A6 & A7) (B1 & B2 & B3 & B4 & B5 & B6 & B7).
  repeat split; auto.
Qed.

Lemma setdefault_keeps {A : Type} (entry : option A) (dflt v : A) :
  entry = Some v -> setdefault entry dflt = Some v.
Proof. intros ->. reflexivity. Qed.

Lemma default_metadata_extends (t : typ) (d : option pyval) (md : metadata) :
  extends md (default_metadata t d md).
Proof.
  unfold default_metadata. destruct d as [v|].
  - destruct (negb _); repeat split; cbn; auto using setdefault_keeps.
  - repeat split; cbn; auto using setdefault_keeps.
Qed.

Lemma optional_metadata_extends (md : metadata) : extends md (optional_metadata md).
Proof.
  unfold optional_metadata.
  destruct (negb _); repeat split; cbn; auto using setdefault_keeps;
    intros v H; rewrite H; reflexivity.
Qed.

(** The synthesizer fills in the options that are absent and leaves the
    given ones as they are: for a type with a field class, also when it is
    wrapped in [Optional], the field class is called on options in which
    every option given for the dataclass field has its value. *)
Theorem given_options_are_never_overridden (E : env) (c cls : string)
    (default : option pyval) (md : metadata) (b : base) (fuel : nat) (s : state) :
  md_marshmallow_field md = None ->
  _field_by_type E (TClass c) b = Some cls ->
  _field_by_type E (Optional (TClass c)) b = None ->
  (exists md1,
      _field_for_schema E (recs_at E fuel) (TClass c) default md b s
      = construct (F_mapped cls md1) md1 s /\ extends md md1) /\
  (exists md2,
      _field_for_schema E (recs_at E (S fuel)) (Optional (TClass c)) default md b s
      = construct (F_mapped cls md2) md2 s /\ extends md md2).
Proof.
  intros Hmd Hmap Hopt. split.
  - eexists. unfold _field_for_schema.
    rewrite default_metadata_marshmallow_field, Hmd.
    cbn [_container_type_add_any in_CONTAINER_TYPES negb]. rewrite Hmap.
    split; [reflexivity | apply default_metadata_extends].
  - exists (default_metadata (TClass c) None
              (optional_metadata (default_metadata (Optional (TClass c)) default md))).
    unfold _field_for_schema at 1. unfold Optional in *.
    rewrite default_metadata_marshmallow_field, Hmd.
    cbn [_container_type_add_any in_CONTAINER_TYPES negb]. rewrite Hopt.
    unfold field_after_final, _field_for_annotated_type, _field_for_union_type.
    cbn [is_union_type get_args is_optional_type existsb filter is_NoneType negb orb].
    cbn [recs_at r_field_for_schema]. unfold _field_for_schema.
    rewrite default_metadata_marshmallow_field, optional_metadata_marshmallow_field,
      default_metadata_marshmallow_field, Hmd.
    cbn [_container_type_add_any in_CONTAINER_TYPES negb]. rewrite Hmap.
    split.
    + unfold construct, Field_init, bind, ret, raise.
      destruct (refuses _); reflexivity.
    + eapply extends_trans; [apply default_metadata_extends|].
      eapply extends_trans; [apply optional_metadata_extends|].
      apply default_metadata_extends.
Qed.

Lemma given_options_are_never_overridden_witness :
  exists md2,
    _field_for_schema person_table (recs_at person_table 1) (Optional (TClass "str"))
      (Some (VStr "x")) (set_allow_none (Some false) empty_md) None initial_state
    = construct (F_mapped "String" md2) md2 initial_state /\
    extends (set_allow_none (Some false) empty_md) md2.
Proof.
  exact (proj2 (given_options_are_never_overridden person_table "str" "String"
                  (Some (VStr "x")) (set_allow_none (Some false) empty_md) None 0
                  initial_state eq_refl eq_refl eq_refl)).
Defined.

(** marshmallow refuses a field that is required and has a [load_default].
    When the dataclass field gives no [load_default], the options after
    the defaults of [_field_for_schema] never have both, also after the
    options of an optional type are added; and adding the options of an
    optional type to options that do not have both gives options that do
    not have both. *)
Theorem required_fields_get_no_load_default (t : typ) (default : option pyval)
    (md : metadata) :
  (md_load_default md = None ->
   loadable_options (default_metadata t default md) /\
   loadable_options (optional_metadata (default_metadata t default md))) /\
  (loadable_options md -> loadable_options (optional_metadata md)).
Proof.
  assert (Hopt : forall m, loadable_options m -> loadable_options (optional_metadata m)).
  { intros [rq an dd ld mf vl ds]. unfold loadable_options, optional_metadata,
      truthy_required. cbn.
    destruct rq as [[|]|]; cbn; auto; discriminate. }
  split; [|apply Hopt].
  intros Hld.
  assert (Hdef : loadable_options (default_metadata t default md)).
  { destruct md as [rq an dd ld mf vl ds]. cbn in Hld. subst ld.
    unfold loadable_options, default_metadata, truthy_required.
    destruct default as [d|]; cbn; [|reflexivity].
    destruct rq as [[|]|]; cbn; auto; discriminate. }
  split; [exact Hdef | apply Hopt; exact Hdef].
Qed.

Lemma required_fields_get_no_load_default_witness :
  loadable_options (default_metadata (TClass "int") (Some (VInt 9)) required_md) /\
  loadable_options
    (optional_metadata (default_metadata (TClass "int") (Some (VInt 9)) required_md)).
Proof.
  exact (proj1 (required_fields_get_no_load_default (TClass "int") (Some (VInt 9))
                  required_md) eq_refl).
Defined.

(** ** New types *)

Lemma default_metadata_allow_none (t : typ) (d : option pyval) (md : metadata) :
  md_allow_none (default_metadata t d md) = md_allow_none md.
Proof.
  unfold default_metadata. destruct d as [v|]; [|reflexivity].
  destruct (negb _); reflexivity.
Qed.

Lemma validators_of_default_metadata (t : typ) (d : option pyval) (md : metadata) :
  validators_of (default_metadata t d md) = validators_of md.
Proof. unfold validators_of. now rewrite default_metadata_validate. Qed.

Lemma validators_of_combined (vs : list nat) (md : metadata) :
  validators_of (set_validate (Some match vs with
                                    | [] => V_null
                                    | _ :: _ => V_many vs
                                    end) md) = vs.
Proof. destruct vs; reflexivity. Qed.

(** The field of a type declared with [NewType name typ field kwargs], from
    its first look at the new type on. *)
Lemma newtype_field (E : env) (name : string) (st : typ) (field : bool)
    (kwargs md : metadata) (default : option pyval) (b : base) (r : recs) (s : state) :
  md_marshmallow_field md = None ->
  _field_by_type E (TNewType name) b = None ->
  let md0 := default_metadata (TNewType name) default md in
  let vs := (validators_of kwargs ++ validators_of md)%list in
  let md3 := set_description
               (setdefault (or_else (md_description md) (md_description kwargs)) name)
               (md_merge kwargs
                  (set_validate (Some match vs with
                                      | [] => V_null
                                      | _ :: _ => V_many vs
                                      end) md0)) in
  _field_for_schema (NewType E name st field kwargs) r (TNewType name) default md b s
  = if field then construct (F_newtype name md3) md3 s
    else r_field_for_schema r st default md3 b s.
Proof.
  intros Hmd Hnew md0 vs md3.
  set (E' := NewType E name st field kwargs).
  unfold _field_for_schema.
  rewrite default_metadata_marshmallow_field, Hmd.
  cbn [_container_type_add_any in_CONTAINER_TYPES negb].
  change (_field_by_type E' (TNewType name) b) with (_field_by_type E (TNewType name) b).
  rewrite Hnew.
  unfold field_after_final, _field_for_annotated_type, _field_for_union_type,
    _field_for_container_type, bind, ret.
  cbn [is_union_type get_origin].
  change (e_supertype E' name)
    with (if String.eqb name name then Some st else e_supertype E name).
  rewrite String.eqb_refl.
  unfold _field_by_supertype.
  change (e_marshmallow_field E' name)
    with (if String.eqb name name then field else e_marshmallow_field E name).
  change (e_marshmallow_args E' name)
    with (if String.eqb name name then kwargs else e_marshmallow_args E name).
  rewrite String.eqb_refl.
  rewrite validators_of_default_metadata.
  cbn [md_description md_merge set_validate].
  rewrite default_metadata_description.
  destruct field; reflexivity.
Qed.

(** A field whose type was declared with [NewType]: the validators of the
    new type and those of the dataclass field are all kept, the new type's
    first; the description defaults to the name of the new type; and an
    option of the dataclass field, given or filled in by the defaults of
    [_field_for_schema] ([required] for a field without default), wins over
    the same option of the new type. With a field class attached to the new
    type that class is called on these options, otherwise the class mapped
    to the supertype is. *)
Theorem newtype_options_are_combined (E : env) (name c cls : string) (field : bool)
    (kwargs md : metadata) (default : option pyval) (b : base) (fuel : nat)
    (s : state) :
  md_marshmallow_field md = None ->
  md_marshmallow_field kwargs = None ->
  _field_by_type E (TNewType name) b = None ->
  _field_by_type E (TClass c) b = Some cls ->
  exists md',
    _field_for_schema (NewType E name (TClass c) field kwargs)
      (recs_at (NewType E name (TClass c) field kwargs) (S fuel))
      (TNewType name) default md b s
    = construct (if field then F_newtype name md' else F_mapped cls md') md' s /\
    validators_of md' = (validators_of kwargs ++ validators_of md)%list /\
    md_description md'
    = Some (get_or (or_else (md_description md) (md_description kwargs)) name) /\
    (forall v, md_required (default_metadata (TNewType name) default md) = Some v ->
               md_required md' = Some v) /\
    (forall v, md_allow_none md = Some v -> md_allow_none md' = Some v) /\
    (forall v, md_dump_default (default_metadata (TNewType name) default md) = Some v ->
               md_dump_default md' = Some v) /\
    (forall v, md_load_default (default_metadata (TNewType name) default md) = Some v ->
               md_load_default md' = Some v).
Proof.
  intros Hmd Hkw Hnew Hsup.
  rewrite (newtype_field E name (TClass c) field kwargs md default b _ s Hmd Hnew).
  set (vs := (validators_of kwargs ++ validators_of md)%list).
  set (md0 := default_metadata (TNewType name) default md).
  set (md3 := set_description _ _).
  assert (H3 : validators_of md3 = vs /\
               md_description md3
               = Some (get_or (or_else (md_description md) (md_description kwargs)) name) /\
               (forall v, md_required md0 = Some v -> md_required md3 = Some v) /\
               (forall v, md_allow_none md = Some v -> md_allow_none md3 = Some v) /\
               (forall v, md_dump_default md0 = Some v -> md_dump_default md3 = Some v) /\
               (forall v, md_load_default md0 = Some v -> md_load_default md3 = Some v) /\
               md_marshmallow_field md3 = None).
  { subst md3. unfold validators_of.
    cbn [md_validate md_description md_required md_allow_none md_dump_default
         md_load_default md_marshmallow_field set_description md_merge set_validate
         or_else].
    split; [destruct vs; reflexivity|].
    split; [destruct (or_else (md_description md) (md_description kwargs)); reflexivity|].
    split; [intros v H; now rewrite H|].
    split; [intros v H; unfold md0; rewrite default_metadata_allow_none, H; reflexivity|].
    split; [intros v H; now rewrite H|].
    split; [intros v H; now rewrite H|].
    unfold md0. now rewrite default_metadata_marshmallow_field, Hmd. }
  destruct H3 as (V3 & D3 & R3 & A3 & DD3 & L3 & F3).
  destruct field.
  - exists md3. repeat (split; [assumption || reflexivity|]). assumption.
  - cbn [recs_at r_field_for_schema]. unfold _field_for_schema.
    rewrite default_metadata_marshmallow_field, F3.
    cbn [_container_type_add_any in_CONTAINER_TYPES negb].
    change (_field_by_type (NewType E name (TClass c) false kwargs) (TClass c) b)
      with (_field_by_type E (TClass c) b).
    rewrite Hsup. eexists. split; [reflexivity|].
    destruct (default_metadata_extends (TClass c) default md3)
      as (X1 & X2 & X3 & X4 & X5 & X6 & X7).
    split; [rewrite validators_of_default_metadata; exact V3|].
    split; [rewrite default_metadata_description; exact D3|].
    repeat split; auto.
Qed.

Lemma newtype_options_are_combined_witness :
  exists md',
    _field_for_schema ipv4_table (recs_at ipv4_table 1) (TNewType "IPv4") None
      (set_validate (Some (V_many [8; 9])) empty_md) None initial_state
    = construct (F_mapped "String" md') md' initial_state /\
    validators_of md' = [7; 8; 9] /\ md_description md' = Some "IPv4".
Proof.
  destruct (newtype_options_are_combined person_table "IPv4" "str" "String" false
              (set_validate (Some (V_one 7)) empty_md)
              (set_validate (Some (V_many [8; 9])) empty_md) None None 0 initial_state
              eq_refl eq_refl eq_refl eq_refl) as (md' & H1 & H2 & H3 & _).
  exists md'. split; [exact H1|]. split; [exact H2 | exact H3].
Defined.

Lemma literal_keyword_given_twice (E : env) (r : recs) (vals : list pyval)
    (default : option pyval) (md : metadata) (b : base) (s : state)
    (v : validate_entry) :
  md_marshmallow_field md = None ->
  _field_by_type E (TLiteral vals) b = None ->
  md_validate md = Some v ->
  exists msg, _field_for_schema E r (TLiteral vals) default md b s
              = Raise (TypeError msg) s.
Proof.
  intros Hmd Hmap Hv. unfold _field_for_schema.
  rewrite default_metadata_marshmallow_field, Hmd.
  cbn [_container_type_add_any in_CONTAINER_TYPES negb]. rewrite Hmap.
  rewrite default_metadata_validate, Hv. eexists. reflexivity.
Qed.

(** A [Literal] field is built as [Raw(validate=..., **metadata)]: when the
    options already hold a ["validate"], the keyword is given twice and the
    call is a [TypeError]; nothing is warned or stored. *)
Theorem literal_with_validate_is_type_error (E : env) (r : recs) (vals : list pyval)
    (default : option pyval) (md : metadata) (b : base) (s : state)
    (v : validate_entry) :
  md_marshmallow_field md = None ->
  _field_by_type E (TLiteral vals) b = None ->
  md_validate md = Some v ->
  exists msg, _field_for_schema E r (TLiteral vals) default md b s
              = Raise (TypeError msg) s.
Proof.
  intros Hmd Hmap Hv. unfold _field_for_schema.
  rewrite default_metadata_marshmallow_field, Hmd.
  cbn [_container_type_add_any in_CONTAINER_TYPES negb]. rewrite Hmap.
  rewrite default_metadata_validate, Hv. unfold raise. eexists. reflexivity.
Qed.

Lemma literal_with_validate_is_type_error_witness :
  exists msg,
    _field_for_schema person_table (recs_at person_table 0) (TLiteral [VStr "r"])
      None (set_validate (Some (V_one 7)) empty_md) None initial_state
    = Raise (TypeError msg) initial_state.
Proof.
  exact (literal_with_validate_is_type_error person_table (recs_at person_table 0)
           [VStr "r"] None (set_validate (Some (V_one 7)) empty_md) None initial_state
           (V_one 7) eq_refl eq_refl eq_refl).
Defined.

(** [_field_by_supertype] always stores a ["validate"] entry (the
    validators, or [None] when there are none) before it synthesizes the
    supertype, so a new type over a [Literal], with no field class
    attached, cannot be synthesized: whatever its options and those of the
    dataclass field, the result is the [TypeError] of the doubled
    keyword. *)
Theorem newtype_over_literal_is_type_error (E : env) (name : string)
    (vals : list pyval) (kwargs md : metadata) (default : option pyval) (b : base)
    (fuel : nat) (s : state) :
  md_marshmallow_field md = None ->
  md_marshmallow_field kwargs = None ->
  _field_by_type E (TNewType name) b = None ->
  _field_by_type E (TLiteral vals) b = None ->
  exists msg,
    _field_for_schema (NewType E name (TLiteral vals) false kwargs)
      (recs_at (NewType E name (TLiteral vals) false kwargs) (S fuel))
      (TNewType name) default md b s
    = Raise (TypeError msg) s.
Proof.
  intros Hmd Hkw Hnew Hlit.
  rewrite (newtype_field E name (TLiteral vals) false kwargs md default b _ s Hmd Hnew).
  cbn [recs_at r_field_for_schema].
  eapply literal_keyword_given_twice.
  - cbn [md_marshmallow_field set_description md_merge set_validate or_else].
    now rewrite default_metadata_marshmallow_field, Hmd.
  - exact Hlit.
  - cbn [md_validate set_description md_merge set_validate or_else]. reflexivity.
Qed.

Lemma newtype_over_literal_is_type_error_witness :
  exists msg,
    _field_for_schema mode_table (recs_at mode_table 1) (TNewType "Mode") None empty_md
      None initial_state
    = Raise (TypeError msg) initial_state.
Proof.
  exact (newtype_over_literal_is_type_error person_table "Mode" [VStr "r"; VStr "w"]
           empty_md empty_md None None 0 initial_state eq_refl eq_refl eq_refl eq_refl).
Defined.

(** ** [Final], [Annotated] and tuples *)

Lemma default_metadata_again (t t' : typ) (d : pyval) (md : metadata) :
  default_metadata t' (Some d) (default_metadata t (Some d) md)
  = default_metadata t (Some d) md.
Proof.
  destruct md as [rq an dd ld mf vl ds]. unfold default_metadata, truthy_required.
  cbn. destruct rq as [[|]|]; cbn; destruct dd, ld; reflexivity.
Qed.

(** A field annotated with a bare [Final] has no type to go by. With a
    default factory the synthesizer warns once and calls [Raw], as for
    [Any]: [None] is allowed unless the options say otherwise, and the
    factory is the [dump_default] unless one is given. With no default at
    all it calls [Raw] with the same options without a warning, required
    unless the options say otherwise. *)
Theorem bare_final_is_raw (E : env) (fuel : nat) (md : metadata) (b : base)
    (s : state) :
  md_marshmallow_field md = None ->
  _field_by_type E (TFinal []) b = None ->
  _field_by_type E TAny b = None ->
  (forall factory, exists md' msg,
      _field_for_schema E (recs_at E (S fuel)) (TFinal []) (Some (VCallable factory))
        md b s
      = construct (F_Raw None md') md' (set_warnings (warnings s ++ [msg]) s) /\
      md_allow_none md' = Some (get_or (md_allow_none md) true) /\
      md_dump_default md' = Some (get_or (md_dump_default md) (VCallable factory)) /\
      md_required md' = md_required md) /\
  (exists md',
      _field_for_schema E (recs_at E (S fuel)) (TFinal []) None md b s
      = construct (F_Raw None md') md' s /\
      md_allow_none md' = Some (get_or (md_allow_none md) true) /\
      md_required md' = Some (get_or (md_required md) true) /\
      md_dump_default md' = md_dump_default md /\
      md_load_default md' = md_load_default md).
Proof.
  intros Hmd Hfinal Hany. split.
  - intros factory. eexists. eexists.
    unfold _field_for_schema at 1.
    rewrite default_metadata_marshmallow_field, Hmd.
    cbn [_container_type_add_any in_CONTAINER_TYPES negb]. rewrite Hfinal.
    cbn [callable]. unfold bind, warn, ret.
    cbn [recs_at r_field_for_schema]. unfold _field_for_schema.
    rewrite default_metadata_again, default_metadata_marshmallow_field, Hmd.
    cbn [_container_type_add_any in_CONTAINER_TYPES negb]. rewrite Hany.
    unfold ret. split; [reflexivity|].
    destruct md as [rq an dd ld mf vl ds]. unfold default_metadata, truthy_required.
    cbn. destruct rq as [[|]|]; cbn; destruct an, dd; repeat split.
  - eexists.
    unfold _field_for_schema at 1.
    rewrite default_metadata_marshmallow_field, Hmd.
    cbn [_container_type_add_any in_CONTAINER_TYPES negb]. rewrite Hfinal.
    unfold bind, ret.
    cbn [recs_at r_field_for_schema]. unfold _field_for_schema.
    rewrite !default_metadata_marshmallow_field, Hmd.
    cbn [_container_type_add_any in_CONTAINER_TYPES negb]. rewrite Hany.
    unfold ret. split; [reflexivity|].
    destruct md as [rq an dd ld mf vl ds]. unfold default_metadata.
    cbn. destruct rq, an; repeat split.
Qed.

Lemma bare_final_is_raw_witness :
  exists md',
    _field_for_schema person_table (recs_at person_table 1) (TFinal []) None empty_md
      None initial_state
    = construct (F_Raw None md') md' initial_state /\
    md_allow_none md' = Some true /\ md_required md' = Some true.
Proof.
  destruct (proj2 (bare_final_is_raw person_table 0 empty_md None initial_state
                     eq_refl eq_refl eq_refl)) as (md' & H1 & H2 & H3 & _).
  exists md'. split; [exact H1|]. split; [exact H2 | exact H3].
Defined.

(** Of the arguments of [Annotated] that are marshmallow fields the last
    one is the field, whatever the annotated type is (it is not
    synthesized); a warning is issued exactly when there are several. A
    field instance is returned as it is, without the options; a field
    class is called on the options. *)
Theorem last_field_annotation_wins (E : env) (r : recs) (t : typ) (anns : list nat)
    (others : list nat) (a : nat) (default : option pyval) (md : metadata)
    (b : base) (s : state) :
  md_marshmallow_field md = None ->
  _field_by_type E (TAnnotated t anns) b = None ->
  filter (is_marshmallow_annotation E) anns = (others ++ [a])%list ->
  let options := default_metadata (TAnnotated t anns) default md in
  let warned :=
    match others with
    | [] => s
    | _ :: _ =>
        set_warnings
          (warnings s
           ++ ["Multiple marshmallow Field annotations found. Using the last one."]) s
    end in
  _field_for_schema E r (TAnnotated t anns) default md b s
  = match e_annotation E a with
    | Ann_field_instance => Ok (F_ann_instance a) warned
    | _ => construct (F_ann_call a options) options warned
    end.
Proof.
  intros Hmd Hmap Hf options warned. unfold _field_for_schema.
  rewrite default_metadata_marshmallow_field, Hmd.
  cbn [_container_type_add_any in_CONTAINER_TYPES negb]. rewrite Hmap.
  unfold field_after_final, _field_for_annotated_type.
  rewrite Hf, rev_app_distr. cbn [rev app]. unfold bind at 1. unfold bind at 1.
  assert (Hw : (match rev others with
                | [] => ret tt
                | _ :: _ =>
                    warn "Multiple marshmallow Field annotations found. Using the last one."
                end) s
               = Ok tt (match others with
                        | [] => s
                        | _ :: _ =>
                            set_warnings
                              (warnings s
                               ++ ["Multiple marshmallow Field annotations found. Using the last one."]) s
                        end)).
  { destruct others as [|o os]; [reflexivity|].
    cbn [rev]. destruct (rev os); reflexivity. }
  rewrite Hw. fold options. fold warned.
  destruct (e_annotation E a); try reflexivity;
    unfold found, construct, Field_init, bind, ret, raise;
    destruct (refuses options); reflexivity.
Qed.

Lemma last_field_annotation_wins_witness :
  _field_for_schema annotated_table (recs_at annotated_table 0)
    (TAnnotated (TClass "str") [1; 0; 2; 0]) None empty_md None initial_state
  = Ok (F_ann_instance 2)
       (set_warnings
          ["Multiple marshmallow Field annotations found. Using the last one."]
          initial_state).
Proof.
  exact (last_field_annotation_wins annotated_table (recs_at annotated_table 0)
           (TClass "str") [1; 0; 2; 0] [1] 2 None empty_md None initial_state
           eq_refl eq_refl eq_refl).
Defined.

Lemma mapM_length {A B : Type} (f : A -> M B) (l : list A) :
  forall s ys s', mapM f l s = Ok ys s' -> length ys = length l.
Proof.
  induction l as [|x l IH]; simpl; intros s ys s' H.
  - inversion H. reflexivity.
  - unfold bind in H.
    destruct (f x s) as [y s1|e s1|]; try discriminate.
    destruct (mapM f l s1) as [ys1 s2|e s2|] eqn:Hl; try discriminate.
    inversion H; subst. simpl. f_equal. eapply IH. exact Hl.
Qed.

(** The field class of a tuple of fixed length is looked up in the
    [TYPE_MAPPING] of the base schema under [tuple] and, when that gives
    marshmallow's [Raw] or nothing, under [typing.List], where the class of
    a list is looked up as well. A base schema that maps [typing.List] to a
    list field class of its own gets that class for its lists, and no field
    for its fixed-length tuples: once the children are synthesized the list
    class is called on the tuple of them and refuses it with a
    [ValueError]. With no entry under [typing.List] the field is
    marshmallow's [Tuple] with one child field per argument, in order. *)
Theorem fixed_tuple_field_class (E : env) (r : recs) (args : list typ) (md : metadata)
    (b : nat) (children : list field) (s s' : state) :
  (forall a0, args <> [a0; TEllipsis]) ->
  type_mapping_get E (Some b) b_tuple "Raw" = "Raw" ->
  type_mapping_get E (Some b) b_list "Raw" = "Raw" ->
  mapM (child_field r (Some b)) args s = Ok children s' ->
  refuses md = false ->
  (forall cls,
      e_base_TYPE_MAPPING E b (TBare b_List) = Some cls ->
      _field_for_container_type E r (TContainer o_tuple args) (Some b) md s
      = Raise list_elements_error s' /\
      (forall a child_type s0 s1,
          child_field r (Some b) a s0 = Ok child_type s1 ->
          _field_for_container_type E r (List_ a) (Some b) md s0
          = Ok (Some (F_List cls child_type md)) s1)) /\
  (e_base_TYPE_MAPPING E b (TBare b_List) = None ->
   _field_for_container_type E r (TContainer o_tuple args) (Some b) md s
   = Ok (Some (F_Tuple "Tuple" children md)) s' /\
   length children = length args).
Proof.
  intros Hargs Htuple Hlist Hm Hmd.
  assert (Hrun : _field_for_container_type E r (TContainer o_tuple args) (Some b) md s
                 = tuple_field E (Some b) children md s').
  { assert (Hgen : (children0 <- mapM (child_field r (Some b)) args ;;
                    tuple_field E (Some b) children0 md) s
                   = tuple_field E (Some b) children md s')
      by (unfold bind; now rewrite Hm).
    unfold _field_for_container_type. cbn [get_origin get_args].
    destruct args as [|a0 [|a1 l]]; try exact Hgen.
    destruct a1; try exact Hgen. destruct l; try exact Hgen.
    exfalso. exact (Hargs a0 eq_refl). }
  rewrite Hrun. unfold tuple_field, type_mapping_find. rewrite Htuple.
  cbn [String.eqb Ascii.eqb Bool.eqb].
  split.
  - intros cls HList. rewrite HList. split.
    + unfold Field_init, bind. rewrite Hmd. reflexivity.
    + intros a child_type s0 s1 Hc.
      unfold _field_for_container_type, List_. cbn [get_origin get_args].
      unfold arg_at. cbn [nth_error]. unfold bind at 1. unfold ret at 1.
      unfold bind at 1. rewrite Hc, Hlist.
      cbn [String.eqb Ascii.eqb Bool.eqb].
      unfold type_mapping_get. rewrite HList. cbn [get_or].
      now apply found_ok.
  - intros HList. rewrite HList. split; [now apply found_ok|].
    eapply mapM_length. exact Hm.
Qed.

Lemma fixed_tuple_field_class_witness :
  exists s',
    _field_for_container_type list_mapping_table (recs_at list_mapping_table 1)
      (TContainer o_tuple [TClass "int"; TClass "str"]) (Some 0) empty_md in_context
    = Raise list_elements_error s'.
Proof.
  assert (H : mapM (child_field (recs_at list_mapping_table 1) (Some 0))
                [TClass "int"; TClass "str"] in_context
              = Ok [F_mapped "Integer" required_md; F_mapped "String" required_md]
                   in_context)
    by (vm_compute; reflexivity).
  eexists.
  exact (proj1 (proj1 (fixed_tuple_field_class list_mapping_table
                         (recs_at list_mapping_table 1)
                         [TClass "int"; TClass "str"] empty_md 0 _ _ _
                         (fun a0 (Heq : [TClass "int"; TClass "str"] = [a0; TEllipsis]) =>
                            eq_ind (TClass "str")
                                   (fun t => match t with TClass _ => True | _ => False end)
                                   I _ (f_equal (fun l => nth 1 l TAny) Heq))
                         eq_refl eq_refl H eq_refl)
                      "MyList" eq_refl)).
Defined.

(** ** Classes that are no dataclasses *)

(** A class met as the type of a field that is no dataclass is converted:
    one warning is issued before the conversion is tried, and from then on
    every error other than an unresolved type variable -- the error of a
    conversion that fails, but also any error met while the converted
    class is compiled -- comes out as the [TypeError] that names the class
    as one that is no dataclass and cannot be turned into one. When the
    conversion itself fails, nothing but the warning and the registration
    of the class is left behind. *)
Theorem conversion_errors_name_the_class (E : env) (fuel : nat) (clazz : typ)
    (base_schema : base) (s : state) (ctx : SchemaContext) (st : list SchemaContext) :
  stack s = ctx :: st ->
  cache_get (clazz, base_schema) (cache s) = None ->
  e_is_generic_type E clazz = false ->
  is_dataclass E s clazz = false ->
  exists s1,
    warnings s1 = (warnings s ++ [conversion_warning])%list /\
    cache s1 = cache s /\ heap s1 = heap s /\ converted s1 = converted s /\
    (forall exc,
        e_dataclass E clazz = Some exc -> isinstance_UnboundTypeVarError exc = false ->
        _internal_class_schema E (S fuel) clazz base_schema s
        = Raise (TypeError (not_a_dataclass_message (e_name E clazz))) s1) /\
    (forall exc s3,
        e_dataclass E clazz = None ->
        _internal_class_schema E fuel clazz base_schema
          (set_converted (clazz :: converted s1) s1) = Raise exc s3 ->
        isinstance_UnboundTypeVarError exc = false ->
        _internal_class_schema E (S fuel) clazz base_schema s
        = Raise (TypeError (not_a_dataclass_message (e_name E clazz))) s3).
Proof.
  intros Hs Hc Hg Hdc.
  set (s0 := set_stack (mkCtx (dict_set clazz (e_name E clazz) (seen_classes ctx))
                              (globalns ctx) (localns ctx) :: st) s).
  exists (set_warnings (warnings s0 ++ [conversion_warning]) s0).
  repeat (split; [reflexivity|]).
  assert (Hbody : _internal_class_schema_body E (recs_at E fuel) clazz base_schema s =
                  match e_dataclass E clazz with
                  | Some exc =>
                      if isinstance_UnboundTypeVarError exc
                      then Raise exc (set_warnings (warnings s0 ++ [conversion_warning]) s0)
                      else Raise (TypeError (not_a_dataclass_message (e_name E clazz)))
                                 (set_warnings (warnings s0 ++ [conversion_warning]) s0)
                  | None =>
                      match r_internal_class_schema (recs_at E fuel) clazz base_schema
                              (set_converted
                                 (clazz :: converted
                                    (set_warnings (warnings s0 ++ [conversion_warning]) s0))
                                 (set_warnings (warnings s0 ++ [conversion_warning]) s0)) with
                      | Ok schema s3 => Ok schema s3
                      | Raise exc s3 =>
                          if isinstance_UnboundTypeVarError exc then Raise exc s3
                          else Raise (TypeError (not_a_dataclass_message (e_name E clazz))) s3
                      | Diverge => Diverge
                      end
                  end).
  { apply (body_converts_and_retries E (recs_at E fuel) clazz base_schema s ctx s0
             (TypeError "must be called with a dataclass type or instance")).
    - unfold top. now rewrite Hs.
    - unfold register_seen. now rewrite Hs.
    - unfold _dataclass_fields, dataclasses_fields. rewrite Hg. cbn [negb].
      change (is_dataclass E s0 clazz) with (is_dataclass E s clazz).
      now rewrite Hdc.
    - reflexivity.
    - reflexivity. }
  unfold _internal_class_schema. cbn [recs_at r_internal_class_schema].
  unfold lru_cache. rewrite Hc, Hbody. split.
  - intros exc He Hu. now rewrite He, Hu.
  - intros exc s3 He Hrun Hu. rewrite He.
    unfold _internal_class_schema in Hrun. rewrite Hrun, Hu. reflexivity.
Qed.

Lemma conversion_errors_name_the_class_witness :
  exists s1,
    _internal_class_schema error_table 1 (TClass "Bad") None in_context
    = Raise (TypeError "Bad is not a dataclass and cannot be turned into one.") s1 /\
    warnings s1 = [conversion_warning].
Proof.
  destruct (conversion_errors_name_the_class error_table 0 (TClass "Bad") None in_context
              (new_SchemaContext None None) [] eq_refl eq_refl eq_refl eq_refl)
    as (s1 & Hw & _ & _ & _ & Hfail & _).
  exists s1. split; [|exact Hw].
  exact (Hfail mutable_default_error eq_refl eq_refl).
Defined.

(** The decorators check what they are given before anything else: for
    an object that is no class, [add_schema] and [dataclass] raise the
    [TypeError] that shows the object, and [dataclasses.dataclass] is not
    run on it. *)
Theorem decorators_refuse_what_is_no_class
    (isinstance_type is_generic_alias is_generic_type : typ -> bool)
    (repr : typ -> string) (callers_frame : typ -> option nat) (dc : typ -> M typ)
    (cls : typ) (base_schema : base) (frame : option nat) (s : state) :
  isinstance_type cls = false ->
  add_schema isinstance_type is_generic_alias is_generic_type repr callers_frame
    cls base_schema frame s
  = Raise (TypeError ("expected a class not " ++ repr cls)) s /\
  dataclass isinstance_type is_generic_alias is_generic_type repr callers_frame dc
    cls base_schema frame s
  = Raise (TypeError ("expected a class not " ++ repr cls)) s.
Proof.
  intros H. unfold dataclass, add_schema, bind, _check_decorated_type.
  rewrite H. split; reflexivity.
Qed.

Lemma decorators_refuse_what_is_no_class_witness :
  dataclass (e_isinstance_type person_table) (e_is_generic_alias person_table)
    (e_is_generic_type person_table) (e_name person_table)
    (e_callers_frame person_table) (dataclasses_dataclass person_table)
    (TLiteral [VInt 3]) None None initial_state
  = Raise (TypeError "expected a class not repr") initial_state.
Proof.
  exact (proj2 (decorators_refuse_what_is_no_class
                  (e_isinstance_type person_table) (e_is_generic_alias person_table)
                  (e_is_generic_type person_table) (e_name person_table)
                  (e_callers_frame person_table) (dataclasses_dataclass person_table)
                  (TLiteral [VInt 3]) None None initial_state eq_refl)).
Defined.

(** ** Containers and their arguments *)

(** [Tuple[T, ...]] is synthesized exactly as [Sequence[T]] is: the field
    of [T] first, then the sequence field class called on it and on the
    options. *)
Theorem variadic_tuple_is_a_sequence (E : env) (r : recs) (a : typ) (b : base)
    (md : metadata) (s : state) :
  _field_for_container_type E r (TContainer o_tuple [a; TEllipsis]) b md s
  = _field_for_container_type E r (TContainer o_Sequence [a]) b md s /\
  _field_for_container_type E r (TContainer o_tuple [a; TEllipsis]) b md s
  = match child_field r b a s with
    | Ok child_type s' =>
        if refuses md then Raise required_with_load_default s'
        else Ok (Some (F_Sequence child_type md)) s'
    | Raise e s' => Raise e s'
    | Diverge => Diverge
    end.
Proof.
  unfold _field_for_container_type. cbn [get_origin get_args].
  unfold arg_at. cbn [nth_error].
  unfold found, construct, Field_init, bind, ret, raise.
  split; destruct (child_field r b a s); try reflexivity.
  destruct (refuses md); reflexivity.
Qed.

(** The dispatch on containers reads [arguments[0]] and, for a mapping,
    [arguments[1]]: a container hint with fewer arguments (as the builtin
    generic classes allow: [list[()]], [dict[str]]) ends in the plain
    [IndexError] of the subscript, for a one-argument mapping after the
    field of the keys has been synthesized. A tuple has no such subscript:
    with no argument, the tuple field class is called without children
    (a base schema with no entry under [typing.List]). *)
Theorem container_with_too_few_arguments (E : env) (r : recs) (b : base)
    (md : metadata) (s : state) :
  (forall o, o <> o_tuple ->
             _field_for_container_type E r (TContainer o []) b md s = Raise IndexError s) /\
  (forall o a keys s1,
      o = o_dict \/ o = o_Mapping ->
      child_field r b a s = Ok keys s1 ->
      _field_for_container_type E r (TContainer o [a]) b md s = Raise IndexError s1) /\
  (type_mapping_find E b b_List = None ->
   exists cls, _field_for_container_type E r (TContainer o_tuple []) b md s
               = (if refuses md then Raise required_with_load_default s
                  else Ok (Some (F_Tuple cls [] md)) s)).
Proof.
  split; [|split].
  - intros o Ho. destruct o; try reflexivity. now elim Ho.
  - intros o a keys s1 [-> | ->] Hk;
      unfold _field_for_container_type; cbn [get_origin get_args];
      unfold arg_at; cbn [nth_error]; unfold bind, ret, raise; now rewrite Hk.
  - intros HList.
    unfold _field_for_container_type. cbn [get_origin get_args mapM].
    unfold bind at 1. unfold ret at 1. unfold tuple_field. rewrite HList.
    destruct (String.eqb _ "Raw"); eexists;
      unfold found, construct, Field_init, bind, ret, raise;
      destruct (refuses md); reflexivity.
Qed.

Lemma container_with_too_few_arguments_witness :
  _field_for_container_type person_table (recs_at person_table 1)
    (TContainer o_dict [TClass "str"]) None empty_md in_context
  = Raise IndexError in_context.
Proof.
  exact (proj1 (proj2 (container_with_too_few_arguments person_table
                         (recs_at person_table 1) None empty_md in_context))
           o_dict (TClass "str") (F_mapped "String" required_md) in_context
           (or_introl eq_refl) eq_refl).
Defined.

(** ** A plain class given to [class_schema] *)

(** [class_schema] turns a class that is no dataclass (and no alias of
    one) into a dataclass before anything else, in place and without a
    warning: when the conversion goes through, the call does exactly what
    it does for the class once converted. *)
Theorem plain_class_is_converted_silently (E : env) (fuel : nat) (clazz : typ)
    (base_schema : base) (s : state) :
  is_dataclass E s clazz = false ->
  is_generic_alias_of_dataclass E s clazz = false ->
  e_dataclass E clazz = None ->
  class_schema E fuel clazz base_schema s
  = class_schema E fuel clazz base_schema (set_converted (clazz :: converted s) s) /\
  is_dataclass E (set_converted (clazz :: converted s) s) clazz = true.
Proof.
  intros Hdc Halias Hconv.
  assert (Hnow : is_dataclass E (set_converted (clazz :: converted s) s) clazz = true).
  { unfold is_dataclass. cbn [converted set_converted existsb].
    now rewrite typ_eqb_refl, orb_true_r. }
  split; [|exact Hnow].
  unfold class_schema, class_schema_body, bind.
  rewrite Hdc, Halias, Hnow. cbn [negb andb].
  unfold dataclasses_dataclass. rewrite Hconv. reflexivity.
Qed.

Lemma plain_class_is_converted_silently_witness :
  class_schema error_table 3 (TClass "Plain") None initial_state
  = class_schema error_table 3 (TClass "Plain") None
      (set_converted [TClass "Plain"] initial_state).
Proof.
  exact (proj1 (plain_class_is_converted_silently error_table 3 (TClass "Plain") None
                  initial_state eq_refl eq_refl eq_refl)).
Defined.

(** ** Calls that follow a compilation *)

Lemma internal_call_leaves_key_cached (E : env) (fuel : nat) (R : typ) (B : base)
    (s : state) (schema : nat) (s' : state) :
  r_internal_class_schema (recs_at E fuel) R B s = Ok schema s' ->
  exists v, cache_get (R, B) (cache s') = Some v.
Proof.
  destruct fuel as [|n]; [discriminate|]. cbn [recs_at r_internal_class_schema].
  unfold lru_cache. intros H.
  destruct (cache_get (R, B) (cache s)) as [v|] eqn:Hc.
  - inversion H; subst. exists schema. cbn [cache set_cache cache_get].
    now rewrite key_eqb_refl.
  - destruct (_internal_class_schema_body E (recs_at E n) R B s) as [a s1|e s1|];
      try discriminate.
    destruct (cache_get (R, B) (cache s1)) as [v|] eqn:Hc1.
    + inversion H; subst. now exists v.
    + inversion H; subst. exists schema. cbn [cache set_cache]. apply cache_get_stored.
Qed.

(** Whatever classes carry accessors of generic records: once
    [class_schema] has returned for a dataclass, a schema class is in the
    cache under its key, and every further call made from there returns
    that cached class and keeps it cached, creating no schema class. (The
    class the first call returned may be another one.) *)
Theorem later_calls_return_the_cached_schema (E : env) (R : typ) (B : base)
    (fuel : nat) (s : state) (schema : nat) (s1 : state) :
  e_is_dataclass E R = true ->
  class_schema E fuel R B s = Ok schema s1 ->
  exists v,
    cache_get (R, B) (cache s1) = Some v /\
    (forall fuel' s2,
        stack s2 = stack s1 -> cache_get (R, B) (cache s2) = Some v ->
        exists s3,
          class_schema E (S fuel') R B s2 = Ok v s3 /\
          stack s3 = stack s1 /\ cache_get (R, B) (cache s3) = Some v /\
          heap s3 = heap s2).
Proof.
  intros Hdc Hrun.
  unfold class_schema, class_schema_body, bind, is_dataclass in Hrun.
  rewrite Hdc in Hrun. cbn [orb negb andb] in Hrun.
  unfold with_, SchemaContext_enter, SchemaContext_exit, push, pop in Hrun.
  match type of Hrun with
  | context [r_internal_class_schema _ R B ?s0] =>
      destruct (r_internal_class_schema (recs_at E fuel) R B s0) as [a s'|e s'|] eqn:Hin
  end; try discriminate; [|destruct (stack s'); discriminate].
  destruct (internal_call_leaves_key_cached E fuel R B _ a s' Hin) as [v Hv].
  destruct (stack s') as [|c st] eqn:Hst; [discriminate|].
  inversion Hrun; subst schema s1. clear Hrun.
  exists v. split; [exact Hv|].
  intros fuel' s2 Hs2 Hc2.
  unfold class_schema, class_schema_body, bind, is_dataclass.
  rewrite Hdc. cbn [orb negb andb].
  unfold with_, SchemaContext_enter, SchemaContext_exit, push, pop.
  cbn [recs_at r_internal_class_schema]. unfold lru_cache.
  cbn [cache set_stack]. rewrite Hc2.
  cbn [stack set_cache set_stack]. eexists. split; [reflexivity|].
  cbn [stack cache heap set_stack set_cache cache_get] in *. rewrite key_eqb_refl.
  repeat split. exact Hs2.
Qed.

Lemma later_calls_return_the_cached_schema_witness :
  exists v s1 s3,
    class_schema shared_table 8 (TClass "R") None initial_state = Ok 3 s1 /\
    cache_get (TClass "R", None) (cache s1) = Some v /\
    class_schema shared_table 1 (TClass "R") None s1 = Ok v s3 /\
    cache_get (TClass "R", None) (cache s3) = Some v.
Proof.
  assert (H : exists s1, class_schema shared_table 8 (TClass "R") None initial_state
                         = Ok 3 s1)
    by (eexists; vm_compute; reflexivity).
  destruct H as [s1 H].
  destruct (later_calls_return_the_cached_schema shared_table (TClass "R") None 8
              initial_state 3 s1 eq_refl H) as (v & Hv & Hnext).
  destruct (Hnext 0 s1 eq_refl Hv) as (s3 & H3 & _ & Hc3 & _).
  exists v, s1, s3.
  split; [exact H|]. split; [exact Hv|]. split; [exact H3 | exact Hc3].
Defined.

(** ** Hints that need no compilation *)

Lemma optional_metadata_validate (md : metadata) :
  md_validate (optional_metadata md) = md_validate md.
Proof. unfold optional_metadata. destruct (negb _); reflexivity. Qed.

Lemma container_field_is_the_field (E : env) (r : recs) (o : origin) (args : list typ)
    (d : option pyval) (md : metadata) (b : base) (s : state) (f : field) :
  _field_for_container_type E r (TContainer o args) b md s = Ok (Some f) s ->
  field_after_final E r (TContainer o args) d md b s = Ok f s.
Proof.
  intros H. unfold field_after_final, _field_for_annotated_type, _field_for_union_type.
  cbn [is_union_type]. unfold bind at 1. unfold ret at 1.
  unfold bind at 1. unfold ret at 1. unfold bind. now rewrite H.
Qed.

Lemma tuple_field_ok (E : env) (b : base) (children : list field) (md : metadata)
    (s : state) :
  tuple_has_class E b = true -> refuses md = false ->
  exists f, tuple_field E b children md s = Ok (Some f) s.
Proof.
  intros Ht Hmd. unfold tuple_field, tuple_has_class in *.
  destruct (String.eqb _ "Raw"); cbn [negb orb] in Ht.
  - destruct (type_mapping_find E b b_List); [discriminate|].
    eexists. now apply found_ok.
  - eexists. now apply found_ok.
Qed.

Lemma tuple_field_of_children (E : env) (r : recs) (args : list typ) (md : metadata)
    (b : base) (s : state) :
  refuses md = false ->
  match args with
  | [a; TEllipsis] => exists f, child_field r b a s = Ok f s
  | _ => tuple_has_class E b = true /\
         exists fs, mapM (child_field r b) args s = Ok fs s
  end ->
  exists f, _field_for_container_type E r (TContainer o_tuple args) b md s
            = Ok (Some f) s.
Proof.
  intros Hmd. unfold _field_for_container_type. cbn [get_origin get_args].
  assert (Hfixed : forall l,
            tuple_has_class E b = true /\
            (exists fs, mapM (child_field r b) l s = Ok fs s) ->
            exists f, (children <- mapM (child_field r b) l ;;
                       tuple_field E b children md) s = Ok (Some f) s).
  { intros l [Ht [fs Hfs]]. unfold bind. rewrite Hfs. now apply tuple_field_ok. }
  destruct args as [|a0 [|a1 l]]; [apply Hfixed..|].
  destruct a1; try apply Hfixed. destruct l; [|apply Hfixed].
  intros [x Hx]. unfold bind. rewrite Hx. eexists. now apply found_ok.
Qed.

Lemma closed_hint_field (E : env) (b : base) :
  forall k t fuel d md s,
    closed_hint E b k t = true -> k <= fuel -> md_validate md = None ->
    options_fit d md = true ->
    exists f, r_field_for_schema (recs_at E fuel) t d md b s = Ok f s.
Proof.
  induction k as [|k IH]; intros t fuel d md s Hc Hk Hv Hfit; [discriminate|].
  destruct fuel as [|fuel]; [lia|]. apply le_S_n in Hk.
  cbn [recs_at r_field_for_schema].
  assert (Hr0 : forall t', refuses (default_metadata t' d md) = false)
    by (intros t'; now apply fit_default).
  assert (Hchild : forall a, closed_hint E b k a = true ->
            exists f, child_field (recs_at E fuel) b a s = Ok f s).
  { intros a Ha. unfold child_field. now apply (IH a fuel None empty_md s Ha Hk). }
  assert (Hchildren : forall args, forallb (closed_hint E b k) args = true ->
            exists fs, mapM (child_field (recs_at E fuel) b) args s = Ok fs s).
  { intros args Ha. apply mapM_ok_same_state. apply Forall_forall. intros a Hin.
    apply Hchild. rewrite forallb_forall in Ha. now apply Ha. }
  assert (Hcont : forall o args md0,
            refuses md0 = false ->
            (exists f, _field_for_container_type E (recs_at E fuel) (TContainer o args)
                         b md0 s = Ok (Some f) s) ->
            exists f,
              match _field_by_type E (TContainer o args) b with
              | Some fld => construct (F_mapped fld md0) md0
              | None => field_after_final E (recs_at E fuel) (TContainer o args) d md0 b
              end s = Ok f s).
  { intros o args md0 Hr [f Hf]. destruct (_field_by_type E _ b).
    - eexists. now apply construct_ok.
    - exists f. now apply container_field_is_the_field. }
  assert (Hone : forall o a md0,
            refuses md0 = false ->
            o <> o_tuple -> o <> o_dict -> o <> o_Mapping ->
            closed_hint E b k a = true ->
            exists f, _field_for_container_type E (recs_at E fuel) (TContainer o [a])
                        b md0 s = Ok (Some f) s).
  { intros o a md0 Hr H1 H2 H3 Ha. destruct (Hchild a Ha) as [f Hf].
    unfold _field_for_container_type, arg_at. cbn [get_origin get_args nth_error].
    destruct o; try contradiction;
      bind_step reflexivity; bind_step ltac:(exact Hf);
      eexists; now apply found_ok. }
  assert (Htwo : forall o K V md0,
            refuses md0 = false ->
            o = o_dict \/ o = o_Mapping ->
            closed_hint E b k K = true -> closed_hint E b k V = true ->
            exists f, _field_for_container_type E (recs_at E fuel) (TContainer o [K; V])
                        b md0 s = Ok (Some f) s).
  { intros o K V md0 Hr Ho HK HV.
    destruct (Hchild K HK) as [fk Hfk]. destruct (Hchild V HV) as [fv Hfv].
    unfold _field_for_container_type, arg_at. cbn [get_origin get_args nth_error].
    destruct Ho; subst o;
      bind_step reflexivity; bind_step ltac:(exact Hfk);
      bind_step reflexivity; bind_step ltac:(exact Hfv);
      eexists; now apply found_ok. }
  unfold _field_for_schema.
  destruct t; cbn [closed_hint] in Hc; try discriminate;
    (destruct (md_marshmallow_field _); [eexists; reflexivity|]).
  - (* TAny *)
    cbn [_container_type_add_any in_CONTAINER_TYPES negb].
    destruct (_field_by_type E TAny b); eexists; apply construct_ok; apply Hr0.
  - (* TClass *)
    cbn [_container_type_add_any in_CONTAINER_TYPES negb].
    destruct (_field_by_type E (TClass name) b); [|discriminate].
    eexists; apply construct_ok; apply Hr0.
  - (* TBare *)
    destruct b0; try discriminate;
      cbn [_container_type_add_any in_CONTAINER_TYPES negb];
      try (apply Hcont; [apply Hr0|];
           first [ apply Hone; [apply Hr0|discriminate..|exact Hc]
                 | apply Htwo; [apply Hr0 | auto | exact Hc | exact Hc] ]).
    unfold field_after_final, _field_for_annotated_type, _field_for_union_type,
      _field_for_container_type.
    cbn [is_union_type get_origin get_args mapM].
    destruct (tuple_field_ok E b [] (default_metadata (TBare b_Tuple) d md) s Hc (Hr0 _))
      as [f Hf].
    do 2 (bind_step reflexivity).
    bind_step ltac:(erewrite bind_ok by reflexivity; exact Hf).
    eexists. reflexivity.
  - (* TContainer *)
    cbn [_container_type_add_any in_CONTAINER_TYPES negb].
    apply Hcont; [apply Hr0|].
    destruct o.
    + destruct args as [|a [|? ?]]; try discriminate.
      apply Hone; [apply Hr0|discriminate..|exact Hc].
    + apply tuple_field_of_children; [apply Hr0|].
      destruct args as [|a0 [|a1 l]]; [| |destruct a1; try destruct l];
        try (apply andb_prop in Hc; destruct Hc as [Ht Hc]; split;
             [exact Ht | apply Hchildren; exact Hc]).
      apply Hchild. exact Hc.
    + destruct args as [|a [|? ?]]; try discriminate.
      apply Hone; [apply Hr0|discriminate..|exact Hc].
    + destruct args as [|a [|? ?]]; try discriminate.
      apply Hone; [apply Hr0|discriminate..|exact Hc].
    + destruct args as [|a [|? ?]]; try discriminate.
      apply Hone; [apply Hr0|discriminate..|exact Hc].
    + destruct args as [|K [|V [|? ?]]]; try discriminate.
      apply andb_prop in Hc. destruct Hc. apply Htwo; auto.
    + destruct args as [|K [|V [|? ?]]]; try discriminate.
      apply andb_prop in Hc. destruct Hc. apply Htwo; auto.
  - (* TUnion *)
    cbn [_container_type_add_any in_CONTAINER_TYPES negb].
    destruct (_field_by_type E _ b); [eexists; apply construct_ok; apply Hr0|].
    apply andb_prop in Hc. destruct Hc as [Hshape Hc].
    unfold field_after_final, _field_for_annotated_type, _field_for_union_type.
    cbn [is_union_type get_args]. bind_step reflexivity.
    fold (non_null args).
    set (md' := if is_optional_type (TUnion args) then _ else _).
    assert (Hv' : md_validate md' = None).
    { subst md'. destruct (is_optional_type _);
        rewrite ?optional_metadata_validate, default_metadata_validate; exact Hv. }
    assert (Hr' : refuses md' = false).
    { subst md'. destruct (is_optional_type _); [|apply Hr0].
      apply (fit_again TAny). now apply fit_optional. }
    assert (Halts : exists alts,
              mapM (fun subtyp =>
                      f <- r_field_for_schema (recs_at E fuel) subtyp None required_md b ;;
                      ret (subtyp, f)) (non_null args) s = Ok alts s).
    { apply mapM_ok_same_state. apply Forall_forall. intros a Hin.
      rewrite forallb_forall in Hc.
      destruct (IH a fuel None required_md s (Hc a Hin) Hk eq_refl eq_refl) as [f Hf].
      unfold bind, ret. rewrite Hf. eexists; reflexivity. }
    destruct Halts as [alts Halts].
    destruct (non_null args) as [|a0 [|a1 l]] eqn:Hnn.
    + bind_step ltac:(erewrite bind_ok by exact Halts; now apply found_ok).
      eexists; reflexivity.
    + cbn [forallb] in Hc. apply andb_prop in Hc. destruct Hc as [Ha0 _].
      assert (Hfit' : options_fit None md' = true).
      { subst md'. cbn [length Nat.eqb negb] in Hshape. rewrite orb_false_r in Hshape.
        rewrite Hshape. now apply fit_optional. }
      destruct (IH a0 fuel None md' s Ha0 Hk Hv' Hfit') as [f Hf].
      bind_step ltac:(erewrite bind_ok by exact Hf; reflexivity).
      eexists; reflexivity.
    + bind_step ltac:(erewrite bind_ok by exact Halts; now apply found_ok).
      eexists; reflexivity.
  - (* TLiteral *)
    cbn [_container_type_add_any in_CONTAINER_TYPES negb].
    destruct (_field_by_type E _ b); [eexists; apply construct_ok; apply Hr0|].
    rewrite default_metadata_validate, Hv. eexists; apply construct_ok; apply Hr0.
  - (* TFinal *)
    cbn [_container_type_add_any in_CONTAINER_TYPES negb].
    destruct (_field_by_type E _ b); [eexists; apply construct_ok; apply Hr0|].
    destruct args as [|a rest]; [discriminate|].
    unfold bind, ret.
    apply IH; [exact Hc | exact Hk | | now apply fit_final].
    now rewrite default_metadata_validate.
Qed.

(** On the hints built from [Any], literals and classes with a field
    class by containers, unions and [Final[...]], and with options that no
    field class refuses (no validator given, no [load_default] given to a
    required field), the synthesizer always comes to a field, given a
    budget of the depth of the hint, and leaves no trace: the state after
    the call is the state before it (no warning, nothing compiled, cached
    or registered), whatever that state is, also one with no context on the
    stack. The public [field_for_schema] does the same. *)
Theorem closed_hints_are_synthesized (E : env) (b : base) (k : nat) (t : typ)
    (fuel : nat) (default : option pyval) (md : metadata) (s : state) :
  closed_hint E b k t = true ->
  k <= fuel ->
  md_validate md = None ->
  options_fit default md = true ->
  (exists f, _field_for_schema E (recs_at E fuel) t default md b s = Ok f s) /\
  (exists f, field_for_schema E fuel t default md b s = Ok f s).
Proof.
  intros Hc Hk Hv Hfit. split.
  - apply (closed_hint_field E b k t (S fuel) default md s Hc); [lia | exact Hv | exact Hfit].
  - unfold field_for_schema, field_for_schema_body, with_, SchemaContext_enter,
      SchemaContext_exit, push, pop.
    destruct (closed_hint_field E b k t fuel default md
                (set_stack (new_SchemaContext None None :: stack s) s) Hc Hk Hv Hfit)
      as [f Hf].
    rewrite Hf. cbn [stack set_stack]. exists f. destruct s; reflexivity.
Qed.

Lemma closed_hints_are_synthesized_witness :
  exists f,
    field_for_schema person_table 5
      (TContainer o_dict [TClass "str"; Optional (List_ (TClass "int"))])
      None empty_md None initial_state
    = Ok f initial_state.
Proof.
  exact (proj2 (closed_hints_are_synthesized person_table None 5
                  (TContainer o_dict [TClass "str"; Optional (List_ (TClass "int"))])
                  5 None empty_md initial_state eq_refl (le_n 5) eq_refl eq_refl)).
Defined.

(** ** Records of such hints *)

Lemma flat_record_body (E : env) (b : base) (n : string)
    (hints : list (string * typ)) (k fuel : nat) (s : state) :
  plain_record E b n ->
  e_type_hints E (TClass n) None (e_callers_frame E (TClass n)) = inr hints ->
  flat_record E b (TClass n) hints k ->
  k <= fuel ->
  let ctx := new_SchemaContext None (e_callers_frame E (TClass n)) in
  let seen := mkCtx [(TClass n, e_name E (TClass n))] None
                    (e_callers_frame E (TClass n)) in
  exists new_fields,
    _internal_class_schema_body E (recs_at E fuel) (TClass n) b
      (set_stack (ctx :: stack s) s)
    = Ok (length (heap s))
         (set_heap (heap s ++ [mkSchema (e_name E (TClass n)) (TClass n) b
                                 (e_members E (TClass n)) new_fields])
            (set_stack (seen :: stack s) s)) /\
    map fst new_fields = map f_name (kept_fields E (TClass n)).
Proof.
  intros HR Hh Hflat Hfuel ctx seen.
  unfold _internal_class_schema_body, reflect_and_build, bind, top, register_seen.
  cbn [stack set_stack]. subst ctx. unfold new_SchemaContext at 1 2 3.
  cbn [seen_classes globalns localns dict_set].
  fold seen. set (s1 := set_stack (seen :: stack s) s).
  change (set_stack (seen :: stack s) (set_stack _ s)) with s1.
  assert (Hf : _dataclass_fields E (TClass n) s1 = Ok (e_fields E (TClass n)) s1).
  { unfold _dataclass_fields, dataclasses_fields, is_dataclass.
    rewrite (pr_not_generic _ _ _ HR), (pr_dataclass _ _ _ HR). reflexivity. }
  rewrite Hf. unfold build_schema, bind.
  rewrite (pr_not_generic _ _ _ HR).
  unfold new_SchemaContext. cbn [negb globalns localns].
  rewrite Hh. cbn [lift]. unfold ret at 1.
  fold (kept_fields E (TClass n)).
  match goal with
  | |- context [mapM ?f ?l s1] =>
      destruct (mapM_ok_same_state f s1 l) as (ys & Hys);
      [|pose proof (mapM_keys f f_name l) as Hkeys]
  end.
  { unfold flat_record in Hflat. eapply Forall_impl; [|exact Hflat].
    intros fld (t & Hhint & Hc & Hv & Hfit). cbv beta.
    unfold bind. rewrite Hhint.
    destruct (closed_hint_field E b k t fuel (_get_field_default fld) (f_metadata fld)
                s1 Hc Hfuel Hv Hfit) as (f & Hfld).
    rewrite Hfld. eexists. reflexivity. }
  rewrite Hys. exists ys. split; [reflexivity|].
  eapply Hkeys; [|exact Hys].
  intros x s0 y s0' Hx. unfold bind in Hx.
  destruct (hint_of (f_name x) hints s0) as [t s3|e3 s3|]; try discriminate.
  destruct (r_field_for_schema (recs_at E fuel) t _ _ _ s3) as [f s4|e4 s4|];
    try discriminate.
  inversion Hx. reflexivity.
Qed.

(** Compiling a dataclass with no [Schema] attribute whose fields have such
    hints and options, when it is not in
    the cache: [class_schema] returns, the schema class is a new one, it
    is stored in the cache as the most recent entry, and nothing else has
    changed afterwards -- the stack, the warnings and the classes converted
    are as before. The schema class has the name of the record, the given
    base schema, and the kept fields of the dataclass under their names, in
    their order. *)
Theorem flat_record_compiles (E : env) (b : base) (n : string)
    (hints : list (string * typ)) (k fuel : nat) (s : state) :
  plain_record E b n ->
  e_type_hints E (TClass n) None (e_callers_frame E (TClass n)) = inr hints ->
  flat_record E b (TClass n) hints k ->
  k < fuel ->
  cache_get (TClass n, b) (cache s) = None ->
  exists sc,
    class_schema E fuel (TClass n) b s
    = Ok (length (heap s))
         (set_cache (firstn MAX_CLASS_SCHEMA_CACHE_SIZE
                       ((TClass n, b, length (heap s)) :: cache s))
            (set_heap (heap s ++ [sc]) s)) /\
    sc_name sc = e_name E (TClass n) /\ sc_clazz sc = TClass n /\ sc_base sc = b /\
    map fst (sc_fields sc) = map f_name (kept_fields E (TClass n)).
Proof.
  intros HR Hh Hflat Hfuel Hc.
  destruct fuel as [|fuel]; [lia|]. apply PeanoNat.lt_n_Sm_le in Hfuel.
  destruct (flat_record_body E b n hints k fuel s HR Hh Hflat Hfuel)
    as (new_fields & Hbody & Hnames).
  exists (mkSchema (e_name E (TClass n)) (TClass n) b (e_members E (TClass n))
                   new_fields).
  split; [|repeat split; exact Hnames].
  unfold class_schema, class_schema_body, bind, is_dataclass.
  rewrite (pr_dataclass _ _ _ HR). cbn [orb negb andb].
  unfold with_, SchemaContext_enter, push.
  assert (Hl : match e_callers_frame E (TClass n) with
               | Some f => Some f
               | None => None
               end = e_callers_frame E (TClass n))
    by (destruct (e_callers_frame E (TClass n)); reflexivity).
  rewrite Hl. cbn [recs_at r_internal_class_schema]. unfold lru_cache.
  cbn [cache set_stack]. rewrite Hc, Hbody.
  cbn [cache set_heap set_stack]. rewrite Hc.
  unfold SchemaContext_exit, pop. cbn [stack set_cache set_heap set_stack].
  destruct s; reflexivity.
Qed.

Lemma point_is_flat :
  flat_record point_table None (TClass "Point")
    [("x", TClass "float"); ("y", TClass "float"); ("tags", List_ (TClass "str"))] 2.
Proof.
  unfold flat_record.
  change (kept_fields point_table (TClass "Point")) with (cd_fields Point).
  cbn [cd_fields Point].
  repeat (apply Forall_cons || apply Forall_nil);
    eexists; (split; [intros s; reflexivity|]);
    (split; [reflexivity | split; reflexivity]).
Qed.

Lemma flat_record_compiles_witness :
  exists sc s',
    class_schema point_table 3 (TClass "Point") None initial_state = Ok 0 s' /\
    heap s' = [sc] /\ map fst (sc_fields sc) = ["x"; "y"; "tags"].
Proof.
  destruct (flat_record_compiles point_table None "Point"
              [("x", TClass "float"); ("y", TClass "float");
               ("tags", List_ (TClass "str"))] 2 3 initial_state
              (mkPlain point_table None "Point" eq_refl eq_refl eq_refl eq_refl
                       eq_refl eq_refl)
              eq_refl point_is_flat (le_n 3) eq_refl)
    as (sc & Hrun & _ & _ & _ & Hnames).
  exists sc. eexists. split; [exact Hrun|]. split; [reflexivity | exact Hnames].
Defined.

(** ** What is registered in a context stays registered *)

Section KeepsSeen.
Variable E : env.
Variable R : typ.

Lemma keeps_seen_refl (s : state) : keeps_seen E R s s.
Proof. intros H. exact H. Qed.

Lemma keeps_seen_trans (a b c : state) :
  keeps_seen E R a b -> keeps_seen E R b c -> keeps_seen E R a c.
Proof. unfold keeps_seen. auto. Qed.

Lemma keeps_seen_same (s s' : state) : stack s' = stack s -> keeps_seen E R s s'.
Proof. intros H. unfold keeps_seen, seen_at_top. now rewrite H. Qed.

Ltac ks_side := try exact keeps_seen_refl; try exact keeps_seen_trans.

Lemma keeps_seen_register (t : typ) : post (keeps_seen E R) (register_seen t (e_name E t)).
Proof.
  intros s. unfold post_at, register_seen.
  destruct (stack s) as [|c st] eqn:Hs; [apply keeps_seen_refl|].
  intros (c0 & st0 & Hst & Hget & Hn). rewrite Hs in Hst. inversion Hst; subst c0 st0.
  eexists. eexists. split; [reflexivity|]. split; [|exact Hn]. simpl.
  destruct (typ_eqb R t) eqn:Ht.
  - apply typ_eqb_eq in Ht. subst t. apply dict_get_set_same.
  - rewrite dict_get_set_other; [exact Hget|].
    intros ->. now rewrite typ_eqb_refl in Ht.
Qed.

Lemma keeps_seen_lru (n : nat) (f : typ -> base -> M nat) (t : typ) (b : base) :
  post (keeps_seen E R) (f t b) -> post (keeps_seen E R) (lru_cache n f t b).
Proof.
  intros Hf s. specialize (Hf s). unfold post_at, lru_cache in *.
  destruct (cache_get (t, b) (cache s)); [now apply keeps_seen_same|].
  destruct (f t b s) as [a s1|e s1|]; auto.
  destruct (cache_get (t, b) (cache s1)); [exact Hf|].
  eapply keeps_seen_trans; [exact Hf | now apply keeps_seen_same].
Qed.

Lemma keeps_seen_class_schema_body (r : recs) (t : typ) (b : base) (f g l : option nat) :
  (forall t' b', post same_below (r_internal_class_schema r t' b')) ->
  post (keeps_seen E R) (class_schema_body E r t b f g l).
Proof.
  intros Hr s. pose proof (class_schema_body_restores E r t b f g l s Hr) as H.
  unfold post_at. destruct (class_schema_body E r t b f g l s); auto;
    now apply keeps_seen_same.
Qed.

Lemma keeps_seen_nested (r : recs) (t : typ) (b : base) :
  (forall t' b', post (keeps_seen E R) (r_internal_class_schema r t' b')) ->
  (forall t' b' f', post (keeps_seen E R) (r_class_schema r t' b' f')) ->
  post (keeps_seen E R) (nested_of E r t b).
Proof.
  intros Hi Hc. unfold nested_of.
  destruct (e_Schema E t) as [|l|v].
  - match goal with |- post _ (match ?x with _ => _ end) => destruct x end;
      [apply post_ret; ks_side|].
    apply post_bind; ks_side; [apply post_top; ks_side|]. intros c.
    assert (Hcall : post (keeps_seen E R)
                      (a <- r_internal_class_schema r t b ;; ret (N_schema a))).
    { apply post_bind; ks_side; [apply Hi|]. intros a. apply post_ret; ks_side. }
    destruct (dict_get t (seen_classes c)) as [n|]; [|exact Hcall].
    destruct (nonempty n); [apply post_ret; ks_side | exact Hcall].
  - apply post_bind; ks_side; [|intros a; apply post_ret; ks_side].
    intros s. unfold post_at, get_schema.
    destruct (args_get _ _); [apply keeps_seen_refl|].
    specialize (Hc t (e_lazy_base E l) (e_lazy_frame E l) s). unfold post_at in Hc.
    destruct (r_class_schema r t _ _ s) as [a s1|e s1|]; auto.
  - apply post_ret; ks_side.
Qed.

Lemma keeps_seen_recs (fuel : nat) :
  (forall t d md b, post (keeps_seen E R) (r_field_for_schema (recs_at E fuel) t d md b)) /\
  (forall t b, post (keeps_seen E R) (r_internal_class_schema (recs_at E fuel) t b)) /\
  (forall t b f, post (keeps_seen E R) (r_class_schema (recs_at E fuel) t b f)).
Proof.
  induction fuel as [|n [IHf [IHi IHc]]]; simpl.
  - repeat split; intros; intros s; exact I.
  - assert (Hw : forall m, post (keeps_seen E R) (warn m))
      by (intros m s; now apply keeps_seen_same).
    assert (Hconv : forall t, post (keeps_seen E R) (dataclasses_dataclass E t)).
    { intros t s. unfold post_at, dataclasses_dataclass.
      destruct (e_dataclass E t); now apply keeps_seen_same. }
    assert (Ha : forall s h, keeps_seen E R s (set_heap h s))
      by (intros; now apply keeps_seen_same).
    assert (Hn : forall t b, post (keeps_seen E R) (nested_of E (recs_at E n) t b))
      by (intros; now apply keeps_seen_nested).
    repeat split; intros.
    + apply post_field_for_schema; ks_side; auto.
    + apply keeps_seen_lru. apply post_body; ks_side; auto using keeps_seen_register.
    + apply keeps_seen_class_schema_body. apply (same_below_recs E n).
Qed.
End KeepsSeen.

(** A type registered in the context at the top of the stack, under its
    name, is still registered there after any call of the synthesizer or
    of the compiler made in that context, ended by a result or by an
    exception -- whatever was compiled, converted or stored meanwhile, and
    through the contexts that nested [class_schema] calls push and pop.
    For a dataclass with no [Schema] attribute (and no field class of its
    own) this means that every later field of that type in the same
    context is nested by the name, and starts no compilation of the class:
    [Nested] is called on the name and on the options after the
    defaults. *)
Theorem registered_classes_stay_registered (E : env) (R : typ) (fuel : nat) (s : state) :
  seen_at_top R (e_name E R) s ->
  (forall t d md b f s',
      _field_for_schema E (recs_at E fuel) t d md b s = Ok f s' \/
      (exists e, _field_for_schema E (recs_at E fuel) t d md b s = Raise e s') ->
      seen_at_top R (e_name E R) s' /\
      forall n b0 r d' md',
        R = TClass n ->
        plain_record E b0 n ->
        md_marshmallow_field md' = None ->
        let options := default_metadata R d' md' in
        _field_for_schema E r R d' md' b0 s'
        = (if refuses options then Raise required_with_load_default s'
           else Ok (F_Nested (N_name (e_name E R)) options) s')) /\
  (forall t b schema s',
      _internal_class_schema E fuel t b s = Ok schema s' \/
      (exists e, _internal_class_schema E fuel t b s = Raise e s') ->
      seen_at_top R (e_name E R) s').
Proof.
  intros Hseen.
  destruct (keeps_seen_recs E R (S fuel)) as (Hf & _ & _).
  destruct (keeps_seen_recs E R fuel) as (_ & Hi & _).
  split.
  - intros t d md b f s' Hrun.
    assert (Hs' : seen_at_top R (e_name E R) s').
    { specialize (Hf t d md b s). unfold post_at in Hf.
      cbn [recs_at r_field_for_schema] in Hf.
      destruct Hrun as [Hrun | [e Hrun]]; rewrite Hrun in Hf; exact (Hf Hseen). }
    split; [exact Hs'|].
    intros n b0 r d' md' -> HR Hmd options.
    rewrite (back_reference_is_forward E r b0 n d' md' s' HR Hs' Hmd).
    fold options. unfold construct, Field_init, bind, ret, raise.
    destruct (refuses options); reflexivity.
  - intros t b schema s' Hrun.
    specialize (Hi t b s). unfold post_at, _internal_class_schema in *.
    destruct Hrun as [Hrun | [e Hrun]]; rewrite Hrun in Hi; exact (Hi Hseen).
Qed.

Lemma registered_classes_stay_registered_witness :
  exists f s',
    _field_for_schema person_table (recs_at person_table 2) (List_ (TClass "str"))
      None empty_md None
      (set_stack [mkCtx [(TClass "Person", "Person")] None None] initial_state)
    = Ok f s' /\
    seen_at_top (TClass "Person") "Person" s'.
Proof.
  assert (Hseen : seen_at_top (TClass "Person") (e_name person_table (TClass "Person"))
                    (set_stack [mkCtx [(TClass "Person", "Person")] None None]
                               initial_state)).
  { eexists. eexists. split; [reflexivity|]. split; reflexivity. }
  eexists. eexists. split; [reflexivity|].
  exact (proj1 (proj1 (registered_classes_stay_registered person_table (TClass "Person") 2
                         _ Hseen)
                  (List_ (TClass "str")) None empty_md None _ _
                  (or_introl eq_refl))).
Defined.

(** ** What a schema loads, field by field *)

Section LoadFacts.
Variable convert : string -> pyval -> option pyval.
Variable validator : nat -> pyval -> bool.
Variable call : nat -> pyval.

Lemma Schema_load_errors (fields : list (string * field)) (data : list (string * pyval))
    (errs : list (string * string)) :
  Schema_load convert validator call fields data = inl errs ->
  forall n msg,
    In (n, msg) errs <->
    exists f, In (n, f) fields /\
              load_field convert validator call f (data_get n data) = Invalid msg.
Proof.
  revert errs. induction fields as [|[name f] rest IH]; intros errs H n msg.
  - discriminate.
  - cbn [Schema_load] in H.
    destruct (load_field convert validator call f (data_get name data)) as [v| |m] eqn:Hf;
      destruct (Schema_load convert validator call rest data) as [errs'|kw] eqn:Hr;
      inversion H; subst; clear H.
    + rewrite (IH _ eq_refl). split.
      * intros (f' & Hin & Hl). exists f'. split; [now right | exact Hl].
      * intros (f' & [Heq|Hin] & Hl); [inversion Heq; subst; congruence|].
        exists f'. now split.
    + rewrite (IH _ eq_refl). split.
      * intros (f' & Hin & Hl). exists f'. split; [now right | exact Hl].
      * intros (f' & [Heq|Hin] & Hl); [inversion Heq; subst; congruence|].
        exists f'. now split.
    + split.
      * intros [Heq|Hin].
        -- inversion Heq; subst. exists f. split; [now left | exact Hf].
        -- apply (IH _ eq_refl) in Hin. destruct Hin as (f' & Hin & Hl).
           exists f'. split; [now right | exact Hl].
      * intros (f' & [Heq|Hin] & Hl).
        -- inversion Heq; subst. left. congruence.
        -- right. apply (IH _ eq_refl). exists f'. now split.
    + split.
      * intros [Heq|[]]. inversion Heq; subst. exists f. split; [now left | exact Hf].
      * intros (f' & [Heq|Hin] & Hl).
        -- inversion Heq; subst. left. congruence.
        -- exfalso. revert Hr Hin Hl. clear. revert kw.
           induction rest as [|[name' g] rest IH]; intros kw Hr Hin Hl; [destruct Hin|].
           cbn [Schema_load] in Hr.
           destruct (load_field convert validator call g (data_get name' data)) eqn:Hg;
             destruct (Schema_load convert validator call rest data) eqn:Hr';
             try discriminate;
             (destruct Hin as [Heq|Hin];
              [inversion Heq; subst; congruence | eapply IH; eauto]).
Qed.

Lemma Schema_load_returns (fields : list (string * field)) (data : list (string * pyval))
    (kw : list (string * pyval)) :
  Schema_load convert validator call fields data = inr kw ->
  forall n v,
    In (n, v) kw <->
    exists f, In (n, f) fields /\
              load_field convert validator call f (data_get n data) = Value v.
Proof.
  revert kw. induction fields as [|[name f] rest IH]; intros kw H n v.
  - inversion H; subst. split; [intros [] | intros (f & [] & _)].
  - cbn [Schema_load] in H.
    destruct (load_field convert validator call f (data_get name data)) as [w| |m] eqn:Hf;
      destruct (Schema_load convert validator call rest data) as [errs'|kw'] eqn:Hr;
      inversion H; subst; clear H.
    + split.
      * intros [Heq|Hin].
        -- inversion Heq; subst. exists f. split; [now left | exact Hf].
        -- apply (IH _ eq_refl) in Hin. destruct Hin as (f' & Hin & Hl).
           exists f'. split; [now right | exact Hl].
      * intros (f' & [Heq|Hin] & Hl).
        -- inversion Heq; subst. left. congruence.
        -- right. apply (IH _ eq_refl). exists f'. now split.
    + rewrite (IH _ eq_refl). split.
      * intros (f' & Hin & Hl). exists f'. split; [now right | exact Hl].
      * intros (f' & [Heq|Hin] & Hl); [inversion Heq; subst; congruence|].
        exists f'. now split.
Qed.

(** A key that one field answers for, and the field gives a value or
    refuses. *)
Lemma field_loads_as (fields : list (string * field)) (data : list (string * pyval))
    (x : string) (f : field) (v : pyval) :
  (forall g, In (x, g) fields <-> g = f) ->
  load_field convert validator call f (data_get x data) = Value v ->
  loads_as x v (Schema_load convert validator call fields data).
Proof.
  intros Hx Hf. unfold loads_as.
  destruct (Schema_load convert validator call fields data) as [errs|kw] eqn:Hl.
  - intros msg Hin. apply (Schema_load_errors _ _ _ Hl) in Hin.
    destruct Hin as (g & Hg & Hm). apply Hx in Hg. subst g. congruence.
  - intros w. rewrite (Schema_load_returns _ _ _ Hl). split.
    + intros (g & Hg & Hm). apply Hx in Hg. subst g. congruence.
    + intros ->. exists f. split; [now apply Hx | exact Hf].
Qed.

Lemma field_refuses (fields : list (string * field)) (data : list (string * pyval))
    (x : string) (f : field) (msg : string) :
  (forall g, In (x, g) fields <-> g = f) ->
  load_field convert validator call f (data_get x data) = Invalid msg ->
  refused_with x msg (Schema_load convert validator call fields data).
Proof.
  intros Hx Hf. unfold refused_with.
  destruct (Schema_load convert validator call fields data) as [errs|kw] eqn:Hl.
  - intros m. rewrite (Schema_load_errors _ _ _ Hl). split.
    + intros (g & Hg & Hm). apply Hx in Hg. subst g. congruence.
    + intros ->. exists f. split; [now apply Hx | exact Hf].
  - assert (Hin : In (x, f) fields) by now apply Hx.
    revert Hl Hin Hf. clear. revert kw.
    induction fields as [|[name g] rest IH]; intros kw Hl Hin Hf; [destruct Hin|].
    cbn [Schema_load] in Hl.
    destruct (load_field convert validator call g (data_get name data)) eqn:Hg;
      destruct (Schema_load convert validator call rest data) eqn:Hr;
      try discriminate;
      (destruct Hin as [Heq|Hin];
       [inversion Heq; subst; congruence | eapply IH; eauto]).
Qed.

End LoadFacts.

(** ** The fields of a compiled record *)

Lemma mapM_members {A B : Type} (f : A -> M B) (l : list A) :
  forall s ys s',
    mapM f l s = Ok ys s' ->
    (forall y, In y ys -> exists x s0 s1, In x l /\ f x s0 = Ok y s1) /\
    (forall x, In x l -> exists y s0 s1, In y ys /\ f x s0 = Ok y s1).
Proof.
  induction l as [|a l IH]; simpl; intros s ys s' H.
  - inversion H; subst. split; intros ? [].
  - unfold bind, ret in H.
    destruct (f a s) as [y s1|e s1|] eqn:Ha; try discriminate.
    destruct (mapM f l s1) as [ys1 s2|e s2|] eqn:Hl; try discriminate.
    inversion H; subst. clear H.
    destruct (IH _ _ _ Hl) as [IH1 IH2]. split.
    + intros y' [<-|Hin]; [exists a, s, s1; auto|].
      destruct (IH1 _ Hin) as (x & s0 & s3 & Hx & Hf). exists x, s0, s3. auto.
    + intros x [<-|Hin]; [exists y, s, s1; split; [now left | exact Ha]|].
      destruct (IH2 _ Hin) as (y' & s0 & s3 & Hy & Hf). exists y', s0, s3.
      split; [now right | exact Hf].
Qed.

Lemma same_name_same_field (fields : list dc_field) (f g : dc_field) :
  NoDup (map f_name fields) -> In f fields -> In g fields ->
  f_name f = f_name g -> f = g.
Proof.
  induction fields as [|a l IH]; simpl; intros Hnd Hf Hg Hn; [destruct Hf|].
  inversion Hnd as [|? ? Hnotin Hnd']; subst.
  destruct Hf as [<-|Hf], Hg as [<-|Hg]; auto.
  - exfalso. apply Hnotin. rewrite Hn. now apply in_map.
  - exfalso. apply Hnotin. rewrite <- Hn. now apply in_map.
Qed.

Lemma NoDup_filter_names (p : dc_field -> bool) (fields : list dc_field) :
  NoDup (map f_name fields) -> NoDup (map f_name (filter p fields)).
Proof.
  induction fields as [|a l IH]; simpl; intros Hnd; [constructor|].
  inversion Hnd as [|? ? Hnotin Hnd']; subst.
  destruct (p a); simpl; [constructor|]; auto.
  intros Hin. apply Hnotin. apply in_map_iff in Hin. destruct Hin as (x & Hx & Hin).
  apply filter_In in Hin. apply in_map_iff. exists x. tauto.
Qed.

(** The field of [Optional[str]] with no default, whenever it is
    synthesized. *)
Lemma optional_str_field_inv (E : env) (b : base) (cls : string) (fuel : nat)
    (allow : option bool) (s : state) (f : field) (s' : state) :
  _field_by_type E (TClass "str") b = Some cls ->
  _field_by_type E (Optional (TClass "str")) b = None ->
  r_field_for_schema (recs_at E fuel) (Optional (TClass "str")) None
    (set_allow_none allow empty_md) b s = Ok f s' ->
  f = F_mapped cls (optional_str_options allow).
Proof.
  intros Hstr Hopt H.
  destruct fuel as [|[|fuel]].
  - discriminate.
  - exfalso. revert H. cbn [recs_at r_field_for_schema].
    unfold Optional in *. unfold _field_for_schema.
    cbn [default_metadata md_required setdefault set_required md_marshmallow_field
         md_allow_none md_dump_default md_load_default md_validate md_description
         set_allow_none empty_md].
    cbv beta iota delta [_container_type_add_any in_CONTAINER_TYPES negb].
    rewrite Hopt.
    unfold field_after_final, _field_for_annotated_type, _field_for_union_type, bind, ret.
    cbn [is_union_type get_args filter is_NoneType negb is_optional_type existsb orb].
    cbn [recs_at r_field_for_schema]. discriminate.
  - rewrite (optional_str_field E b cls (S (S fuel)) (set_allow_none allow empty_md) s
               Hstr Hopt) in H by (try lia; reflexivity).
    inversion H. destruct allow as [[|]|]; reflexivity.
Qed.

(** What [class_schema] returns for a record that is not in the cache: the
    schema class whose fields are made from the kept fields, one after the
    other, by [_field_for_schema] on the declared type. *)
Lemma class_schema_fields (E : env) (fuel : nat) (R : typ) (b : base)
    (fields : list dc_field) (s : state) (schema : nat) (s' : state) :
  record_fields E R fields ->
  cache_get (R, b) (cache s) = None ->
  class_schema E fuel R b s = Ok schema s' ->
  let ctx := new_SchemaContext None (e_callers_frame E R) in
  exists k type_hints s1 s2,
    fuel = S k /\
    hints_of E R ctx s1 = Ok type_hints s1 /\
    mapM (field_entry E (recs_at E k) R b ctx type_hints)
         (filter (fun fld => f_init fld || e_include_non_init E R) fields) s1
    = Ok (fields_at s' schema) s2.
Proof.
  intros Hrec Hc H ctx.
  destruct fuel as [|k].
  { exfalso. revert H. unfold class_schema, class_schema_body, bind, with_.
    destruct (negb _ && negb _); [unfold dataclasses_dataclass;
                                   destruct (e_dataclass E R)|];
      cbn; discriminate. }
  exists k.
  assert (Hf : forall s0, _dataclass_fields E R s0 = Ok fields s0).
  { intros s0. unfold _dataclass_fields, record_fields in *.
    destruct (e_is_generic_type E R); cbn [negb].
    - rewrite Hrec. reflexivity.
    - destruct Hrec as [Hd <-]. unfold dataclasses_fields, is_dataclass.
      rewrite Hd. reflexivity. }
  assert (Hbody : forall s0 : state,
             cache s0 = cache s ->
             with_ (SchemaContext_enter None (e_callers_frame E R)) SchemaContext_exit
                   (r_internal_class_schema (recs_at E (S k)) R b) s0 = Ok schema s' ->
             exists type_hints s1 s2,
               hints_of E R ctx s1 = Ok type_hints s1 /\
               mapM (field_entry E (recs_at E k) R b ctx type_hints)
                    (filter (fun fld => f_init fld || e_include_non_init E R) fields) s1
               = Ok (fields_at s' schema) s2).
  { intros s0 Hc0 H0. revert H0.
    unfold with_, SchemaContext_enter, push. cbn [recs_at r_internal_class_schema].
    unfold lru_cache. cbv zeta. cbn [cache set_stack]. rewrite Hc0, Hc.
    unfold _internal_class_schema_body, reflect_and_build.
    unfold bind at 1. unfold top. cbn [stack set_stack].
    unfold bind at 1. unfold register_seen. cbn [stack set_stack].
    rewrite Hf. unfold build_schema.
    fold (hints_of E R (new_SchemaContext None (e_callers_frame E R))).
    unfold bind at 1.
    match goal with
    | |- context [hints_of E R ?c ?st] =>
        destruct (hints_of E R c st) as [type_hints s1|e s1|] eqn:Hh
    end; [| | discriminate].
    2:{ unfold SchemaContext_exit, pop. cbn [stack set_stack].
        assert (Hst : stack s1 <> []).
        { unfold hints_of in Hh. destruct (negb _); [|inversion Hh; subst; discriminate].
          unfold lift in Hh. destruct (e_type_hints _ _ _ _); inversion Hh; subst;
            discriminate. }
        destruct (stack s1); [congruence | discriminate]. }
    assert (Hs1 : hints_of E R ctx s1 = Ok type_hints s1).
    { unfold hints_of in *. destruct (negb _); [|inversion Hh; subst; reflexivity].
      unfold lift in *. destruct (e_type_hints _ _ _ _); inversion Hh; subst.
      reflexivity. }
    unfold bind at 1.
    match goal with
    | |- context [mapM ?g ?l s1] =>
        change (mapM g l s1)
          with (mapM (field_entry E (recs_at E k) R b ctx type_hints) l s1);
        destruct (mapM (field_entry E (recs_at E k) R b ctx type_hints) l s1)
          as [new_fields s2|e s2|] eqn:Hm
    end.
    - intros H0. exists type_hints, s1, s2. split; [exact Hs1|].
      assert (Hfields : fields_at s' schema = new_fields).
      { revert H0. cbn [cache set_heap].
        destruct (cache_get (R, b) (cache s2));
          unfold SchemaContext_exit, pop; cbn [stack set_cache set_heap];
          destruct (stack s2); intros H0; inversion H0; subst;
          unfold fields_at; cbn [heap set_stack set_cache set_heap];
          rewrite nth_error_app2, Nat.sub_diag by apply Nat.le_refl; reflexivity. }
      rewrite Hfields. exact Hm.
    - unfold SchemaContext_exit, pop. destruct (stack s2); discriminate.
    - discriminate. }
  assert (Hl : match e_callers_frame E R with
               | Some f => Some f
               | None => None
               end = e_callers_frame E R)
    by (destruct (e_callers_frame E R); reflexivity).
  revert H. unfold class_schema, class_schema_body. unfold bind at 1.
  destruct (negb (is_dataclass E s R) && negb (is_generic_alias_of_dataclass E s R)).
  - unfold dataclasses_dataclass. destruct (e_dataclass E R); [discriminate|].
    rewrite Hl.
    intros H. apply Hbody in H; [|reflexivity].
    destruct H as (th & s1 & s2 & H1 & H2). eauto 10.
  - rewrite Hl.
    intros H. destruct (Hbody _ eq_refl H) as (th & s1 & s2 & H1 & H2). eauto 10.
Qed.

Lemma flat_record_returns (E : env) (b : base) (n : string)
    (hints : list (string * typ)) (k fuel : nat) (s : state) :
  plain_record E b n ->
  e_type_hints E (TClass n) None (e_callers_frame E (TClass n)) = inr hints ->
  flat_record E b (TClass n) hints k ->
  k < fuel ->
  cache_get (TClass n, b) (cache s) = None ->
  exists schema s', class_schema E fuel (TClass n) b s = Ok schema s'.
Proof.
  intros HR Hh Hflat Hfuel Hc.
  destruct fuel as [|fuel]; [lia|]. apply PeanoNat.lt_n_Sm_le in Hfuel.
  destruct (flat_record_body E b n hints k fuel s HR Hh Hflat Hfuel)
    as (new_fields & Hbody & Hnames).
  unfold class_schema, class_schema_body, bind, is_dataclass.
  rewrite (pr_dataclass _ _ _ HR). cbn [orb negb andb].
  unfold with_, SchemaContext_enter, push.
  assert (Hl : match e_callers_frame E (TClass n) with
               | Some f => Some f
               | None => None
               end = e_callers_frame E (TClass n))
    by (destruct (e_callers_frame E (TClass n)); reflexivity).
  rewrite Hl. cbn [recs_at r_internal_class_schema]. unfold lru_cache.
  cbn [cache set_stack]. rewrite Hc, Hbody.
  cbn [cache set_heap set_stack]. rewrite Hc.
  unfold SchemaContext_exit, pop. cbn [stack set_cache set_heap set_stack].
  eexists. eexists. reflexivity.
Qed.

(** ** A field [x: Optional[str]] of a compiled record *)

(** C5. A record with a field [x: Optional[str]] that has no default, and
    no metadata or only [allow_none], compiled for the first time with a
    base schema that maps [str] to a field class and has no entry for
    [Optional[str]] itself. Whenever [class_schema] returns, the schema
    class has under [x] the field class of [str], not required, with
    [None] as load and dump default, and allowing [None] unless the
    metadata say [allow_none=False]; a load of data without [x] gives
    [x = None]; a load of data with [x = None] gives [x = None], or with
    [allow_none=False] is refused with the message for null values. And
    [class_schema] does return when the record has no [Schema] attribute
    and all its fields have hints that need no compilation. *)
Theorem optional_str_policy (E : env) (b : base) (R : typ) (cls : string)
    (fields : list dc_field) (fld : dc_field) (allow : option bool)
    (convert : string -> pyval -> option pyval) (validator : nat -> pyval -> bool)
    (call : nat -> pyval) (fuel : nat) (s : state) :
  record_fields E R fields ->
  NoDup (map f_name fields) ->
  In fld fields ->
  f_init fld || e_include_non_init E R = true ->
  declared_type E R fld (Optional (TClass "str")) ->
  f_default fld = None ->
  f_default_factory fld = None ->
  f_metadata fld = set_allow_none allow empty_md ->
  _field_by_type E (TClass "str") b = Some cls ->
  _field_by_type E (Optional (TClass "str")) b = None ->
  cache_get (R, b) (cache s) = None ->
  let x := f_name fld in
  let load := Schema_load convert validator call in
  (forall schema s',
      class_schema E fuel R b s = Ok schema s' ->
      let schema_fields := fields_at s' schema in
      (forall f, In (x, f) schema_fields <->
                 f = F_mapped cls (optional_str_options allow)) /\
      (forall data, data_get x data = None ->
                    loads_as x VNone (load schema_fields data)) /\
      (forall data, data_get x data = Some VNone ->
                    if get_or allow true
                    then loads_as x VNone (load schema_fields data)
                    else refused_with x null_message (load schema_fields data))) /\
  (forall n type_hints k,
      R = TClass n ->
      plain_record E b n ->
      e_type_hints E R None (e_callers_frame E R) = inr type_hints ->
      flat_record E b R type_hints k ->
      k < fuel ->
      exists schema s', class_schema E fuel R b s = Ok schema s').
Proof.
  intros Hrec Hnd Hin Hkept Hdecl Hd Hdf Hmd Hstr Hopt Hc x load. split.
  - intros schema s' Hrun schema_fields.
    destruct (class_schema_fields E fuel R b fields s schema s' Hrec Hc Hrun)
      as (k & type_hints & s1 & s2 & -> & Hh & Hm).
    fold schema_fields in Hm.
    destruct (mapM_members _ _ _ _ _ Hm) as [Hfrom Hto].
    set (ctx := new_SchemaContext None (e_callers_frame E R)) in *.
    assert (Hentry : forall g s0 y s3,
               In g (filter (fun fld => f_init fld || e_include_non_init E R) fields) ->
               f_name g = x ->
               field_entry E (recs_at E k) R b ctx type_hints g s0 = Ok y s3 ->
               y = (x, F_mapped cls (optional_str_options allow))).
    { intros g s0 y s3 Hg Hname Hy.
      assert (g = fld).
      { apply filter_In in Hg. destruct Hg as [Hg _].
        exact (same_name_same_field fields g fld Hnd Hg Hin Hname). }
      subst g. revert Hy. unfold field_entry. unfold bind at 1.
      assert (Hhint : field_hint E R ctx type_hints fld s0
                      = Ok (Optional (TClass "str")) s0).
      { pose proof (Hdecl s1) as H1. unfold bind in H1. fold ctx in H1.
        rewrite Hh in H1.
        unfold field_hint in *. destruct (negb (e_is_generic_type E R)).
        - clear - H1. revert H1. generalize (f_name fld). intros name.
          induction type_hints as [|[n0 t0] l IH]; simpl; [discriminate|].
          destruct (String.eqb name n0); [|exact IH].
          unfold ret. intros H; inversion H; reflexivity.
        - unfold lift in *. destruct (e_resolve_forward _ _ _ _); inversion H1.
          reflexivity. }
      rewrite Hhint. unfold bind, _get_field_default. rewrite Hdf, Hd, Hmd.
      destruct (r_field_for_schema _ _ _ _ _ s0) as [f s4|e s4|] eqn:Hf;
        try discriminate.
      apply (optional_str_field_inv E b cls) in Hf; [|assumption..].
      intros H; inversion H; subst. reflexivity. }
    assert (Hx : forall f, In (x, f) schema_fields <->
                           f = F_mapped cls (optional_str_options allow)).
    { intros f. split.
      - intros Hf. destruct (Hfrom _ Hf) as (g & s0 & s3 & Hg & Hy).
        assert (Hname : f_name g = x).
        { revert Hy. unfold field_entry, bind.
          destruct (field_hint _ _ _ _ _ _); try discriminate.
          destruct (r_field_for_schema _ _ _ _ _ _); try discriminate.
          intros H; inversion H; reflexivity. }
        pose proof (Hentry g s0 _ s3 Hg Hname Hy) as Heq. now inversion Heq.
      - intros ->.
        assert (Hg : In fld (filter (fun fld => f_init fld || e_include_non_init E R)
                               fields)) by (apply filter_In; auto).
        destruct (Hto _ Hg) as (y & s0 & s3 & Hy & Hrun').
        rewrite (Hentry fld s0 y s3 Hg eq_refl Hrun') in Hy. exact Hy. }
    split; [exact Hx|]. split.
    + intros data Hdata. apply (field_loads_as _ _ _ _ _ x _ _ Hx).
      rewrite Hdata. reflexivity.
    + intros data Hdata.
      destruct (get_or allow true) eqn:Ha.
      * apply (field_loads_as _ _ _ _ _ x _ _ Hx). rewrite Hdata.
        cbn. unfold field_allow_none. cbn. rewrite Ha. reflexivity.
      * apply (field_refuses _ _ _ _ _ x _ _ Hx). rewrite Hdata.
        cbn. unfold field_allow_none. cbn. rewrite Ha. reflexivity.
  - intros n type_hints k -> HR Hh Hflat Hk.
    exact (flat_record_returns E b n type_hints k fuel s HR Hh Hflat Hk Hc).
Qed.

Lemma optional_str_policy_witness :
  exists schema s',
    class_schema custom_table 5 (TClass "Custom") None initial_state = Ok schema s' /\
    loads_as "name" VNone
      (Schema_load scalar_convert (fun _ _ => true) (fun _ => VNone)
         (fields_at s' schema) []) /\
    refused_with "name" null_message
      (Schema_load scalar_convert (fun _ _ => true) (fun _ => VNone)
         (fields_at s' schema) [("name", VNone)]).
Proof.
  assert (Hrun : exists schema s',
             class_schema custom_table 5 (TClass "Custom") None initial_state
             = Ok schema s')
    by (vm_compute; eexists; eexists; reflexivity).
  destruct Hrun as (schema & s' & Hrun).
  destruct (optional_str_policy custom_table None (TClass "Custom") "String"
              (cd_fields Custom)
              (mkField "name" (Optional (TClass "str")) true None None
                 (set_allow_none (Some false) empty_md))
              (Some false) scalar_convert (fun _ _ => true) (fun _ => VNone)
              5 initial_state
              (conj eq_refl eq_refl)
              (NoDup_cons "name" (fun H : In "name" [] => H) (NoDup_nil string))
              (or_introl eq_refl) eq_refl (fun s => eq_refl) eq_refl eq_refl eq_refl
              eq_refl eq_refl eq_refl)
    as [Hfields _].
  destruct (Hfields schema s' Hrun) as (_ & Hmissing & Hnull).
  exists schema, s'. split; [exact Hrun|]. split.
  - exact (Hmissing [] eq_refl).
  - exact (Hnull [("name", VNone)] eq_refl).
Defined.

(** A base schema whose [TYPE_MAPPING] has an entry for [Optional[str]]
    itself: the field of [x: Optional[str]] is an instance of the mapped
    class made with [required=False] and nothing else, so the load of an
    empty mapping gives no [x] at all, and [x = None] is refused although
    the metadata say nothing of [allow_none]. *)
Lemma optional_str_mapped_by_base_schema :
  exists schema s',
    class_schema note_table 5 (TClass "Note") (Some 0) initial_state = Ok schema s' /\
    fields_at s' schema
    = [("x", F_mapped "String" (mkMeta (Some false) None None None None None None))] /\
    Schema_load scalar_convert (fun _ _ => true) (fun _ => VNone) (fields_at s' schema) []
    = inr [] /\
    ~ loads_as "x" VNone
        (Schema_load scalar_convert (fun _ _ => true) (fun _ => VNone)
           (fields_at s' schema) []) /\
    Schema_load scalar_convert (fun _ _ => true) (fun _ => VNone) (fields_at s' schema)
      [("x", VNone)]
    = inl [("x", null_message)].
Proof.
  eexists. eexists. split; [vm_compute; reflexivity|].
  split; [reflexivity|]. split; [reflexivity|]. split; [|reflexivity].
  intros H. apply (H VNone). reflexivity.
Qed.

(** ** A field whose declared type is a union *)

Lemma nullable_is_optional_metadata (t : typ) (d : option pyval) (md : metadata) :
  is_optional_type t = true ->
  optional_metadata (default_metadata t d md) = nullable d md.
Proof.
  intros Ht. destruct md as [[[|]|] an dd ld mf vl ds], d as [d|];
    unfold default_metadata, optional_metadata, nullable; rewrite ?Ht;
    cbn; try reflexivity; destruct dd, ld; reflexivity.
Qed.

Lemma none_member_is_optional (args : list typ) :
  In TNoneType args -> is_optional_type (TUnion args) = true.
Proof.
  intros H. cbn [is_optional_type]. apply existsb_exists. exists TNoneType.
  split; [exact H | reflexivity].
Qed.

Lemma union_field_for_schema (E : env) (r : recs) (args : list typ)
    (d : option pyval) (md : metadata) (b : base) (s : state) :
  md_marshmallow_field md = None ->
  _field_by_type E (TUnion args) b = None ->
  _field_for_schema E r (TUnion args) d md b s
  = match _field_for_union_type r (TUnion args) b
            (default_metadata (TUnion args) d md) s with
    | Ok (Some f) s' => Ok f s'
    | Ok None s' => Raise IndexError s'
    | Raise e s' => Raise e s'
    | Diverge => Diverge
    end.
Proof.
  intros Hmd Hmap.
  rewrite (synthesis_after_final E r (TUnion args) d md b Hmd Hmap I).
  unfold field_after_final, _field_for_annotated_type. bind_step reflexivity.
  unfold bind.
  destruct (_field_for_union_type r (TUnion args) b _ s) as [[f|] s'|e s'|] eqn:Hu;
    try reflexivity.
  exfalso. revert Hu. unfold _field_for_union_type. cbn [is_union_type get_args].
  destruct (filter _ args) as [|a [|a' l]]; unfold bind, ret, found, construct, Field_init.
  - destruct (mapM _ _ s); try discriminate.
    destruct (refuses _); unfold raise, ret; discriminate.
  - destruct (r_field_for_schema r a _ _ _ s); discriminate.
  - destruct (mapM _ _ s); try discriminate.
    destruct (refuses _); unfold raise, ret; discriminate.
Qed.

Lemma mapped_class_field (E : env) (r : recs) (c cls : string) (d : option pyval)
    (md : metadata) (b : base) (s : state) :
  md_marshmallow_field md = None ->
  _field_by_type E (TClass c) b = Some cls ->
  _field_for_schema E r (TClass c) d md b s
  = construct (F_mapped cls (default_metadata (TClass c) d md))
              (default_metadata (TClass c) d md) s.
Proof.
  intros Hmd Hmap. unfold _field_for_schema.
  rewrite default_metadata_marshmallow_field, Hmd.
  cbn [_container_type_add_any in_CONTAINER_TYPES negb]. now rewrite Hmap.
Qed.

Lemma mapped_alternatives (E : env) (k : nat) (b : base) (s : state) :
  forall (subtypes : list typ) (classes : list string),
    Forall2 (fun t cls => exists c, t = TClass c /\ _field_by_type E t b = Some cls)
            subtypes classes ->
    union_alternatives (recs_at E (S k)) b subtypes s
    = Ok (combine subtypes (map (fun cls => F_mapped cls required_md) classes)) s.
Proof.
  unfold union_alternatives.
  induction 1 as [|t cls ts clss (c & -> & Hmap) _ IH]; [reflexivity|].
  cbn [mapM map combine]. unfold bind at 1. unfold bind at 1.
  change (r_field_for_schema (recs_at E (S k)) (TClass c) None required_md b s)
    with (_field_for_schema E (recs_at E k) (TClass c) None required_md b s).
  rewrite (mapped_class_field E (recs_at E k) c cls None required_md b s eq_refl Hmap).
  change (construct _ _ s) with (Ok (F_mapped cls required_md) s).
  cbv beta iota. unfold ret at 1. unfold bind at 1. rewrite IH. reflexivity.
Qed.

Lemma mapped_alternatives_accept (convert : string -> pyval -> option pyval)
    (validator : nat -> pyval -> bool) (call : nat -> pyval) (v : pyval) :
  v <> VNone ->
  forall (subtypes : list typ) (classes : list string),
    length subtypes = length classes ->
    Exists (fun t : pyval -> loaded => exists r, t v = Value r)
           (map (fun alt v => load_field convert validator call (snd alt) (Some v))
                (combine subtypes (map (fun cls => F_mapped cls required_md) classes)))
    <-> Exists (fun cls => convert cls v <> None) classes.
Proof.
  intros Hv. induction subtypes as [|t ts IH]; intros [|cls clss] Hlen;
    try discriminate; cbn [combine map].
  - split; intros H; inversion H.
  - assert (Hone : (exists r, load_field convert validator call
                                (F_mapped cls required_md) (Some v) = Value r)
                   <-> convert cls v <> None).
    { cbn. destruct v; try congruence;
        (destruct (convert cls _); cbn;
         [split; [congruence | eauto]
         |split; [intros [r Hr]; discriminate | congruence]]). }
    split; intros H; inversion H; subst.
    + left. now apply Hone.
    + right. apply IH; [now inversion Hlen | assumption].
    + left. now apply Hone.
    + right. apply IH; [now inversion Hlen | assumption].
Qed.

(** C6. A field whose declared type is a union, when the user gave no
    field of their own and the base schema has no entry for the union
    itself. With [None] and exactly one other member [T], the field is the
    one synthesized for [T], with no default, under the options marked
    nullable and optional ([nullable]); it is what [Optional[T]] gives,
    and for a class [T] mapped to a field class it is that class called
    with these options. Otherwise the field is a union field made of one
    alternative for each member besides [None], in declared order, each
    paired with its type and synthesized with [required=True]; when the
    members are classes mapped to field classes, the union field is
    returned unless the options are refused, and (a union field doing what
    the specification says of it) it accepts a value exactly when one of
    the classes does. *)
Theorem union_field_synthesis (E : env) (fuel : nat) (args : list typ)
    (default : option pyval) (md : metadata) (b : base) (s : state)
    (convert : string -> pyval -> option pyval) (validator : nat -> pyval -> bool)
    (call : nat -> pyval) :
  md_marshmallow_field md = None ->
  _field_by_type E (TUnion args) b = None ->
  let r := recs_at E fuel in
  let run := _field_for_schema E r (TUnion args) default md b s in
  (forall T,
      non_null args = [T] ->
      In TNoneType args ->
      run = r_field_for_schema r T None (nullable default md) b s /\
      (_field_by_type E (Optional T) b = None ->
       run = _field_for_schema E r (Optional T) default md b s) /\
      (forall c cls,
          T = TClass c -> _field_by_type E T b = Some cls -> 0 < fuel ->
          run = construct (F_mapped cls (nullable default md)) (nullable default md) s)) /\
  (length (non_null args) <> 1 ->
   let options := if is_optional_type (TUnion args) then nullable default md
                  else default_metadata (TUnion args) default md in
   run = (alts <- union_alternatives r b (non_null args) ;;
          construct (F_Union alts options) options) s /\
   (forall f s',
       run = Ok f s' ->
       exists alts,
         f = F_Union alts options /\ map fst alts = non_null args /\
         forall t alt, In (t, alt) alts ->
                       exists s0 s1, r_field_for_schema r t None required_md b s0
                                     = Ok alt s1) /\
   (forall classes,
       0 < fuel ->
       Forall2 (fun t cls => exists c, t = TClass c /\ _field_by_type E t b = Some cls)
               (non_null args) classes ->
       let alts := combine (non_null args)
                           (map (fun cls => F_mapped cls required_md) classes) in
       run = construct (F_Union alts options) options s /\
       forall v, v <> VNone ->
                 (exists w, load_field convert validator call (F_Union alts options)
                                       (Some v) = Value w)
                 <-> Exists (fun cls => convert cls v <> None) classes)).
Proof.
  intros Hmd Hmap r run.
  assert (Hrun : run = match _field_for_union_type r (TUnion args) b
                               (default_metadata (TUnion args) default md) s with
                       | Ok (Some f) s' => Ok f s'
                       | Ok None s' => Raise IndexError s'
                       | Raise e s' => Raise e s'
                       | Diverge => Diverge
                       end)
    by (apply union_field_for_schema; assumption).
  split.
  - intros T HT Hnone.
    pose proof (none_member_is_optional args Hnone) as Hopt.
    assert (H1 : run = r_field_for_schema r T None (nullable default md) b s).
    { rewrite Hrun, (union_single r b args T _ s HT). unfold union_metadata.
      rewrite Hopt, (nullable_is_optional_metadata _ _ _ Hopt).
      destruct (r_field_for_schema r T None _ b s); reflexivity. }
    split; [exact H1|]. split.
    + intros HmapT. rewrite H1. unfold Optional in *.
      rewrite (union_field_for_schema E r [T; TNoneType] default md b s Hmd HmapT).
      assert (HoptT : is_optional_type (TUnion [T; TNoneType]) = true)
        by (apply none_member_is_optional; right; now left).
      assert (Hnn : non_null [T; TNoneType] = [T]).
      { assert (HTn : is_NoneType T = false).
        { assert (Hin : In T (non_null args)) by (rewrite HT; now left).
          apply filter_In in Hin. destruct Hin as [_ Hin].
          now apply negb_true_iff in Hin. }
        unfold non_null. cbn. now rewrite HTn. }
      rewrite (union_single r b [T; TNoneType] T _ s Hnn). unfold union_metadata.
      rewrite HoptT, (nullable_is_optional_metadata _ _ _ HoptT).
      destruct (r_field_for_schema r T None _ b s); reflexivity.
    + intros c cls -> HmapT Hfuel. rewrite H1. subst r.
      destruct fuel as [|k]; [lia|]. cbn [recs_at r_field_for_schema].
      rewrite (mapped_class_field E (recs_at E k) c cls None (nullable default md) b s
                 Hmd HmapT).
      reflexivity.
  - intros Hlen options.
    assert (Hoptions : union_metadata args (default_metadata (TUnion args) default md)
                       = options).
    { unfold union_metadata, options.
      destruct (is_optional_type (TUnion args)) eqn:Hopt; [|reflexivity].
      apply nullable_is_optional_metadata. exact Hopt. }
    assert (H1 : run = (alts <- union_alternatives r b (non_null args) ;;
                        construct (F_Union alts options) options) s).
    { rewrite Hrun, (union_tagged r b args _ s Hlen), Hoptions.
      unfold bind, found, construct, Field_init.
      destruct (union_alternatives r b (non_null args) s) as [alts s1|e s1|];
        try reflexivity.
      destruct (refuses options); reflexivity. }
    split; [exact H1|]. split.
    + intros f s' Hf. rewrite H1 in Hf. unfold bind at 1 in Hf.
      destruct (union_alternatives r b (non_null args) s) as [alts s1|e s1|] eqn:Ha;
        try discriminate.
      exists alts.
      assert (f = F_Union alts options).
      { revert Hf. unfold construct, Field_init, bind, ret, raise.
        destruct (refuses options); intros H; inversion H; reflexivity. }
      split; [assumption|].
      split; [exact (union_alternatives_types r b _ _ _ _ Ha)|].
      intros t alt Hin. unfold union_alternatives in Ha.
      destruct (mapM_members _ _ _ _ _ Ha) as [Hfrom _].
      destruct (Hfrom _ Hin) as (x & s0 & s2 & _ & Hx). unfold bind in Hx.
      destruct (r_field_for_schema r x None required_md b s0) as [g s3|e s3|] eqn:Hg;
        try discriminate.
      inversion Hx; subst. eauto.
    + intros classes Hfuel Hcls alts. split.
      * rewrite H1. subst r. destruct fuel as [|k]; [lia|].
        unfold bind. rewrite (mapped_alternatives E k b s _ _ Hcls). reflexivity.
      * intros v Hv.
        rewrite (union_load_tries convert validator call alts options v Hv).
        rewrite first_accepting_iff.
        apply mapped_alternatives_accept; [exact Hv|].
        clear - Hcls. induction Hcls; simpl; congruence.
Qed.

Lemma union_field_synthesis_witness :
  _field_for_schema custom_table (recs_at custom_table 2)
    (TUnion [TNoneType; TClass "int"]) None empty_md None initial_state
  = Ok (F_mapped "Integer"
          (mkMeta (Some false) (Some true) (Some VNone) (Some VNone) None None None))
       initial_state /\
  _field_for_schema custom_table (recs_at custom_table 2)
    (TUnion [TClass "int"; TClass "str"]) None empty_md None initial_state
  = Ok (F_Union [(TClass "int", F_mapped "Integer" required_md);
                 (TClass "str", F_mapped "String" required_md)] required_md)
       initial_state /\
  ((exists w, load_field scalar_convert (fun _ _ => true) (fun _ => VNone)
                (F_Union [(TClass "int", F_mapped "Integer" required_md);
                          (TClass "str", F_mapped "String" required_md)] required_md)
                (Some (VBool true)) = Value w)
   <-> Exists (fun cls => scalar_convert cls (VBool true) <> None) ["Integer"; "String"]).
Proof.
  destruct (union_field_synthesis custom_table 2 [TNoneType; TClass "int"] None empty_md
              None initial_state scalar_convert (fun _ _ => true) (fun _ => VNone)
              eq_refl eq_refl) as [Hone _].
  destruct (Hone (TClass "int") eq_refl (or_introl eq_refl)) as (_ & _ & Hint).
  destruct (union_field_synthesis custom_table 2 [TClass "int"; TClass "str"] None
              empty_md None initial_state scalar_convert (fun _ _ => true)
              (fun _ => VNone) eq_refl eq_refl) as [_ Hmany].
  assert (Hlen : length (non_null [TClass "int"; TClass "str"]) <> 1) by discriminate.
  destruct (Hmany Hlen) as (_ & _ & Hclasses).
  assert (Hmapped : Forall2 (fun t cls => exists c, t = TClass c /\
                                          _field_by_type custom_table t None = Some cls)
                            (non_null [TClass "int"; TClass "str"])
                            ["Integer"; "String"]).
  { repeat constructor; eexists; split; reflexivity. }
  destruct (Hclasses ["Integer"; "String"] (le_S 1 1 (le_n 1)) Hmapped)
    as [Hunion Hload].
  split; [exact (Hint "int" "Integer" eq_refl eq_refl (le_S 1 1 (le_n 1)))|].
  split; [exact Hunion|].
  apply Hload. discriminate.
Defined.

(** A base schema whose [TYPE_MAPPING] has an entry for [Union[int, str]]
    itself: the field of [x: Union[int, str]] is an instance of the mapped
    class and no union field, and it refuses the integer [3]. And a union
    field is refused by its own constructor when the metadata give a
    [load_default] and the dataclass field has no default: the synthesizer
    has made it required. *)
Lemma union_is_not_always_a_union_field :
  (exists schema s',
      class_schema note_table 5 (TClass "Either") (Some 0) initial_state = Ok schema s' /\
      fields_at s' schema = [("x", F_mapped "String" required_md)] /\
      Schema_load scalar_convert (fun _ _ => true) (fun _ => VNone) (fields_at s' schema)
        [("x", VInt 3)]
      = inl [("x", "Not a valid value.")]) /\
  field_for_schema custom_table 3 (TUnion [TClass "int"; TClass "str"]) None
    (set_load_default (Some (VInt 5)) empty_md) None initial_state
  = Raise required_with_load_default initial_state.
Proof.
  split; [|vm_compute; reflexivity].
  eexists. eexists. split; [vm_compute; reflexivity|]. split; reflexivity.
Qed.
